(** * Rao-Blackwellized particle filters (include/rbpf.h)

    A shallow embedding of the two engines of [rbpf.h], [rbpf_hmm] and
    [rbpf_kalman], and the properties of their [filter] step.

    Conventions of the embedding.
    - A C++ [double] is a value of [dbl]: a real number, one of the two
      infinities, or NaN.  Arithmetic on the special values follows IEEE 754;
      arithmetic on finite values is exact (rounding and overflow are not
      modelled, and the two zeros are not told apart: zero is the positive
      one).
    - [unsigned int] is a [Z] reduced modulo 2^32.
    - [std::array<T,nparts>] and [std::vector<T>] are lists; an access outside
      the list, a modulo by zero, the dereference of an end iterator and an
      Eigen sum of matrices of different sizes are the faults of [fault].
    - The pure virtual member functions are the fields of a type class; the
      two samplers thread the state of the derived object ([m_derived]).
    - [cf_filters.h] and the resampler type are not part of the header: the
      closed-form filter and the resampler are type-class parameters.

    The header is read as it is written.
    - [std::fill] is called without a value (lines 194, 502): the initial
      log-weights are a parameter of the constructor.
    - [m] is declared twice in the first branch of [rbpf_hmm::filter] (lines
      207, 232): the loop over [fs] uses the second, the maximum element.
    - [dimOut = h(...)] (line 235 and its copies): [numer] and [ones] have
      the size of the functional's value at particle 0.
    - Line 268 calls [updateFSHMM], which is not [updateHMM]: a hook of its
      own.
    - Line 270 assigns [logUnNormWeightUpdate]; no statement of that loop
      assigns [m_logUnNormWeights].
    - Line 284 lacks the subscript [p] of line 225 and is read with it.
    - Lines 536 and 596 assign [m_logLastCondLike] and [m_lastCondLike];
      the member that [getLogCondLike] returns is [m_lastLogCondLike]. *)

From Stdlib Require Import Reals Lra Lia ZArith String.
From stdpp Require Import base list.

Local Open Scope Z_scope.

(** ** Doubles *)

Inductive dbl : Type :=
  | NaN
  | NInf
  | PInf
  | Fin (r : R).

(** Sign of a real, as a [comparison] with zero. *)
Definition Rsgn (r : R) : comparison :=
  match total_order_T r 0 with
  | inleft (left _) => Lt
  | inleft (right _) => Eq
  | inright _ => Gt
  end.

(** The infinity of a given sign; a zero sign gives NaN (0 * inf). *)
Definition inf_of (c : comparison) : dbl :=
  match c with Lt => NInf | Eq => NaN | Gt => PInf end.

Definition dadd (x y : dbl) : dbl :=
  match x, y with
  | NaN, _ | _, NaN => NaN
  | PInf, NInf | NInf, PInf => NaN
  | PInf, _ | _, PInf => PInf
  | NInf, _ | _, NInf => NInf
  | Fin a, Fin b => Fin (a + b)
  end.

Definition dneg (x : dbl) : dbl :=
  match x with
  | NaN => NaN
  | NInf => PInf
  | PInf => NInf
  | Fin a => Fin (- a)
  end.

Definition dsub (x y : dbl) : dbl :=
  match x, y with
  | NaN, _ | _, NaN => NaN
  | PInf, PInf | NInf, NInf => NaN
  | PInf, _ | _, NInf => PInf
  | NInf, _ | _, PInf => NInf
  | Fin a, Fin b => Fin (a - b)
  end.

Definition dmul (x y : dbl) : dbl :=
  match x, y with
  | NaN, _ | _, NaN => NaN
  | PInf, PInf | NInf, NInf => PInf
  | PInf, NInf | NInf, PInf => NInf
  | PInf, Fin b | Fin b, PInf => inf_of (Rsgn b)
  | NInf, Fin b | Fin b, NInf => inf_of (CompOpp (Rsgn b))
  | Fin a, Fin b => Fin (a * b)
  end.

Definition ddiv (x y : dbl) : dbl :=
  match x, y with
  | NaN, _ | _, NaN => NaN
  | (PInf | NInf), (PInf | NInf) => NaN
  | Fin _, (PInf | NInf) => Fin 0
  | PInf, Fin b => match Rsgn b with Lt => NInf | _ => PInf end
  | NInf, Fin b => match Rsgn b with Lt => PInf | _ => NInf end
  | Fin a, Fin b =>
      if Req_dec_T b 0 then inf_of (Rsgn a) else Fin (a / b)
  end.

(** [std::exp] *)
Definition dexp (x : dbl) : dbl :=
  match x with
  | NaN => NaN
  | NInf => Fin 0
  | PInf => PInf
  | Fin a => Fin (exp a)
  end.

(** [std::log]: NaN below zero, minus infinity at zero. *)
Definition dlog (x : dbl) : dbl :=
  match x with
  | NaN | NInf => NaN
  | PInf => PInf
  | Fin a =>
      match Rsgn a with
      | Lt => NaN
      | Eq => NInf
      | Gt => Fin (ln a)
      end
  end.

(** [x < y]; false as soon as one side is NaN. *)
Definition dlt (x y : dbl) : bool :=
  match x, y with
  | NaN, _ | _, NaN => false
  | _, NInf => false
  | NInf, _ => true
  | PInf, _ => false
  | Fin _, PInf => true
  | Fin a, Fin b => if Rlt_dec a b then true else false
  end.

(** [x > y] *)
Definition dgt (x y : dbl) : bool := dlt y x.

(** [static_cast<double>(n)] for a [size_t] *)
Definition of_size (n : nat) : dbl := Fin (INR n).

(** [-1.0/0.0] *)
Definition minus_infinity : dbl := ddiv (Fin (-1)) (Fin 0).

(** ** Unsigned integers *)

Definition wrap32 (z : Z) : Z := z mod 2 ^ 32.

(** ** Faults and the result monad *)

Inductive fault : Type :=
  | DivByZero       (* [%] with a zero divisor *)
  | EmptyRange      (* [*std::max_element] on an empty range *)
  | OutOfBounds     (* [operator[]] past the end *)
  | ShapeMismatch.  (* Eigen sum of matrices of different sizes *)

Inductive res (A : Type) : Type :=
  | Ok (a : A)
  | Ub (f : fault).

Arguments Ok {A} a.
Arguments Ub {A} f.

Definition rbind {A B : Type} (c : res A) (k : A -> res B) : res B :=
  match c with
  | Ok a => k a
  | Ub f => Ub f
  end.

Notation "x <- c ;; k" := (rbind c (fun x => k))
  (at level 100, c at next level, right associativity).


(** [for (size_t ii = 0; ii < n; ++ii) body], started at [ii]. *)
Fixpoint for_loop {S : Type} (body : nat -> S -> res S) (n ii : nat) (s : S)
  : res S :=
  match n with
  | O => Ok s
  | Datatypes.S n' => s' <- body ii s ;; for_loop body n' (Datatypes.S ii) s'
  end.

(** [a[i]] as an rvalue and [a[i] = x]. *)
Definition load {A : Type} (a : list A) (i : nat) : res A :=
  match a !! i with
  | Some x => Ok x
  | None => Ub OutOfBounds
  end.

Definition store {A : Type} (a : list A) (i : nat) (x : A) : res (list A) :=
  if (i <? length a)%nat then Ok (<[i := x]> a) else Ub OutOfBounds.

(** [*std::max_element(first, last)]: the first largest element under [<]. *)
Definition max_element (a : list dbl) : res dbl :=
  match a with
  | [] => Ub EmptyRange
  | x :: t => Ok (fold_left (fun largest y => if dlt largest y then y else largest) t x)
  end.

(** [std::vector::resize(n)]: truncate, or pad with default elements. *)
Definition resize {A : Type} (d : A) (n : nat) (v : list A) : list A :=
  take n v ++ replicate (n - length v) d.

(** ** Vectors and matrices

    An Eigen vector or matrix is the list of its coefficients in storage
    order; two matrices have the same size when the lists have the same
    length. *)

Abbreviation Vec := (list dbl).
Abbreviation sssv := Vec.
Abbreviation nsssv := Vec.
Abbreviation osv := Vec.
Abbreviation Mat := (list dbl).
Abbreviation nsssMat := Mat.

Definition Zero (d : nat) : Mat := replicate d (Fin 0).
Definition Ones (d : nat) : Mat := replicate d (Fin 1).

(** [a + b] *)
Definition mat_add (a b : Mat) : res Mat :=
  if (length a =? length b)%nat then Ok (zip_with dadd a b)
  else Ub ShapeMismatch.

(** [s * a] *)
Definition mat_scale (s : dbl) (a : Mat) : Mat := dmul s <$> a.

(** [a / s] *)
Definition mat_div (a : Mat) (s : dbl) : Mat := (fun x => ddiv x s) <$> a.

(** [a.array().log().matrix()] and [a.array().exp().matrix()] *)
Definition mat_log (a : Mat) : Mat := dlog <$> a.
Definition mat_exp (a : Mat) : Mat := dexp <$> a.

(** The type of an element of [fs]. *)
Definition functional : Type := nsssv -> sssv -> Mat.

(** ** Collaborators that the header only names *)

(** The closed-form filter classes [hmm] and [kalman] of [cf_filters.h], as
    far as the engines use them. *)
Class cf_filter (Mod : Type) : Type := {
  cf_default : Mod;                 (* the default constructor *)
  cf_getLogCondLike : Mod -> dbl;   (* [getLogCondLike()] *)
  getFilterVec : Mod -> nsssv;      (* [getFilterVec()] *)
}.

(** The resampler type [resampT].  [resampLogWts] receives the three arrays
    by reference; being [std::array]s they keep their size. *)
Class Resampler (resampT Mod : Type) : Type := {
  resampler_default : resampT;
  resampLogWts :
    resampT -> list Mod -> list sssv -> list dbl ->
    resampT * (list Mod * list sssv * list dbl);
  resampLogWts_size : forall r mods samps ws,
    length (resampLogWts r mods samps ws).2.1.1 = length mods /\
    length (resampLogWts r mods samps ws).2.1.2 = length samps /\
    length (resampLogWts r mods samps ws).2.2 = length ws;
}.

(** The pure virtual functions that both engines declare.  [U] is the state
    of the derived object, which the two samplers read and update. *)
Class rbpf_virtuals (U : Type) : Type := {
  derived_init : U;
  logMuEv : sssv -> dbl;
  q1Samp : osv -> U -> sssv * U;
  qSamp : sssv -> osv -> U -> sssv * U;
  logQ1Ev : sssv -> osv -> dbl;
  logFEv : sssv -> sssv -> dbl;
  logQEv : sssv -> sssv -> osv -> dbl;
}.

(** What one call of [filter] did, in order. *)
Inductive event : Type :=
  | Propagated                          (* the per-particle loop ran *)
  | Assigned (lhs : string) (v : dbl)   (* the log-likelihood assignment *)
  | Averaged                            (* the loop over [fs] ran *)
  | Resampled                           (* [resampLogWts] was called *)
  | Advanced.                           (* [m_now ++] *)

(** ** The members and the code shared by the two engines *)

Section Engine.
Context {Mod resampT U : Type}.
Context `{!cf_filter Mod} `{!Resampler resampT Mod} `{!rbpf_virtuals U}.

(** Template parameter [nparts]. *)
Variable nparts : nat.

(** The private members (the same in [rbpf_hmm] and [rbpf_kalman]), and
    the state of the derived object. *)
Record engine : Type := mk_engine {
  m_now : Z;
  m_lastLogCondLike : dbl;
  m_rs : Z;
  m_p_innerMods : list Mod;
  m_p_samps : list sssv;
  m_logUnNormWeights : list dbl;
  m_resampler : resampT;
  m_expectations : list Mat;
  m_derived : U;
}.

Definition set_now (v : Z) (s : engine) : engine :=
  mk_engine v (m_lastLogCondLike s) (m_rs s) (m_p_innerMods s) (m_p_samps s)
    (m_logUnNormWeights s) (m_resampler s) (m_expectations s) (m_derived s).

Definition set_lastLogCondLike (v : dbl) (s : engine) : engine :=
  mk_engine (m_now s) v (m_rs s) (m_p_innerMods s) (m_p_samps s)
    (m_logUnNormWeights s) (m_resampler s) (m_expectations s) (m_derived s).

Definition set_expectations (v : list Mat) (s : engine) : engine :=
  mk_engine (m_now s) (m_lastLogCondLike s) (m_rs s) (m_p_innerMods s)
    (m_p_samps s) (m_logUnNormWeights s) (m_resampler s) v (m_derived s).

(** All of one particle's slots and the derived state at once. *)
Definition set_ensemble (mods : list Mod) (samps : list sssv)
    (ws : list dbl) (u : U) (s : engine) : engine :=
  mk_engine (m_now s) (m_lastLogCondLike s) (m_rs s) mods samps ws
    (m_resampler s) (m_expectations s) u.

Definition set_resampled (r : resampT) (mods : list Mod)
    (samps : list sssv) (ws : list dbl) (s : engine) : engine :=
  mk_engine (m_now s) (m_lastLogCondLike s) (m_rs s) mods samps ws
    r (m_expectations s) (m_derived s).

(** The constructors: [m_now(0), m_lastLogCondLike(0.0),
    m_rs(resamp_sched)].  [std::fill] is called without a value, so the
    weights keep what the storage held, [uninit_w]; the samples are
    uninitialised Eigen vectors, [uninit_samp]. *)
Definition construct (uninit_samp : sssv) (uninit_w : dbl)
    (resamp_sched : Z) : engine :=
  {| m_now := 0;
     m_lastLogCondLike := Fin 0;
     m_rs := wrap32 resamp_sched;
     m_p_innerMods := replicate nparts cf_default;
     m_p_samps := replicate nparts uninit_samp;
     m_logUnNormWeights := replicate nparts uninit_w;
     m_resampler := resampler_default;
     m_expectations := [];
     m_derived := derived_init |}.

Definition getLogCondLike (s : engine) : dbl := m_lastLogCondLike s.
Definition getExpectations (s : engine) : list Mat := m_expectations s.

(** The first-step particle loop (rbpf.h 208-220 and 518-530); [init]
    builds the inner filter from the sample and updates it with the datum.
    The accumulator is the running maximum. *)
Definition first_body (init : sssv -> osv -> Mod) (data : osv) (ii : nat)
    (st : engine * dbl) : res (engine * dbl) :=
  let s := st.1 in
  let m := st.2 in
  let x := (q1Samp data (m_derived s)).1 in
  let u := (q1Samp data (m_derived s)).2 in
  samps <- store (m_p_samps s) ii x ;;
  mods <- store (m_p_innerMods s) ii (init x data) ;;
  md <- load mods ii ;;
  x' <- load samps ii ;;
  let w := dsub (dadd (cf_getLogCondLike md) (logMuEv x')) (logQ1Ev x' data) in
  ws <- store (m_logUnNormWeights s) ii w ;;
  w' <- load ws ii ;;
  Ok (set_ensemble mods samps ws u s, if dgt w' m then w' else m).

(** [for (p < nparts) sumexp += std::exp(m_logUnNormWeights[p] - m)] *)
Definition sum_exp (ws : list dbl) (m : dbl) : res dbl :=
  for_loop (fun p acc => w <- load ws p ;; Ok (dadd acc (dexp (dsub w m))))
    nparts 0%nat (Fin 0).

(** The body of the particle loop inside the loop over [fs]
    (rbpf.h 241-246, 299-304, 551-556, 610-615). *)
Definition expect_body (h : functional) (m : dbl) (ones : Mat) (s : engine)
    (prtcl : nat) (acc : Mat * dbl) : res (Mat * dbl) :=
  let numer := acc.1 in
  let denom := acc.2 in
  md <- load (m_p_innerMods s) prtcl ;;
  x <- load (m_p_samps s) prtcl ;;
  let tmp := h (getFilterVec md) x in
  w <- load (m_logUnNormWeights s) prtcl ;;
  tmp <- mat_add (mat_log tmp) (mat_scale (dsub w m) ones) ;;
  numer <- mat_add numer (mat_exp tmp) ;;
  Ok (numer, dadd denom (dexp (dsub w m))).

(** One round of the loop over [fs] (rbpf.h 233-249 and its three copies).
    [dimOut] is read off the functional's value at particle 0; [numer] and
    [ones] have that size.  [fId] is an [unsigned int]. *)
Definition expect_one (m : dbl) (h : functional) (st : engine * Z)
    : res (engine * Z) :=
  let s := st.1 in
  let fId := st.2 in
  md0 <- load (m_p_innerMods s) 0%nat ;;
  x0 <- load (m_p_samps s) 0%nat ;;
  let dimOut := length (h (getFilterVec md0) x0) in
  r <- for_loop (expect_body h m (Ones dimOut) s) nparts 0%nat
         (Zero dimOut, Fin 0) ;;
  e <- store (m_expectations s) (Z.to_nat fId) (mat_div r.1 r.2) ;;
  Ok (set_expectations e s, wrap32 (fId + 1)).

(** [for (auto & h : fs) ...] *)
Fixpoint for_each {A S : Type} (body : A -> S -> res S) (l : list A) (s : S)
  : res S :=
  match l with
  | [] => Ok s
  | a :: l' => s' <- body a s ;; for_each body l' s'
  end.

(** "calculate expectations before you resample" *)
Definition expectations_phase (fs : list functional) (s : engine)
  : res engine :=
  m <- max_element (m_logUnNormWeights s) ;;
  r <- for_each (expect_one m) fs (s, 0) ;;
  Ok r.1.

(** [if ((m_now+1) % m_rs == 0) m_resampler.resampLogWts(...)] *)
Definition resample_gate (s : engine) : res (engine * list event) :=
  if m_rs s =? 0 then Ub DivByZero
  else if wrap32 (m_now s + 1) mod m_rs s =? 0 then
    let r := resampLogWts (m_resampler s) (m_p_innerMods s) (m_p_samps s)
               (m_logUnNormWeights s) in
    Ok (set_resampled r.1 r.2.1.1 r.2.1.2 r.2.2 s, [Resampled])
  else Ok (s, []).

(** [m_now ++] *)
Definition advance (s : engine) : engine := set_now (wrap32 (m_now s + 1)) s.

(** The end of either branch: resample if due, then advance the clock. *)
Definition finish (s : engine) (done : list event)
  : res (engine * list event) :=
  r <- resample_gate s ;;
  Ok (advance r.1, done ++ r.2 ++ [Advanced]).

(** A sequence of calls of a [filter]; the result keeps the events of each
    call. *)
Fixpoint run (filter : osv -> list functional -> engine -> res (engine * list event))
    (calls : list (osv * list functional)) (s : engine)
  : res (engine * list (list event)) :=
  match calls with
  | [] => Ok (s, [])
  | c :: rest =>
      r <- filter c.1 c.2 s ;;
      r' <- run filter rest r.1 ;;
      Ok (r'.1, r.2 :: r'.2)
  end.

End Engine.

Arguments engine Mod resampT U : clear implicits.

(** ** The engine with inner HMMs *)

Module Hmm.

(** The pure virtual functions of [rbpf_hmm] about the inner filter, and
    the constructor [hmm(probs, transMat)] of [cf_filters.h].
    [updateFSHMM] is what the later-step loop calls (rbpf.h 268); the class
    declares [updateHMM] only. *)
Class hooks (hmm : Type) : Type := {
  mk_hmm : nsssv -> nsssMat -> hmm;
  initHMMProbVec : sssv -> nsssv;
  initHMMTransMat : sssv -> nsssMat;
  updateHMM : hmm -> osv -> sssv -> hmm;
  updateFSHMM : hmm -> osv -> sssv -> hmm;
}.

Section Filter.
Context {hmm resampT U : Type}.
Context `{!cf_filter hmm} `{!Resampler resampT hmm} `{!rbpf_virtuals U}.
Context `{!hooks hmm}.
Variable nparts : nat.

Local Abbreviation engine := (engine hmm resampT U).

(** rbpf.h 211-214 *)
Definition init_inner (x : sssv) (data : osv) : hmm :=
  let tmpProbs := initHMMProbVec x in
  let tmpTransMat := initHMMTransMat x in
  updateHMM (mk_hmm tmpProbs tmpTransMat) data x.

(** The later-step particle loop, rbpf.h 265-279.  The accumulators are
    [sumexpdenom], [m1] and [logUnNormWeightUpdate]; the last one
    receives the weight increment and is read nowhere, and no statement
    of the loop writes [m_logUnNormWeights]. *)
Definition next_body (data : osv) (m2 : dbl) (ii : nat)
    (st : engine * (dbl * dbl * dbl)) : res (engine * (dbl * dbl * dbl)) :=
  let s := st.1 in
  let sumexpdenom := st.2.1.1 in
  let m1 := st.2.1.2 in
  x_old <- load (m_p_samps s) ii ;;
  let newX2Samp := (qSamp x_old data (m_derived s)).1 in
  let u := (qSamp x_old data (m_derived s)).2 in
  md <- load (m_p_innerMods s) ii ;;
  mods <- store (m_p_innerMods s) ii (updateFSHMM md data newX2Samp) ;;
  w <- load (m_logUnNormWeights s) ii ;;
  let sumexpdenom := dadd sumexpdenom (dexp (dsub w m2)) in
  md' <- load mods ii ;;
  let logUnNormWeightUpdate :=
    dsub (dadd (cf_getLogCondLike md') (logFEv newX2Samp x_old))
         (logQEv newX2Samp x_old data) in
  let m1 := if dgt w m1 then w else m1 in
  samps <- store (m_p_samps s) ii newX2Samp ;;
  Ok (set_ensemble mods samps (m_logUnNormWeights s) u s,
      (sumexpdenom, m1, logUnNormWeightUpdate)).

(** [rbpf_hmm::filter] up to the resampling test: rbpf.h 202-249 and
    258-307.  In line 284 the subscript [p] is missing; the sum is read as
    the one of line 225. *)
Definition assimilate (data : osv) (fs : list functional) (s : engine)
  : res (engine * list event) :=
  if m_now s =? 0 then
    r <- for_loop (first_body init_inner data) nparts 0%nat
           (s, minus_infinity) ;;
    let s := r.1 in
    let m := r.2 in
    sumexp <- sum_exp nparts (m_logUnNormWeights s) m ;;
    let v := dsub (dadd m (dlog sumexp)) (dlog (of_size nparts)) in
    let s := set_lastLogCondLike v s in
    let s :=
      set_expectations (resize [] (length fs) (m_expectations s)) s in
    s <- expectations_phase nparts fs s ;;
    Ok (s, [Propagated; Assigned "m_lastLogCondLike" v; Averaged])
  else
    m2 <- max_element (m_logUnNormWeights s) ;;
    r <- for_loop (next_body data m2) nparts 0%nat
           (s, (Fin 0, minus_infinity, Fin 0)) ;;
    let s := r.1 in
    let sumexpdenom := r.2.1.1 in
    let m1 := r.2.1.2 in
    sumexpnumer <- sum_exp nparts (m_logUnNormWeights s) m1 ;;
    let v :=
      dsub (dsub (dadd m1 (dlog sumexpnumer)) m2) (dlog sumexpdenom) in
    let s := set_lastLogCondLike v s in
    s <- expectations_phase nparts fs s ;;
    Ok (s, [Propagated; Assigned "m_lastLogCondLike" v; Averaged]).

(** [rbpf_hmm::filter], rbpf.h 199-317. *)
Definition filter (data : osv) (fs : list functional) (s : engine)
  : res (engine * list event) :=
  r <- assimilate data fs s ;;
  finish r.1 r.2.

(** [rbpf_hmm::rbpf_hmm] *)
Definition rbpf_hmm (uninit_samp : sssv) (uninit_w : dbl)
    (resamp_sched : Z) : engine :=
  construct nparts uninit_samp uninit_w resamp_sched.

End Filter.

End Hmm.

(** ** The engine with inner Kalman filters *)

Module Kalman.

(** The pure virtual functions of [rbpf_kalman] about the inner filter, and
    the constructor [kalman(mean, var)] of [cf_filters.h]. *)
Class hooks (kalman : Type) : Type := {
  mk_kalman : nsssv -> nsssMat -> kalman;
  initKalmanMean : sssv -> nsssv;
  initKalmanVar : sssv -> nsssMat;
  updateKalman : kalman -> osv -> sssv -> kalman;
}.

Section Filter.
Context {kalman resampT U : Type}.
Context `{!cf_filter kalman} `{!Resampler resampT kalman}.
Context `{!rbpf_virtuals U} `{!hooks kalman}.
Variable nparts : nat.

Local Abbreviation engine := (engine kalman resampT U).

(** rbpf.h 520-523 *)
Definition init_inner (x : sssv) (data : osv) : kalman :=
  let tmpMean := initKalmanMean x in
  let tmpVar := initKalmanVar x in
  updateKalman (mk_kalman tmpMean tmpVar) data x.

(** The later-step particle loop, rbpf.h 575-590.  The accumulators are
    [sumexpdenom] and [m1].  Line 583 reads
    [w += getLogCondLike() * logFEv(...) - logQEv(...)]. *)
Definition next_body (data : osv) (m2 : dbl) (ii : nat)
    (st : engine * (dbl * dbl)) : res (engine * (dbl * dbl)) :=
  let s := st.1 in
  let sumexpdenom := st.2.1 in
  let m1 := st.2.2 in
  x_old <- load (m_p_samps s) ii ;;
  let newX2Samp := (qSamp x_old data (m_derived s)).1 in
  let u := (qSamp x_old data (m_derived s)).2 in
  md <- load (m_p_innerMods s) ii ;;
  mods <- store (m_p_innerMods s) ii (updateKalman md data newX2Samp) ;;
  w <- load (m_logUnNormWeights s) ii ;;
  let sumexpdenom := dadd sumexpdenom (dexp (dsub w m2)) in
  md' <- load mods ii ;;
  ws <- store (m_logUnNormWeights s) ii
          (dadd w (dsub (dmul (cf_getLogCondLike md')
                              (logFEv newX2Samp x_old))
                        (logQEv newX2Samp x_old data))) ;;
  w' <- load ws ii ;;
  let m1 := if dgt w' m1 then w' else m1 in
  samps <- store (m_p_samps s) ii newX2Samp ;;
  Ok (set_ensemble mods samps ws u s, (sumexpdenom, m1)).

(** [rbpf_kalman::filter] up to the resampling test: rbpf.h 510-559 and
    568-618.  The two log-likelihood assignments name [m_logLastCondLike]
    (line 536) and [m_lastCondLike] (line 596); the member that
    [getLogCondLike] returns is [m_lastLogCondLike], which this function
    leaves as it was. *)
Definition assimilate (data : osv) (fs : list functional) (s : engine)
  : res (engine * list event) :=
  if m_now s =? 0 then
    r <- for_loop (first_body init_inner data) nparts 0%nat
           (s, minus_infinity) ;;
    let s := r.1 in
    let m1 := r.2 in
    sumexp <- sum_exp nparts (m_logUnNormWeights s) m1 ;;
    let m_logLastCondLike :=
      dsub (dadd m1 (dlog sumexp)) (dlog (of_size nparts)) in
    let s :=
      set_expectations (resize [] (length fs) (m_expectations s)) s in
    s <- expectations_phase nparts fs s ;;
    Ok (s, [Propagated; Assigned "m_logLastCondLike" m_logLastCondLike;
            Averaged])
  else
    m2 <- max_element (m_logUnNormWeights s) ;;
    r <- for_loop (next_body data m2) nparts 0%nat
           (s, (Fin 0, minus_infinity)) ;;
    let s := r.1 in
    let sumexpdenom := r.2.1 in
    let m1 := r.2.2 in
    sumexpnumer <- sum_exp nparts (m_logUnNormWeights s) m1 ;;
    let m_lastCondLike :=
      dsub (dsub (dadd m1 (dlog sumexpnumer)) m2) (dlog sumexpdenom) in
    s <- expectations_phase nparts fs s ;;
    Ok (s, [Propagated; Assigned "m_lastCondLike" m_lastCondLike; Averaged]).

(** [rbpf_kalman::filter], rbpf.h 507-628. *)
Definition filter (data : osv) (fs : list functional) (s : engine)
  : res (engine * list event) :=
  r <- assimilate data fs s ;;
  finish r.1 r.2.

(** [rbpf_kalman::rbpf_kalman] *)
Definition rbpf_kalman (uninit_samp : sssv) (uninit_w : dbl)
    (resamp_sched : Z) : engine :=
  construct nparts uninit_samp uninit_w resamp_sched.

End Filter.

End Kalman.

(** ** Reference definitions

    The quantities of the specification, written over whole arrays instead
    of loops. *)

(** The running maximum of the particle loops: [if (w > m) m = w]. *)
Definition running_max (ws : list dbl) (m0 : dbl) : dbl :=
  fold_left (fun m w => if dgt w m then w else m) ws m0.

(** The maximum log-weight, [max_i logw[i]]. *)
Definition max_logw (ws : list dbl) : dbl :=
  match ws with
  | [] => NInf
  | x :: t => fold_left (fun largest y => if dlt largest y then y else largest) t x
  end.

(** [sum_i exp(logw[i] - m)] *)
Definition sum_exp_shifted (ws : list dbl) (m : dbl) : dbl :=
  fold_left (fun acc w => dadd acc (dexp (dsub w m))) ws (Fin 0).

(** [m + log sum_i exp(logw[i] - m)], the log-sum-exp around the shift [m]. *)
Definition logsumexp_at (m : dbl) (ws : list dbl) : dbl :=
  dadd m (dlog (sum_exp_shifted ws m)).

(** [logsumexp(logw) = M + log sum_i exp(logw[i] - M)] with [M] the maximum. *)
Definition logsumexp (ws : list dbl) : dbl := logsumexp_at (max_logw ws) ws.

Section Reference.
Context {Mod : Type} `{!cf_filter Mod}.

(** The value of the functional at particle [i]. *)
Definition h_at (h : functional) (mods : list Mod) (samps : list sssv)
    (i : nat) : Mat :=
  h (getFilterVec (default cf_default (mods !! i)))
    (default ([] : sssv) (samps !! i)).

(** [exp(logw[i] - m)] *)
Definition shifted_weight (ws : list dbl) (m : dbl) (i : nat) : dbl :=
  dexp (dsub (default NaN (ws !! i)) m).

(** [sum_{i<n} exp(logw[i] - m)] *)
Definition denom_upto (ws : list dbl) (m : dbl) (n : nat) : dbl :=
  fold_left (fun a i => dadd a (shifted_weight ws m i)) (seq 0 n) (Fin 0).

(** [sum_{i<n} h(inner[i], samples[i]) * exp(logw[i] - m)], elementwise. *)
Definition numer_upto (h : functional) (mods : list Mod) (samps : list sssv)
    (ws : list dbl) (m : dbl) (n : nat) : Mat :=
  fold_left
    (fun a i => zip_with dadd a (mat_scale (shifted_weight ws m i) (h_at h mods samps i)))
    (seq 0 n) (Zero (length (h_at h mods samps 0))).

(** Section 4.5.3 of the specification: with [m] the maximum log-weight,
    [denom = sum_i exp(logw[i] - m)],
    [numer = sum_i h(inner[i], samples[i]) * exp(logw[i] - m)] (elementwise),
    and the expectation is [numer / denom]. *)
Definition weighted_average (h : functional) (mods : list Mod)
    (samps : list sssv) (ws : list dbl) : Mat :=
  let m := max_logw ws in
  mat_div (numer_upto h mods samps ws m (length ws))
          (denom_upto ws m (length ws)).

(** The term that the loops over [fs] add for particle [i]: the logarithm of
    the functional's value is taken first, the shifted log-weight added, and
    the sum exponentiated. *)
Definition log_domain_term (h : functional) (mods : list Mod)
    (samps : list sssv) (ws : list dbl) (m : dbl) (i : nat) : Mat :=
  mat_exp
    (zip_with dadd (mat_log (h_at h mods samps i))
       (mat_scale (dsub (default NaN (ws !! i)) m)
          (Ones (length (h_at h mods samps 0))))).

Definition log_numer_upto (h : functional) (mods : list Mod)
    (samps : list sssv) (ws : list dbl) (m : dbl) (n : nat) : Mat :=
  fold_left (fun a i => zip_with dadd a (log_domain_term h mods samps ws m i))
    (seq 0 n) (Zero (length (h_at h mods samps 0))).

(** What the loops over [fs] store for the functional [h]. *)
Definition log_domain_average (h : functional) (mods : list Mod)
    (samps : list sssv) (ws : list dbl) : Mat :=
  let m := max_logw ws in
  mat_div (log_numer_upto h mods samps ws m (length ws))
          (denom_upto ws m (length ws)).

End Reference.




(** The three particle arrays have [nparts] elements each. *)
Definition sized {Mod resampT U : Type} (nparts : nat)
    (s : engine Mod resampT U) : Prop :=
  length (m_p_innerMods s) = nparts /\
  length (m_p_samps s) = nparts /\
  length (m_logUnNormWeights s) = nparts.

(** A functional whose value has the same size at every argument. *)
Definition uniform (h : functional) : Prop :=
  forall p x p' x', length (h p x) = length (h p' x').

(** Zero, a positive number or plus infinity. *)
Definition nonneg (x : dbl) : Prop :=
  match x with
  | Fin r => (0 <= r)%R
  | PInf => True
  | _ => False
  end.

Definition finite (x : dbl) : Prop :=
  match x with
  | Fin _ => True
  | _ => False
  end.

(** What a caller can observe of a call: the two getters and the events. *)
Definition observe {Mod resampT U : Type}
    (r : res (engine Mod resampT U * list event))
  : res (dbl * list Mat * list event) :=
  x <- r ;; Ok (getLogCondLike x.1, getExpectations x.1, x.2).

(** The members that the particle loops leave alone. *)
Definition same_frame {Mod resampT U : Type} (s0 s : engine Mod resampT U)
  : Prop :=
  m_now s = m_now s0 /\
  m_lastLogCondLike s = m_lastLogCondLike s0 /\
  m_rs s = m_rs s0 /\
  m_resampler s = m_resampler s0 /\
  m_expectations s = m_expectations s0.

(** The first-step weight of a particle from its inner filter and sample. *)
Definition first_weight {Mod U : Type} `{!cf_filter Mod} `{!rbpf_virtuals U}
    (data : osv) (md : Mod) (x : sssv) : dbl :=
  dsub (dadd (cf_getLogCondLike md) (logMuEv x)) (logQ1Ev x data).

(** The resampling test of a step, [(m_now+1) % m_rs == 0], on the
    [unsigned int] members. *)
Definition resampling_due {Mod resampT U : Type} (s : engine Mod resampT U)
  : bool :=
  wrap32 (m_now s + 1) mod m_rs s =? 0.

(** The stages of a step, without the values that the events carry. *)
Inductive phase : Type :=
  | ParticleLoop     (* propagate and update weights: the per-particle loop *)
  | LogLikelihood
  | Expectations
  | Resample
  | IncrementTime.

Definition phase_of (e : event) : phase :=
  match e with
  | Propagated => ParticleLoop
  | Assigned _ _ => LogLikelihood
  | Averaged => Expectations
  | Resampled => Resample
  | Advanced => IncrementTime
  end.

(** The stages of a step that resamples or not. *)
Definition stages (resamples : bool) : list phase :=
  [ParticleLoop; LogLikelihood; Expectations]
  ++ (if resamples then [Resample] else []) ++ [IncrementTime].

(** The later-step weight that line 583 of rbpf.h stores: the inner
    filter's log conditional likelihood times [log_f], minus [log_q], added
    to the old weight. *)
Definition product_weight {Mod U : Type} `{!cf_filter Mod} `{!rbpf_virtuals U}
    (data : osv) (w : dbl) (md : Mod) (x x_old : sssv) : dbl :=
  dadd w (dsub (dmul (cf_getLogCondLike md) (logFEv x x_old))
               (logQEv x x_old data)).

(** The later-step weight of the specification:
    [logw + lastLogCondLike + log_f - log_q]. *)
Definition additive_weight {Mod U : Type} `{!cf_filter Mod} `{!rbpf_virtuals U}
    (data : osv) (w : dbl) (md : Mod) (x x_old : sssv) : dbl :=
  dsub (dadd (dadd w (cf_getLogCondLike md)) (logFEv x x_old))
       (logQEv x x_old data).

(** Both [filter]s are their own first part followed by [finish]. *)
Definition filter_from {Mod resampT U : Type} `{!Resampler resampT Mod}
    (assimilate : osv -> list functional -> engine Mod resampT U ->
                  res (engine Mod resampT U * list event))
    (data : osv) (fs : list functional) (s : engine Mod resampT U)
  : res (engine Mod resampT U * list event) :=
  r <- assimilate data fs s ;;
  finish r.1 r.2.

(** What a call needs in order to return: arrays of [nparts >= 1] elements,
    functionals of a fixed size each, no more of them than an
    [unsigned int] counts, and, after the first call, no more of them than
    there are cached expectations. *)
Definition callable {Mod resampT U : Type} (nparts : nat)
    (fs : list functional) (s : engine Mod resampT U) : Prop :=
  sized nparts s /\ (0 < nparts)%nat /\ Forall uniform fs /\
  Z.of_nat (length fs) <= 2 ^ 32 /\
  (m_now s <> 0 -> (length fs <= length (m_expectations s))%nat).

(** The common behaviour of the first part of the two [filter]s on a
    callable engine: it returns after the three stages, keeps the clock, the
    period and the array sizes, and caches for every functional the
    log-domain average over the particles it leaves. *)
Definition assimilates {Mod resampT U : Type} `{!cf_filter Mod} (nparts : nat)
    (assimilate : osv -> list functional -> engine Mod resampT U ->
                  res (engine Mod resampT U * list event)) : Prop :=
  forall data fs s, callable nparts fs s ->
  exists s' tr,
    assimilate data fs s = Ok (s', tr) /\
    phase_of <$> tr = [ParticleLoop; LogLikelihood; Expectations] /\
    sized nparts s' /\ m_now s' = m_now s /\ m_rs s' = m_rs s /\
    length (m_expectations s') =
      (if m_now s =? 0 then length fs else length (m_expectations s)) /\
    (forall k h, fs !! k = Some h ->
       m_expectations s' !! k =
       Some (log_domain_average h (m_p_innerMods s') (m_p_samps s')
               (m_logUnNormWeights s'))).

(** Two results that are both values related by [Q], or the same fault. *)
Definition res_rel {A B : Type} (Q : A -> B -> Prop) (x : res A) (y : res B)
  : Prop :=
  match x, y with
  | Ok a, Ok b => Q a b
  | Ub f, Ub g => f = g
  | _, _ => False
  end.

(** What the expectation loops of a step do for every functional, between
    the engine [s_pre] that the step leaves before it resamples and the
    engine [s'] that it returns: the step caches the log-domain average; a
    negative coefficient of the functional at any particle puts NaN at its
    place in the cached expectation; and on finite weights and finite
    coefficients the cached expectation is the weighted average exactly when
    no coefficient is negative. *)
Definition log_first {Mod resampT U : Type} `{!cf_filter Mod} (nparts : nat)
    (fs : list functional) (s_pre s' : engine Mod resampT U) : Prop :=
  forall k h, fs !! k = Some h ->
    let mods := m_p_innerMods s_pre in
    let samps := m_p_samps s_pre in
    let ws := m_logUnNormWeights s_pre in
    getExpectations s' !! k = Some (log_domain_average h mods samps ws) /\
    (forall i j r, (i < nparts)%nat ->
       h_at h mods samps i !! j = Some (Fin r) -> (r < 0)%R ->
       exists e, getExpectations s' !! k = Some e /\ e !! j = Some NaN) /\
    (Forall finite ws ->
     (forall i, (i < nparts)%nat -> Forall finite (h_at h mods samps i)) ->
     getExpectations s' !! k = Some (weighted_average h mods samps ws) <->
     (forall i, (i < nparts)%nat -> Forall nonneg (h_at h mods samps i))).







(** ** A small concrete model

    One-coefficient inner filters that remember the first coefficient of the
    last observation as their log conditional likelihood; samplers that
    return the observation; [log_f] reads the second coefficient of the new
    sample; the other densities are constant.  The resampler copies nothing
    and resets the weights. *)
Module Demo.

#[export] Instance demo_cf : cf_filter dbl :=
  {| cf_default := Fin 0;
     cf_getLogCondLike := fun md => md;
     getFilterVec := fun md => [md] |}.

Definition demo_resample (r : unit) (mods : list dbl) (samps : list sssv)
    (ws : list dbl) : unit * (list dbl * list sssv * list dbl) :=
  (r, (mods, samps, (fun _ => Fin 0) <$> ws)).

#[export] Instance demo_resampler : Resampler unit dbl :=
  {| resampler_default := tt;
     resampLogWts := demo_resample;
     resampLogWts_size := fun r mods samps ws =>
       conj eq_refl (conj eq_refl (length_fmap (fun _ => Fin 0) ws)) |}.

#[export] Instance demo_virtuals : rbpf_virtuals unit :=
  {| derived_init := tt;
     logMuEv := fun _ => Fin 0;
     q1Samp := fun y u => (y, u);
     qSamp := fun _ y u => (y, u);
     logQ1Ev := fun _ _ => Fin 0;
     logFEv := fun xt _ => default NaN (xt !! 1%nat);
     logQEv := fun _ _ _ => Fin 0 |}.

Definition first_coeff (y : osv) : dbl := default NaN (y !! 0%nat).

#[export] Instance demo_hmm : Hmm.hooks dbl :=
  {| Hmm.mk_hmm := fun _ _ => Fin 0;
     Hmm.initHMMProbVec := fun _ => [];
     Hmm.initHMMTransMat := fun _ => [];
     Hmm.updateHMM := fun _ y _ => first_coeff y;
     Hmm.updateFSHMM := fun _ y _ => first_coeff y |}.

#[export] Instance demo_kalman : Kalman.hooks dbl :=
  {| Kalman.mk_kalman := fun _ _ => Fin 0;
     Kalman.initKalmanMean := fun _ => [];
     Kalman.initKalmanVar := fun _ => [];
     Kalman.updateKalman := fun _ y _ => first_coeff y |}.

Definition demo_engine : Type := engine dbl unit unit.

(** A one-particle engine of each kind, resampling every fifth step. *)
Definition hmm0 : demo_engine := Hmm.rbpf_hmm 1 [] (Fin 0) 5.
Definition kalman0 : demo_engine := Kalman.rbpf_kalman 1 [] (Fin 0) 5.

(** Functionals with one coefficient. *)
Definition h_one : functional := fun _ _ => [Fin 1].
Definition h_minus_one : functional := fun _ _ => [Fin (-1)].

(** Two observations, and the engines after the first and after the second
    of them. *)
Definition y1 : osv := [Fin 1; Fin 0].
Definition y2 : osv := [Fin 2; Fin 3].

Definition after (now : Z) (last : dbl) (md : dbl) (y : osv) (w : dbl)
  : demo_engine :=
  {| m_now := now; m_lastLogCondLike := last; m_rs := 5;
     m_p_innerMods := [md]; m_p_samps := [y]; m_logUnNormWeights := [w];
     m_resampler := tt; m_expectations := []; m_derived := tt |}.

Definition hmm1 : demo_engine := after 1 (Fin 1) (Fin 1) y1 (Fin 1).
Definition hmm2 : demo_engine := after 2 (Fin 0) (Fin 2) y2 (Fin 1).
Definition kalman1 : demo_engine := after 1 (Fin 0) (Fin 1) y1 (Fin 1).
Definition kalman2 : demo_engine := after 2 (Fin 0) (Fin 2) y2 (Fin 7).

(** The engines after a first call that cached one expectation. *)
Definition hmm1e : demo_engine := set_expectations [[Fin 1]] hmm1.
Definition kalman1e : demo_engine := set_expectations [[Fin 1]] kalman1.

(** An engine whose clock stands at the last value of an [unsigned int]. *)
Definition hmm_last : demo_engine := set_now (2 ^ 32 - 1) hmm1e.
Definition kalman_last : demo_engine := set_now (2 ^ 32 - 1) kalman1e.


(** An observation on which the inner filters report minus infinity. *)
Definition y_impossible : osv := [NInf; Fin 0].

(** Three calls with one functional each. *)
Definition three_calls : list (osv * list functional) :=
  [([Fin 0; Fin 0], [h_one]); ([Fin 2; Fin 3], [h_one]);
   ([Fin 1; Fin 1], [h_one])].

End Demo.

(** * Properties *)

(** ** Arithmetic of [dbl] *)

Lemma Rsgn_neg r : (r < 0)%R -> Rsgn r = Lt.
Proof. intros H. unfold Rsgn. destruct (total_order_T r 0) as [[?|?]|?]; [done|lra|lra]. Qed.

Lemma Rsgn_zero : Rsgn 0 = Eq.
Proof. unfold Rsgn. destruct (total_order_T 0 0) as [[?|?]|?]; [lra|done|lra]. Qed.

Lemma Rsgn_pos r : (0 < r)%R -> Rsgn r = Gt.
Proof. intros H. unfold Rsgn. destruct (total_order_T r 0) as [[?|?]|?]; [lra|lra|done]. Qed.

Lemma Rsgn_cases r :
  (r < 0 /\ Rsgn r = Lt)%R \/ (r = 0%R /\ Rsgn r = Eq) \/ (0 < r /\ Rsgn r = Gt)%R.
Proof.
  destruct (total_order_T r 0) as [[?|?]|?].
  - left. split; [done|by apply Rsgn_neg].
  - right; left. subst. split; [done|apply Rsgn_zero].
  - right; right. split; [done|by apply Rsgn_pos].
Qed.

Lemma minus_infinity_eq : minus_infinity = NInf.
Proof.
  unfold minus_infinity, ddiv.
  destruct (Req_dec_T 0 0) as [_|H]; [|lra].
  rewrite Rsgn_neg; [done|lra].
Qed.

Lemma dlog_one : dlog (Fin 1) = Fin 0.
Proof. simpl. rewrite Rsgn_pos by lra. by rewrite ln_1. Qed.

Lemma dlog_neg r : (r < 0)%R -> dlog (Fin r) = NaN.
Proof. intros H. simpl. by rewrite Rsgn_neg. Qed.

Lemma dadd_nan_r x : dadd x NaN = NaN.
Proof. by destruct x. Qed.

Lemma dmul_one_r x : dmul x (Fin 1) = x.
Proof.
  destruct x; simpl; try done.
  - rewrite Rsgn_pos by lra. done.
  - rewrite Rsgn_pos by lra. done.
  - f_equal. lra.
Qed.

(** The log-domain product: taking the logarithm, adding and exponentiating
    multiplies, as long as the first factor is not negative. *)
Lemma dexp_dlog_add x y :
  nonneg x -> dexp (dadd (dlog x) y) = dmul (dexp y) x.
Proof.
  destruct x as [| | |r]; simpl; try done.
  - intros _. destruct y as [| | |s]; simpl; try done.
    + by rewrite Rsgn_zero.
    + by rewrite Rsgn_pos by apply exp_pos.
  - intros Hr. destruct (Rsgn_cases r) as [[H E]|[[H E]|[H E]]]; [lra| |];
      rewrite E; destruct y as [| | |s]; simpl; rewrite ?E; try done;
      try (f_equal; rewrite ?exp_plus, ?exp_ln by done; subst; lra).
Qed.





(** ** Loops and array accesses *)

Lemma load_Some {A : Type} (a : list A) i x : a !! i = Some x -> load a i = Ok x.
Proof. intros E. unfold load. by rewrite E. Qed.

Lemma load_lt {A : Type} (a : list A) i :
  (i < length a)%nat -> exists x, a !! i = Some x /\ load a i = Ok x.
Proof.
  intros H. destruct (lookup_lt_is_Some_2 a i H) as [x E].
  exists x. split; [done|by apply load_Some].
Qed.

Lemma store_lt {A : Type} (a : list A) i x :
  (i < length a)%nat -> store a i x = Ok (<[i := x]> a).
Proof. intros H. unfold store. by rewrite (proj2 (Nat.ltb_lt _ _) H). Qed.

(** The invariant rule of [for_loop]: a body that succeeds and re-establishes
    [P] on the range carries [P] from [i] to [i + n]. *)
Lemma for_loop_inv {S : Type} (body : nat -> S -> res S)
    (P : nat -> S -> Prop) n i s :
  P i s ->
  (forall j t, (i <= j < i + n)%nat -> P j t ->
     exists t', body j t = Ok t' /\ P (Datatypes.S j) t') ->
  exists t', for_loop body n i s = Ok t' /\ P (i + n)%nat t'.
Proof.
  revert i s. induction n as [|n IH]; intros i s HP Hstep; simpl.
  - exists s. by rewrite Nat.add_0_r.
  - destruct (Hstep i s) as (t' & E & HP'); [lia|done|].
    rewrite E. simpl.
    destruct (IH (Datatypes.S i) t') as (t'' & E' & HP'');
      [done|intros j t Hj; apply Hstep; lia|].
    exists t''. split; [done|].
    by replace (i + Datatypes.S n)%nat with (Datatypes.S i + n)%nat by lia.
Qed.

(** Two loops whose bodies fail alike and keep a relation between their
    states end alike. *)
Lemma res_rel_bind {A B A' B' : Type} (Q : A -> B -> Prop)
    (Q' : A' -> B' -> Prop) x y (k : A -> res A') (k' : B -> res B') :
  res_rel Q x y ->
  (forall a b, Q a b -> res_rel Q' (k a) (k' b)) ->
  res_rel Q' (rbind x k) (rbind y k').
Proof. destruct x, y; simpl; try done. auto. Qed.

Lemma for_loop_rel {S T : Type} (b1 : nat -> S -> res S)
    (b2 : nat -> T -> res T) (Q : nat -> S -> T -> Prop) n i s t :
  Q i s t ->
  (forall j s t, (i <= j < i + n)%nat -> Q j s t ->
     res_rel (Q (Datatypes.S j)) (b1 j s) (b2 j t)) ->
  res_rel (Q (i + n)%nat) (for_loop b1 n i s) (for_loop b2 n i t).
Proof.
  revert i s t. induction n as [|n IH]; intros i s t HQ Hstep; simpl.
  - by rewrite Nat.add_0_r.
  - apply res_rel_bind with (Q := Q (Datatypes.S i)).
    + apply Hstep; [lia|done].
    + intros a b Hab.
      replace (i + Datatypes.S n)%nat with (Datatypes.S i + n)%nat by lia.
      apply IH; [done|]. intros j s' t' Hj. apply Hstep. lia.
Qed.

Lemma running_max_snoc ws w m0 :
  running_max (ws ++ [w]) m0 =
  (if dgt w (running_max ws m0) then w else running_max ws m0).
Proof. unfold running_max. by rewrite fold_left_app. Qed.

Lemma sum_exp_shifted_snoc ws w m :
  sum_exp_shifted (ws ++ [w]) m =
  dadd (sum_exp_shifted ws m) (dexp (dsub w m)).
Proof. unfold sum_exp_shifted. by rewrite fold_left_app. Qed.

Lemma max_element_ok ws :
  ws <> [] -> max_element ws = Ok (max_logw ws).
Proof. by destruct ws. Qed.

(** The running maximum of the loops and the maximum element give the same
    log-sum-exp: they differ only when the first log-weight is NaN, and then
    the sum is NaN around either. *)
Lemma fold_sum_exp_nan t m :
  fold_left (fun acc w => dadd acc (dexp (dsub w m))) t NaN = NaN.
Proof. induction t as [|w t IH]; [done|]. simpl. apply IH. Qed.

Lemma logsumexp_at_nan_head t m : logsumexp_at m (NaN :: t) = NaN.
Proof.
  unfold logsumexp_at, sum_exp_shifted. simpl.
  rewrite fold_sum_exp_nan. apply dadd_nan_r.
Qed.

Lemma logsumexp_at_running_max ws :
  logsumexp_at (running_max ws minus_infinity) ws = logsumexp ws.
Proof.
  unfold logsumexp. destruct ws as [|x t].
  - unfold running_max. simpl. by rewrite minus_infinity_eq.
  - destruct x as [| | |a]; [by rewrite !logsumexp_at_nan_head| | |];
      unfold running_max; simpl; by rewrite minus_infinity_eq.
Qed.

Lemma dsub_dsub a b c : dsub (dsub a b) c = dsub a (dadd b c).
Proof. destruct a, b, c; simpl; try done. f_equal. lra. Qed.

(** The value of the later-step log-likelihood assignment,
    [m1 + log(sumexpnumer) - m2 - log(sumexpdenom)], is the log-sum-exp of
    the new weights minus the log-sum-exp of the old ones. *)
Lemma increment_value ws ws' :
  dsub (dsub (logsumexp_at (running_max ws' minus_infinity) ws') (max_logw ws))
       (dlog (sum_exp_shifted ws (max_logw ws))) =
  dsub (logsumexp ws') (logsumexp ws).
Proof. by rewrite logsumexp_at_running_max, dsub_dsub. Qed.

(** ** The code shared by the two engines *)

Section Shared.
Context {Mod resampT U : Type}.
Context `{!cf_filter Mod} `{!Resampler resampT Mod} `{!rbpf_virtuals U}.
Variable nparts : nat.

Local Abbreviation engine := (engine Mod resampT U).

Lemma same_frame_refl (s : engine) : same_frame s s.
Proof. by repeat split. Qed.

Lemma sum_exp_ok ws m :
  length ws = nparts -> sum_exp nparts ws m = Ok (sum_exp_shifted ws m).
Proof.
  intros Hlen. unfold sum_exp.
  destruct (for_loop_inv
    (fun p acc => w <- load ws p ;; Ok (dadd acc (dexp (dsub w m))))
    (fun j acc => acc = sum_exp_shifted (take j ws) m) nparts 0%nat (Fin 0))
    as (t & E & Ht).
  - done.
  - intros j t Hj ->.
    destruct (load_lt ws j) as (w & Hw & El); [lia|].
    rewrite El. simpl. eexists. split; [done|].
    by rewrite (take_S_r _ _ _ Hw), sum_exp_shifted_snoc.
  - rewrite E. f_equal. rewrite Ht. simpl. by rewrite take_ge by lia.
Qed.

(** The first-step particle loop on arrays of the right size: it returns,
    every particle holds the first-step weight of its own inner filter and
    sample, and the accumulator is the running maximum of the weights. *)
Lemma first_loop_ok (init : sssv -> osv -> Mod) data (s : engine) m0 :
  sized nparts s ->
  exists s' m,
    for_loop (first_body init data) nparts 0%nat (s, m0) = Ok (s', m) /\
    sized nparts s' /\ same_frame s s' /\
    (forall i, (i < nparts)%nat -> exists md x,
       m_p_innerMods s' !! i = Some md /\ m_p_samps s' !! i = Some x /\
       m_logUnNormWeights s' !! i = Some (first_weight data md x)) /\
    m = running_max (m_logUnNormWeights s') m0.
Proof.
  intros Hs.
  destruct (for_loop_inv (first_body init data)
    (fun j st =>
       sized nparts st.1 /\ same_frame s st.1 /\
       (forall i, (i < j)%nat -> exists md x,
          m_p_innerMods st.1 !! i = Some md /\ m_p_samps st.1 !! i = Some x /\
          m_logUnNormWeights st.1 !! i = Some (first_weight data md x)) /\
       st.2 = running_max (take j (m_logUnNormWeights st.1)) m0)
    nparts 0%nat (s, m0)) as ([s' m] & E & Hsz & Hfr & Hw & Hm).
  - simpl. split; [done|]. split; [apply same_frame_refl|].
    split; [intros i Hi; lia|done].
  - intros j [t m] Hj (Hsz & Hfr & Hw & Hm). simpl in *.
    destruct Hsz as (H1 & H2 & H3).
    unfold first_body. simpl.
    rewrite (store_lt (m_p_samps t)) by lia. simpl.
    rewrite (store_lt (m_p_innerMods t)) by lia. simpl.
    rewrite (load_Some _ j (init (q1Samp data (m_derived t)).1 data))
      by (apply list_lookup_insert_eq; lia). simpl.
    rewrite (load_Some _ j (q1Samp data (m_derived t)).1)
      by (apply list_lookup_insert_eq; lia). simpl.
    rewrite (store_lt (m_logUnNormWeights t)) by lia. simpl.
    erewrite load_Some by (apply list_lookup_insert_eq; lia). simpl.
    eexists. split; [done|]. simpl.
    split; [unfold sized; simpl; by rewrite !length_insert|].
    split; [done|].
    split.
    + intros i Hi. destruct (decide (i = j)) as [->|Hne].
      * do 2 eexists. rewrite !list_lookup_insert_eq by lia. done.
      * destruct (Hw i) as (md & x & Ha & Hb & Hc); [lia|].
        exists md, x. rewrite !list_lookup_insert_ne by done. done.
    + erewrite take_S_r by (apply list_lookup_insert_eq; lia).
      rewrite running_max_snoc, take_insert_ge by lia. by rewrite <- Hm.
  - exists s', m. simpl in *. split; [done|]. split; [done|]. split; [done|].
    split; [done|]. destruct Hsz as (_ & _ & H3).
    by rewrite take_ge in Hm by lia.
Qed.

Lemma mat_add_ok (a b : Mat) :
  length a = length b -> mat_add a b = Ok (zip_with dadd a b).
Proof. intros H. unfold mat_add. by rewrite H, Nat.eqb_refl. Qed.

Lemma denom_upto_S ws m n :
  denom_upto ws m (Datatypes.S n) =
  dadd (denom_upto ws m n) (shifted_weight ws m n).
Proof. unfold denom_upto. by rewrite seq_S, fold_left_app. Qed.

Lemma log_numer_upto_S h (mods : list Mod) samps ws m n :
  log_numer_upto h mods samps ws m (Datatypes.S n) =
  zip_with dadd (log_numer_upto h mods samps ws m n)
    (log_domain_term h mods samps ws m n).
Proof. unfold log_numer_upto. by rewrite seq_S, fold_left_app. Qed.

Lemma numer_upto_S h (mods : list Mod) samps ws m n :
  numer_upto h mods samps ws m (Datatypes.S n) =
  zip_with dadd (numer_upto h mods samps ws m n)
    (mat_scale (shifted_weight ws m n) (h_at h mods samps n)).
Proof. unfold numer_upto. by rewrite seq_S, fold_left_app. Qed.

Lemma length_h_at h (mods : list Mod) samps i :
  uniform h -> length (h_at h mods samps i) = length (h_at h mods samps 0).
Proof. intros Hu. apply Hu. Qed.

Lemma length_log_domain_term h (mods : list Mod) samps ws m i :
  uniform h ->
  length (log_domain_term h mods samps ws m i) = length (h_at h mods samps 0).
Proof.
  intros Hu. unfold log_domain_term, mat_exp, mat_log, mat_scale, Ones.
  rewrite length_fmap, length_zip_with, !length_fmap, length_replicate.
  rewrite (length_h_at h mods samps i Hu). lia.
Qed.

Lemma length_log_numer_upto h (mods : list Mod) samps ws m n :
  uniform h ->
  length (log_numer_upto h mods samps ws m n) = length (h_at h mods samps 0).
Proof.
  intros Hu. induction n as [|n IH].
  - unfold log_numer_upto, Zero. simpl. by rewrite length_replicate.
  - rewrite log_numer_upto_S, length_zip_with, IH, length_log_domain_term by done.
    lia.
Qed.

(** The particle loop of one functional returns the two partial sums. *)
Lemma expect_loop_ok h m (s : engine) :
  sized nparts s -> uniform h ->
  let d := length (h_at h (m_p_innerMods s) (m_p_samps s) 0) in
  for_loop (expect_body h m (Ones d) s) nparts 0%nat (Zero d, Fin 0) =
  Ok (log_numer_upto h (m_p_innerMods s) (m_p_samps s)
        (m_logUnNormWeights s) m nparts,
      denom_upto (m_logUnNormWeights s) m nparts).
Proof.
  intros (H1 & H2 & H3) Hu d.
  destruct (for_loop_inv (expect_body h m (Ones d) s)
    (fun j acc =>
       acc = (log_numer_upto h (m_p_innerMods s) (m_p_samps s)
                (m_logUnNormWeights s) m j,
              denom_upto (m_logUnNormWeights s) m j))
    nparts 0%nat (Zero d, Fin 0)) as (t & E & Ht).
  - done.
  - intros j t Hj ->. subst d. unfold expect_body. simpl.
    destruct (load_lt (m_p_innerMods s) j) as (md & Hmd & ->); [lia|].
    destruct (load_lt (m_p_samps s) j) as (x & Hx & ->); [lia|].
    destruct (load_lt (m_logUnNormWeights s) j) as (w & Hw & ->); [lia|].
    simpl.
    assert (Hh : h (getFilterVec md) x = h_at h (m_p_innerMods s) (m_p_samps s) j)
      by (unfold h_at; by rewrite Hmd, Hx).
    rewrite Hh.
    assert (Ht : zip_with dadd (mat_log (h_at h (m_p_innerMods s) (m_p_samps s) j))
                   (mat_scale (dsub w m)
                      (Ones (length (h_at h (m_p_innerMods s) (m_p_samps s) 0)))) =
                 zip_with dadd (mat_log (h_at h (m_p_innerMods s) (m_p_samps s) j))
                   (mat_scale (dsub (default NaN (m_logUnNormWeights s !! j)) m)
                      (Ones (length (h_at h (m_p_innerMods s) (m_p_samps s) 0)))))
      by (by rewrite Hw).
    rewrite mat_add_ok.
    2:{ unfold mat_log, mat_scale, Ones.
        rewrite !length_fmap, length_replicate. apply Hu. }
    simpl. rewrite mat_add_ok.
    2:{ rewrite Ht. fold (log_domain_term h (m_p_innerMods s) (m_p_samps s)
                            (m_logUnNormWeights s) m j).
        by rewrite length_log_numer_upto, length_log_domain_term. }
    simpl. eexists. split; [done|].
    rewrite log_numer_upto_S, denom_upto_S.
    unfold shifted_weight, log_domain_term. by rewrite Ht, Hw.
  - by rewrite E, Ht.
Qed.

(** One round of the loop over [fs] stores the log-domain average at
    [fId]. *)
Lemma expect_one_ok m h (s : engine) fId :
  sized nparts s -> (0 < nparts)%nat -> uniform h ->
  (Z.to_nat fId < length (m_expectations s))%nat ->
  expect_one nparts m h (s, fId) =
  Ok (set_expectations
        (<[Z.to_nat fId :=
             mat_div (log_numer_upto h (m_p_innerMods s) (m_p_samps s)
                        (m_logUnNormWeights s) m nparts)
                     (denom_upto (m_logUnNormWeights s) m nparts)]>
           (m_expectations s)) s,
      wrap32 (fId + 1)).
Proof.
  intros Hs Hn Hu Hf. pose proof Hs as (H1 & H2 & H3).
  unfold expect_one. simpl.
  destruct (load_lt (m_p_innerMods s) 0) as (md & Hmd & ->); [lia|].
  destruct (load_lt (m_p_samps s) 0) as (x & Hx & ->); [lia|].
  simpl.
  assert (Hh : h (getFilterVec md) x = h_at h (m_p_innerMods s) (m_p_samps s) 0)
    by (unfold h_at; by rewrite Hmd, Hx).
  rewrite Hh, (expect_loop_ok h m s Hs Hu). simpl.
  by rewrite store_lt by done.
Qed.

Lemma expect_all_ok m fs : forall (s : engine) (k0 : nat),
  sized nparts s -> (0 < nparts)%nat -> Forall uniform fs ->
  (k0 + length fs <= length (m_expectations s))%nat ->
  Z.of_nat k0 + Z.of_nat (length fs) <= 2 ^ 32 ->
  exists es fId',
    for_each (expect_one nparts m) fs (s, Z.of_nat k0) =
      Ok (set_expectations es s, fId') /\
    length es = length (m_expectations s) /\
    (forall k h, fs !! k = Some h ->
       es !! (k0 + k)%nat =
       Some (mat_div (log_numer_upto h (m_p_innerMods s) (m_p_samps s)
                        (m_logUnNormWeights s) m nparts)
                     (denom_upto (m_logUnNormWeights s) m nparts))) /\
    (forall i, (i < k0 \/ k0 + length fs <= i)%nat ->
       es !! i = m_expectations s !! i).
Proof.
  induction fs as [|h fs IH]; intros s k0 Hs Hn Hu Hlen Hw.
  - exists (m_expectations s), (Z.of_nat k0). simpl.
    split; [by destruct s|]. split; [done|]. split; [intros k h E; done|done].
  - simpl in Hlen, Hw. inversion Hu as [|? ? Hh Hfs]; subst.
    simpl. rewrite expect_one_ok; [|done|done|done|rewrite Nat2Z.id; lia].
    simpl. rewrite Nat2Z.id.
    set (v := mat_div _ _).
    assert (Hs1 : sized nparts (set_expectations (<[k0:=v]> (m_expectations s)) s))
      by done.
    destruct fs as [|h' fs'].
    + simpl. exists (<[k0:=v]> (m_expectations s)), (wrap32 (Z.of_nat k0 + 1)).
      split; [done|]. split; [by rewrite length_insert|]. split.
      * intros [|k] h0 E; simpl in E; [|done]. inversion E; subst.
        rewrite Nat.add_0_r. apply list_lookup_insert_eq. lia.
      * intros i Hi. simpl in Hi. apply list_lookup_insert_ne. lia.
    + assert (Ew : wrap32 (Z.of_nat k0 + 1) = Z.of_nat (Datatypes.S k0)).
      { unfold wrap32. simpl length in Hw. rewrite Z.mod_small; lia. }
      rewrite Ew.
      destruct (IH _ (Datatypes.S k0) Hs1 Hn Hfs) as (es & fId' & E & Hl & Hk & Ho).
      * simpl. rewrite length_insert. simpl in Hlen. lia.
      * simpl length in *. lia.
      * exists es, fId'. split; [rewrite E; done|].
        split; [by rewrite Hl; simpl; rewrite length_insert|]. split.
        -- intros [|k] h0 E0; simpl in E0.
           ++ inversion E0; subst. rewrite Nat.add_0_r.
              rewrite Ho by lia. simpl. apply list_lookup_insert_eq. lia.
           ++ replace (k0 + Datatypes.S k)%nat with (Datatypes.S k0 + k)%nat by lia.
              by apply Hk.
        -- intros i Hi. rewrite Ho by (simpl length in *; lia).
           simpl. apply list_lookup_insert_ne. simpl length in Hi. lia.
Qed.

(** The loop over [fs] on a sized ensemble: it returns, it writes the first
    [length fs] cached expectations and nothing else, and what it writes is
    the log-domain average of each functional. *)
Lemma expectations_phase_ok fs (s : engine) :
  sized nparts s -> (0 < nparts)%nat -> Forall uniform fs ->
  (length fs <= length (m_expectations s))%nat ->
  Z.of_nat (length fs) <= 2 ^ 32 ->
  exists es,
    expectations_phase nparts fs s = Ok (set_expectations es s) /\
    length es = length (m_expectations s) /\
    (forall k h, fs !! k = Some h ->
       es !! k = Some (log_domain_average h (m_p_innerMods s) (m_p_samps s)
                         (m_logUnNormWeights s))) /\
    (forall i, (length fs <= i)%nat -> es !! i = m_expectations s !! i).
Proof.
  intros Hs Hn Hu Hlen Hw. pose proof Hs as (H1 & H2 & H3).
  unfold expectations_phase.
  rewrite max_element_ok by (intros E; rewrite E in H3; simpl in H3; lia).
  simpl.
  destruct (expect_all_ok (max_logw (m_logUnNormWeights s)) fs s 0 Hs Hn Hu)
    as (es & fId' & E & Hl & Hk & Ho); [lia|lia|].
  change (Z.of_nat 0) with 0 in E. rewrite E. simpl.
  exists es. split; [done|]. split; [done|]. split.
  - intros k h Ek. specialize (Hk k h Ek). simpl in Hk. rewrite Hk.
    unfold log_domain_average. by rewrite H3.
  - intros i Hi. apply Ho. lia.
Qed.

Lemma length_resize {A : Type} (d : A) n v : length (resize d n v) = n.
Proof.
  unfold resize. rewrite length_app, length_take, length_replicate. lia.
Qed.

(** The end of a step with a zero period: the modulo is undefined. *)
Lemma finish_zero (s : engine) done :
  m_rs s = 0 -> finish s done = Ub DivByZero.
Proof. intros H. unfold finish, resample_gate. by rewrite H. Qed.

(** The end of a step with a non-zero period: the resampler is called when
    the test holds, then the clock advances; the getters' members and the
    array sizes stay. *)
Lemma finish_ok (s : engine) done :
  m_rs s <> 0 ->
  exists s',
    finish s done =
      Ok (s', done ++ (if resampling_due s then [Resampled] else [])
                   ++ [Advanced]) /\
    m_now s' = wrap32 (m_now s + 1) /\
    m_rs s' = m_rs s /\
    m_lastLogCondLike s' = m_lastLogCondLike s /\
    m_expectations s' = m_expectations s /\
    (sized nparts s -> sized nparts s').
Proof.
  intros Hrs. unfold finish, resample_gate, resampling_due.
  rewrite (proj2 (Z.eqb_neq _ _) Hrs).
  destruct (wrap32 (m_now s + 1) mod m_rs s =? 0); simpl.
  - eexists. split; [done|]. simpl. repeat split; try done.
    all: destruct H as (H1 & H2 & H3);
      destruct (resampLogWts_size (m_resampler s) (m_p_innerMods s)
                  (m_p_samps s) (m_logUnNormWeights s)) as (E1 & E2 & E3);
      simpl; congruence.
  - eexists. split; [done|]. simpl. repeat split; try done.
    all: by destruct H as (H1 & H2 & H3).
Qed.

(** A sequence of calls under an invariant indexed by the number of calls
    made: every call returns, and its events satisfy [T] at its index. *)
Lemma run_inv (filter : osv -> list functional -> engine -> res (engine * list event))
    (I : nat -> engine -> Prop) (T : nat -> list event -> Prop) calls :
  forall k0 s,
  I k0 s ->
  (forall k c t, (k0 <= k < k0 + length calls)%nat -> c ∈ calls -> I k t ->
     exists t' tr, filter c.1 c.2 t = Ok (t', tr) /\
                   I (Datatypes.S k) t' /\ T k tr) ->
  exists s' trs,
    run filter calls s = Ok (s', trs) /\
    I (k0 + length calls)%nat s' /\
    length trs = length calls /\
    (forall j tr, trs !! j = Some tr -> T (k0 + j)%nat tr).
Proof.
  induction calls as [|c calls IH]; intros k0 s HI Hstep; simpl.
  - exists s, []. rewrite Nat.add_0_r. repeat split; try done.
  - destruct (Hstep k0 c s) as (t' & tr & E & HI' & HT);
      [simpl; lia|apply list_elem_of_here|done|].
    rewrite E. simpl.
    destruct (IH (Datatypes.S k0) t' HI') as (s' & trs & E' & HI'' & Hl & HT').
    { intros k c' t Hk Hc. apply Hstep; [simpl; lia|by apply list_elem_of_further]. }
    rewrite E'. simpl. exists s', (tr :: trs).
    split; [done|].
    split; [by replace (k0 + Datatypes.S (length calls))%nat
              with (Datatypes.S k0 + length calls)%nat by lia|].
    split; [simpl; by rewrite Hl|].
    intros [|j] tr0 Ej; simpl in Ej.
    + inversion Ej; subst. by rewrite Nat.add_0_r.
    + replace (k0 + Datatypes.S j)%nat with (Datatypes.S k0 + j)%nat by lia.
      by apply HT'.
Qed.

End Shared.

(** ** The HMM engine *)

Section HmmFacts.
Context {hmm resampT U : Type}.
Context `{!cf_filter hmm} `{!Resampler resampT hmm} `{!rbpf_virtuals U}.
Context `{!Hmm.hooks hmm}.
Variable nparts : nat.

Local Abbreviation engine := (engine hmm resampT U).

(** The later-step particle loop of the HMM engine returns and leaves every
    log-weight as it found it; its two sums are taken over those weights. *)
Lemma hmm_next_loop_ok data m2 (s : engine) m0 :
  sized nparts s ->
  exists s' upd,
    for_loop (Hmm.next_body data m2) nparts 0%nat (s, (Fin 0, m0, Fin 0)) =
      Ok (s', (sum_exp_shifted (m_logUnNormWeights s) m2,
               running_max (m_logUnNormWeights s) m0, upd)) /\
    sized nparts s' /\ same_frame s s' /\
    m_logUnNormWeights s' = m_logUnNormWeights s.
Proof.
  intros Hs. pose proof Hs as (_ & _ & H3).
  destruct (for_loop_inv (Hmm.next_body data m2)
    (fun j st =>
       sized nparts st.1 /\ same_frame s st.1 /\
       m_logUnNormWeights st.1 = m_logUnNormWeights s /\
       st.2.1.1 = sum_exp_shifted (take j (m_logUnNormWeights s)) m2 /\
       st.2.1.2 = running_max (take j (m_logUnNormWeights s)) m0)
    nparts 0%nat (s, (Fin 0, m0, Fin 0)))
    as ([s' [[sd m1] upd]] & E & Hsz & Hfr & Hws & Hsd & Hm).
  - simpl. split; [done|]. split; [apply same_frame_refl|]. done.
  - intros j [t [[sd m1] upd]] Hj (Hsz & Hfr & Hws & Hsd & Hm). simpl in *.
    destruct Hsz as (T1 & T2 & T3).
    unfold Hmm.next_body. simpl.
    destruct (load_lt (m_p_samps t) j) as (x & Hx & ->); [lia|]. simpl.
    destruct (load_lt (m_p_innerMods t) j) as (md & Hmd & ->); [lia|]. simpl.
    rewrite store_lt by lia. simpl.
    destruct (load_lt (m_logUnNormWeights t) j) as (w & Hw & ->); [lia|]. simpl.
    erewrite load_Some by (apply list_lookup_insert_eq; lia). simpl.
    rewrite store_lt by lia. simpl.
    eexists. split; [done|]. simpl.
    split; [unfold sized; simpl; by rewrite !length_insert|].
    split; [done|]. split; [done|].
    rewrite Hws in Hw. rewrite (take_S_r _ _ _ Hw).
    by rewrite sum_exp_shifted_snoc, running_max_snoc, Hsd, Hm.
  - simpl in *. rewrite take_ge in Hsd, Hm by lia. subst sd m1.
    exists s', upd. by rewrite E.
Qed.

(** The first call of [rbpf_hmm::filter], up to the resampling test. *)
Lemma hmm_assimilate_first data fs (s : engine) :
  m_now s = 0 -> sized nparts s -> (0 < nparts)%nat ->
  Forall uniform fs -> Z.of_nat (length fs) <= 2 ^ 32 ->
  exists s',
    let ws := m_logUnNormWeights s' in
    let v := dsub (logsumexp_at (running_max ws minus_infinity) ws)
                  (dlog (of_size nparts)) in
    Hmm.assimilate nparts data fs s =
      Ok (s', [Propagated; Assigned "m_lastLogCondLike" v; Averaged]) /\
    sized nparts s' /\ m_now s' = m_now s /\ m_rs s' = m_rs s /\
    m_lastLogCondLike s' = v /\
    length (m_expectations s') = length fs /\
    (forall i, (i < nparts)%nat -> exists md x,
       m_p_innerMods s' !! i = Some md /\ m_p_samps s' !! i = Some x /\
       ws !! i = Some (first_weight data md x)) /\
    (forall k h, fs !! k = Some h ->
       m_expectations s' !! k =
       Some (log_domain_average h (m_p_innerMods s') (m_p_samps s') ws)).
Proof.
  intros Hnow Hs Hn Hu Hfs.
  destruct (first_loop_ok nparts Hmm.init_inner data s minus_infinity Hs)
    as (s1 & m & E & Hs1 & Hfr & Hw & Hm).
  pose proof Hs1 as (_ & _ & H3).
  unfold Hmm.assimilate. rewrite Hnow. change (0 =? 0) with true. cbv iota.
  rewrite E. cbn [rbind fst snd].
  rewrite (sum_exp_ok nparts _ m H3). cbn [rbind fst snd].
  set (v := dsub (dadd m (dlog (sum_exp_shifted (m_logUnNormWeights s1) m)))
                 (dlog (of_size nparts))).
  set (s3 := set_expectations _ (set_lastLogCondLike v s1)).
  destruct (expectations_phase_ok nparts fs s3) as (es & Ee & Hl & Hk & _);
    [done|done|done|by simpl; rewrite length_resize|done|].
  rewrite Ee. cbn [rbind fst snd].
  exists (set_expectations es s3). cbv zeta.
  assert (Ev : dsub (logsumexp_at
                       (running_max (m_logUnNormWeights (set_expectations es s3))
                          minus_infinity)
                       (m_logUnNormWeights (set_expectations es s3)))
                    (dlog (of_size nparts)) = v)
    by (unfold v, logsumexp_at; simpl; by rewrite <- Hm).
  rewrite Ev.
  destruct Hfr as (F1 & F2 & F3 & F4 & F5).
  split; [done|]. split; [done|].
  split; [simpl; congruence|]. split; [simpl; congruence|]. split; [done|].
  split; [simpl; rewrite Hl; simpl; by rewrite length_resize|].
  split; [done|]. done.
Qed.

(** A later call of [rbpf_hmm::filter], up to the resampling test. *)
Lemma hmm_assimilate_next data fs (s : engine) :
  m_now s <> 0 -> sized nparts s -> (0 < nparts)%nat ->
  Forall uniform fs -> Z.of_nat (length fs) <= 2 ^ 32 ->
  (length fs <= length (m_expectations s))%nat ->
  exists s',
    let ws := m_logUnNormWeights s in
    let v := dsub (dsub (logsumexp_at (running_max ws minus_infinity) ws)
                        (max_logw ws))
                  (dlog (sum_exp_shifted ws (max_logw ws))) in
    Hmm.assimilate nparts data fs s =
      Ok (s', [Propagated; Assigned "m_lastLogCondLike" v; Averaged]) /\
    sized nparts s' /\ m_now s' = m_now s /\ m_rs s' = m_rs s /\
    m_lastLogCondLike s' = v /\
    length (m_expectations s') = length (m_expectations s) /\
    m_logUnNormWeights s' = ws /\
    (forall k h, fs !! k = Some h ->
       m_expectations s' !! k =
       Some (log_domain_average h (m_p_innerMods s') (m_p_samps s') ws)).
Proof.
  intros Hnow Hs Hn Hu Hfs Hlen. pose proof Hs as (_ & _ & H3).
  unfold Hmm.assimilate. rewrite (proj2 (Z.eqb_neq _ _) Hnow).
  rewrite max_element_ok by (intros E; rewrite E in H3; simpl in H3; lia).
  simpl.
  destruct (hmm_next_loop_ok data (max_logw (m_logUnNormWeights s)) s
              minus_infinity Hs) as (s1 & upd & E & Hs1 & Hfr & Hws).
  rewrite E. simpl. pose proof Hs1 as (_ & _ & H3').
  rewrite (sum_exp_ok nparts _ _ H3'). simpl. rewrite Hws.
  set (v := dsub (dsub _ _) _).
  destruct Hfr as (F1 & F2 & F3 & F4 & F5).
  destruct (expectations_phase_ok nparts fs (set_lastLogCondLike v s1))
    as (es & Ee & Hl & Hk & _);
    [done|done|done|by simpl; rewrite F5|done|].
  rewrite Ee. simpl.
  exists (set_expectations es (set_lastLogCondLike v s1)). simpl.
  split; [done|]. split; [done|].
  split; [done|]. split; [done|]. split; [done|].
  split; [by rewrite Hl; simpl; rewrite F5|].
  split; [done|]. intros k h Ek. rewrite (Hk k h Ek). simpl. by rewrite Hws.
Qed.

Lemma hmm_assimilates :
  assimilates nparts (Hmm.assimilate (resampT := resampT) (U := U) nparts).
Proof.
  intros data fs s (Hs & Hn & Hu & Hfs & Hlen).
  destruct (decide (m_now s = 0)) as [E0|Hne].
  - destruct (hmm_assimilate_first data fs s E0 Hs Hn Hu Hfs)
      as (s' & E & A & B & C & _ & D & _ & F).
    do 2 eexists. split; [exact E|]. split; [done|]. split; [done|].
    split; [done|]. split; [done|]. split; [by rewrite E0|]. done.
  - destruct (hmm_assimilate_next data fs s Hne Hs Hn Hu Hfs (Hlen Hne))
      as (s' & E & A & B & C & _ & D & Hws & F).
    do 2 eexists. split; [exact E|]. split; [done|]. split; [done|].
    split; [done|]. split; [done|].
    split; [by rewrite (proj2 (Z.eqb_neq _ _) Hne)|].
    intros k h Ek. rewrite (F k h Ek). by rewrite Hws.
Qed.

End HmmFacts.

(** ** The Kalman engine *)

Section KalmanFacts.
Context {kalman resampT U : Type}.
Context `{!cf_filter kalman} `{!Resampler resampT kalman}.
Context `{!rbpf_virtuals U} `{!Kalman.hooks kalman}.
Variable nparts : nat.

Local Abbreviation engine := (engine kalman resampT U).

(** The later-step particle loop of the Kalman engine returns; every weight
    becomes the product weight of its particle, [sumexpdenom] is taken over
    the old weights and [m1] over the new ones. *)
Lemma kalman_next_loop_ok data m2 (s : engine) m0 :
  sized nparts s ->
  exists s',
    for_loop (Kalman.next_body data m2) nparts 0%nat (s, (Fin 0, m0)) =
      Ok (s', (sum_exp_shifted (m_logUnNormWeights s) m2,
               running_max (m_logUnNormWeights s') m0)) /\
    sized nparts s' /\ same_frame s s' /\
    (forall i, (i < nparts)%nat -> exists w x_old md x,
       m_logUnNormWeights s !! i = Some w /\
       m_p_samps s !! i = Some x_old /\
       m_p_innerMods s' !! i = Some md /\
       m_p_samps s' !! i = Some x /\
       m_logUnNormWeights s' !! i = Some (product_weight data w md x x_old)).
Proof.
  intros Hs. pose proof Hs as (_ & _ & H3).
  destruct (for_loop_inv (Kalman.next_body data m2)
    (fun j st =>
       sized nparts st.1 /\ same_frame s st.1 /\
       (forall i, (i < j)%nat -> exists w x_old md x,
          m_logUnNormWeights s !! i = Some w /\
          m_p_samps s !! i = Some x_old /\
          m_p_innerMods st.1 !! i = Some md /\
          m_p_samps st.1 !! i = Some x /\
          m_logUnNormWeights st.1 !! i = Some (product_weight data w md x x_old)) /\
       (forall i, (j <= i)%nat ->
          m_logUnNormWeights st.1 !! i = m_logUnNormWeights s !! i /\
          m_p_samps st.1 !! i = m_p_samps s !! i) /\
       st.2.1 = sum_exp_shifted (take j (m_logUnNormWeights s)) m2 /\
       st.2.2 = running_max (take j (m_logUnNormWeights st.1)) m0)
    nparts 0%nat (s, (Fin 0, m0)))
    as ([s' [sd m1]] & E & Hsz & Hfr & Hdone & _ & Hsd & Hm).
  - simpl. split; [done|]. split; [apply same_frame_refl|].
    split; [intros i Hi; lia|]. done.
  - intros j [t [sd m1]] Hj (Hsz & Hfr & Hdone & Hrest & Hsd & Hm).
    simpl in *. destruct Hsz as (T1 & T2 & T3).
    destruct (Hrest j) as (Rw & Rx); [lia|].
    unfold Kalman.next_body. simpl.
    destruct (load_lt (m_p_samps t) j) as (x & Hx & ->); [lia|]. simpl.
    destruct (load_lt (m_p_innerMods t) j) as (md & Hmd & ->); [lia|]. simpl.
    rewrite store_lt by lia. simpl.
    destruct (load_lt (m_logUnNormWeights t) j) as (w & Hw & ->); [lia|]. simpl.
    erewrite load_Some by (apply list_lookup_insert_eq; lia). simpl.
    rewrite store_lt by lia. simpl.
    erewrite load_Some by (apply list_lookup_insert_eq; lia). simpl.
    rewrite store_lt by lia. simpl.
    eexists. split; [done|]. simpl.
    split; [unfold sized; simpl; by rewrite !length_insert|].
    split; [done|]. split; [|split; [|split]].
    + intros i Hi. destruct (decide (i = j)) as [->|Hne].
      * exists w, x. do 2 eexists. rewrite !list_lookup_insert_eq by lia.
        split; [congruence|]. split; [congruence|]. done.
      * destruct (Hdone i) as (w0 & x0 & md0 & x1 & A & B & C & D & F); [lia|].
        exists w0, x0, md0, x1. rewrite !list_lookup_insert_ne by done. done.
    + intros i Hi. rewrite !list_lookup_insert_ne by lia. apply Hrest. lia.
    + rewrite Rw in Hw. by rewrite (take_S_r _ _ _ Hw), sum_exp_shifted_snoc, Hsd.
    + erewrite take_S_r by (apply list_lookup_insert_eq; lia).
      rewrite running_max_snoc, take_insert_ge by lia. by rewrite <- Hm.
  - simpl in *. pose proof Hsz as (_ & _ & H3').
    rewrite take_ge in Hsd, Hm by lia. subst sd m1.
    exists s'. by rewrite E.
Qed.

(** The first call of [rbpf_kalman::filter], up to the resampling test. *)
Lemma kalman_assimilate_first data fs (s : engine) :
  m_now s = 0 -> sized nparts s -> (0 < nparts)%nat ->
  Forall uniform fs -> Z.of_nat (length fs) <= 2 ^ 32 ->
  exists s',
    let ws := m_logUnNormWeights s' in
    let v := dsub (logsumexp_at (running_max ws minus_infinity) ws)
                  (dlog (of_size nparts)) in
    Kalman.assimilate nparts data fs s =
      Ok (s', [Propagated; Assigned "m_logLastCondLike" v; Averaged]) /\
    sized nparts s' /\ m_now s' = m_now s /\ m_rs s' = m_rs s /\
    m_lastLogCondLike s' = m_lastLogCondLike s /\
    length (m_expectations s') = length fs /\
    (forall i, (i < nparts)%nat -> exists md x,
       m_p_innerMods s' !! i = Some md /\ m_p_samps s' !! i = Some x /\
       ws !! i = Some (first_weight data md x)) /\
    (forall k h, fs !! k = Some h ->
       m_expectations s' !! k =
       Some (log_domain_average h (m_p_innerMods s') (m_p_samps s') ws)).
Proof.
  intros Hnow Hs Hn Hu Hfs.
  destruct (first_loop_ok nparts Kalman.init_inner data s minus_infinity Hs)
    as (s1 & m & E & Hs1 & Hfr & Hw & Hm).
  pose proof Hs1 as (_ & _ & H3).
  unfold Kalman.assimilate. rewrite Hnow. change (0 =? 0) with true. cbv iota.
  rewrite E. cbn [rbind fst snd].
  rewrite (sum_exp_ok nparts _ m H3). cbn [rbind fst snd].
  set (v := dsub (dadd m (dlog (sum_exp_shifted (m_logUnNormWeights s1) m)))
                 (dlog (of_size nparts))).
  set (s3 := set_expectations _ s1).
  destruct (expectations_phase_ok nparts fs s3) as (es & Ee & Hl & Hk & _);
    [done|done|done|by simpl; rewrite length_resize|done|].
  rewrite Ee. cbn [rbind fst snd].
  exists (set_expectations es s3). cbv zeta.
  assert (Ev : dsub (logsumexp_at
                       (running_max (m_logUnNormWeights (set_expectations es s3))
                          minus_infinity)
                       (m_logUnNormWeights (set_expectations es s3)))
                    (dlog (of_size nparts)) = v)
    by (unfold v, logsumexp_at; simpl; by rewrite <- Hm).
  rewrite Ev.
  destruct Hfr as (F1 & F2 & F3 & F4 & F5).
  split; [done|]. split; [done|].
  split; [simpl; congruence|]. split; [simpl; congruence|].
  split; [simpl; congruence|].
  split; [simpl; rewrite Hl; simpl; by rewrite length_resize|].
  split; [done|]. done.
Qed.

(** A later call of [rbpf_kalman::filter], up to the resampling test. *)
Lemma kalman_assimilate_next data fs (s : engine) :
  m_now s <> 0 -> sized nparts s -> (0 < nparts)%nat ->
  Forall uniform fs -> Z.of_nat (length fs) <= 2 ^ 32 ->
  (length fs <= length (m_expectations s))%nat ->
  exists s',
    let ws := m_logUnNormWeights s in
    let ws' := m_logUnNormWeights s' in
    let v := dsub (dsub (logsumexp_at (running_max ws' minus_infinity) ws')
                        (max_logw ws))
                  (dlog (sum_exp_shifted ws (max_logw ws))) in
    Kalman.assimilate nparts data fs s =
      Ok (s', [Propagated; Assigned "m_lastCondLike" v; Averaged]) /\
    sized nparts s' /\ m_now s' = m_now s /\ m_rs s' = m_rs s /\
    m_lastLogCondLike s' = m_lastLogCondLike s /\
    length (m_expectations s') = length (m_expectations s) /\
    (forall i, (i < nparts)%nat -> exists w x_old md x,
       ws !! i = Some w /\ m_p_samps s !! i = Some x_old /\
       m_p_innerMods s' !! i = Some md /\ m_p_samps s' !! i = Some x /\
       ws' !! i = Some (product_weight data w md x x_old)) /\
    (forall k h, fs !! k = Some h ->
       m_expectations s' !! k =
       Some (log_domain_average h (m_p_innerMods s') (m_p_samps s') ws')).
Proof.
  intros Hnow Hs Hn Hu Hfs Hlen. pose proof Hs as (_ & _ & H3).
  unfold Kalman.assimilate. rewrite (proj2 (Z.eqb_neq _ _) Hnow).
  rewrite max_element_ok by (intros E; rewrite E in H3; simpl in H3; lia).
  cbn [rbind fst snd].
  destruct (kalman_next_loop_ok data (max_logw (m_logUnNormWeights s)) s
              minus_infinity Hs) as (s1 & E & Hs1 & Hfr & Hw).
  rewrite E. cbn [rbind fst snd]. pose proof Hs1 as (_ & _ & H3').
  rewrite (sum_exp_ok nparts _ _ H3'). cbn [rbind fst snd].
  destruct Hfr as (F1 & F2 & F3 & F4 & F5).
  destruct (expectations_phase_ok nparts fs s1)
    as (es & Ee & Hl & Hk & _);
    [done|done|done|by rewrite F5|done|].
  rewrite Ee. cbn [rbind fst snd].
  exists (set_expectations es s1). cbv zeta.
  split; [done|]. split; [done|].
  split; [done|]. split; [done|]. split; [done|].
  split; [simpl; by rewrite Hl, F5|].
  split; [done|]. done.
Qed.

Lemma kalman_assimilates :
  assimilates nparts (Kalman.assimilate (resampT := resampT) (U := U) nparts).
Proof.
  intros data fs s (Hs & Hn & Hu & Hfs & Hlen).
  destruct (decide (m_now s = 0)) as [E0|Hne].
  - destruct (kalman_assimilate_first data fs s E0 Hs Hn Hu Hfs)
      as (s' & E & A & B & C & _ & D & _ & F).
    do 2 eexists. split; [exact E|]. split; [done|]. split; [done|].
    split; [done|]. split; [done|]. split; [by rewrite E0|]. done.
  - destruct (kalman_assimilate_next data fs s Hne Hs Hn Hu Hfs (Hlen Hne))
      as (s' & E & A & B & C & _ & D & _ & F).
    do 2 eexists. split; [exact E|]. split; [done|]. split; [done|].
    split; [done|]. split; [done|].
    split; [by rewrite (proj2 (Z.eqb_neq _ _) Hne)|]. done.
Qed.

End KalmanFacts.

(** ** Whole calls and sequences of calls *)

Section Calls.
Context {Mod resampT U : Type}.
Context `{!cf_filter Mod} `{!Resampler resampT Mod} `{!rbpf_virtuals U}.
Variable nparts : nat.

Local Abbreviation engine := (engine Mod resampT U).

Variable assimilate :
  osv -> list functional -> engine -> res (engine * list event).
Hypothesis assimilate_ok : assimilates nparts assimilate.

Lemma wrap32_succ z : wrap32 (wrap32 z + 1) = wrap32 (z + 1).
Proof. unfold wrap32. by rewrite Z.add_mod_idemp_l by lia. Qed.

Lemma wrap32_small z : 0 <= z < 2 ^ 32 -> wrap32 z = z.
Proof. intros H. unfold wrap32. by apply Z.mod_small. Qed.

(** A call on a callable engine with a non-zero period returns; its stages
    are those of [stages], and what the getters return afterwards is what
    the first part of the call left. *)
Lemma filter_from_ok data fs (s : engine) :
  callable nparts fs s -> m_rs s <> 0 ->
  exists s_pre tr_pre s' tr,
    assimilate data fs s = Ok (s_pre, tr_pre) /\
    filter_from assimilate data fs s = Ok (s', tr) /\
    phase_of <$> tr = stages (resampling_due s) /\
    m_now s' = wrap32 (m_now s + 1) /\ m_rs s' = m_rs s /\
    sized nparts s' /\
    m_lastLogCondLike s' = m_lastLogCondLike s_pre /\
    m_expectations s' = m_expectations s_pre /\
    length (m_expectations s') =
      (if m_now s =? 0 then length fs else length (m_expectations s)) /\
    (forall k h, fs !! k = Some h ->
       m_expectations s' !! k =
       Some (log_domain_average h (m_p_innerMods s_pre) (m_p_samps s_pre)
               (m_logUnNormWeights s_pre))) /\
    sized nparts s_pre.
Proof.
  intros Hc Hrs.
  destruct (assimilate_ok data fs s Hc) as (s1 & tr1 & E & Hph & Hs1 & Hn & Hr & Hl & Hk).
  destruct (finish_ok nparts s1 tr1) as (s' & Ef & F1 & F2 & F3 & F4 & F5);
    [congruence|].
  exists s1, tr1, s'. eexists.
  split; [done|]. unfold filter_from. rewrite E. cbn [rbind fst snd].
  split; [exact Ef|].
  split.
  { rewrite !fmap_app, Hph. unfold stages, resampling_due. rewrite Hn, Hr.
    by destruct (wrap32 (m_now s + 1) mod m_rs s =? 0). }
  split; [congruence|]. split; [congruence|]. split; [auto|].
  split; [done|]. split; [done|]. split; [congruence|].
  split; [|done]. intros k h Ek. rewrite F4. by apply Hk.
Qed.

(** With a zero period the same call ends in the modulo by zero. *)
Lemma filter_from_zero data fs (s : engine) :
  callable nparts fs s -> m_rs s = 0 ->
  filter_from assimilate data fs s = Ub DivByZero.
Proof.
  intros Hc Hrs.
  destruct (assimilate_ok data fs s Hc) as (s1 & tr1 & E & _ & _ & _ & Hr & _).
  unfold filter_from. rewrite E. cbn [rbind fst snd].
  apply finish_zero. congruence.
Qed.

(** Calls whose functional lists all have [L] elements, from an engine at
    time zero: every call returns, and the call of index [k] goes through
    the stages of a step whose advanced counter is [k + 1]. *)
Lemma run_from_stages (R : Z) (L : nat) calls (s0 : engine) :
  sized nparts s0 -> (0 < nparts)%nat -> m_now s0 = 0 -> m_rs s0 = R ->
  R <> 0 -> Z.of_nat L <= 2 ^ 32 ->
  (forall c, c ∈ calls -> length c.2 = L /\ Forall uniform c.2) ->
  exists s' trs,
    run (filter_from assimilate) calls s0 = Ok (s', trs) /\
    length trs = length calls /\
    (calls <> [] -> length (m_expectations s') = L) /\
    (forall k tr, trs !! k = Some tr ->
       phase_of <$> tr = stages (wrap32 (Z.of_nat k + 1) mod R =? 0)).
Proof.
  intros Hs Hn Hnow Hrs HR HL Hcalls.
  destruct (run_inv (filter_from assimilate)
    (fun k s => sized nparts s /\ m_rs s = R /\
                m_now s = wrap32 (Z.of_nat k) /\
                (k <> 0%nat -> length (m_expectations s) = L))
    (fun k tr => phase_of <$> tr = stages (wrap32 (Z.of_nat k + 1) mod R =? 0))
    calls 0%nat s0) as (s' & trs & E & (_ & _ & _ & HE) & Hl & HT).
  - split; [done|]. split; [done|]. split; [by rewrite Hnow|]. done.
  - intros k c t _ Hc (Ts & Tr & Tn & Te).
    destruct (Hcalls c Hc) as (HcL & Hcu).
    assert (Hk0 : m_now t <> 0 -> k <> 0%nat).
    { intros Hne ->. apply Hne. by rewrite Tn. }
    destruct (filter_from_ok c.1 c.2 t)
      as (s1 & tr1 & t' & tr & _ & Ef & Hph & F1 & F2 & F3 & _ & _ & F6 & _).
    { split; [done|]. split; [done|]. split; [done|]. split; [lia|].
      intros Hne. rewrite (Te (Hk0 Hne)). lia. }
    { congruence. }
    exists t', tr. split; [done|]. split.
    + split; [done|]. split; [congruence|]. split.
      * rewrite F1, Tn, wrap32_succ. f_equal. lia.
      * intros _. rewrite F6. destruct (m_now t =? 0) eqn:E0; [done|].
        apply Te, Hk0. by apply Z.eqb_neq.
    + rewrite Hph. unfold resampling_due. by rewrite Tn, Tr, wrap32_succ.
  - exists s', trs. split; [done|]. split; [done|]. split.
    + intros Hne. apply HE. destruct calls; [done|]. simpl. lia.
    + intros k tr Ek. by apply (HT k tr Ek).
Qed.

End Calls.

(** ** The getter of the HMM engine *)

Section HmmGetter.
Context {hmm resampT U : Type}.
Context `{!cf_filter hmm} `{!Resampler resampT hmm} `{!rbpf_virtuals U}.
Context `{!Hmm.hooks hmm}.
Variable nparts : nat.

(** After a call of [rbpf_hmm::filter], [getLogCondLike] returns the
    log-sum-exp of the weights that the call leaves before it resamples,
    minus [log N] on the first call and minus the log-sum-exp of the weights
    that the call found on a later one. *)
Lemma hmm_getter_after_call data fs (s : engine hmm resampT U) :
  callable nparts fs s -> m_rs s <> 0 ->
  exists s_pre tr_pre s' tr,
    Hmm.assimilate nparts data fs s = Ok (s_pre, tr_pre) /\
    Hmm.filter nparts data fs s = Ok (s', tr) /\
    getLogCondLike s' =
      dsub (logsumexp (m_logUnNormWeights s_pre))
           (if m_now s =? 0 then dlog (of_size nparts)
            else logsumexp (m_logUnNormWeights s)).
Proof.
  intros (Hs & Hn & Hu & Hfs & Hlen) Hrs. unfold Hmm.filter.
  destruct (decide (m_now s = 0)) as [E0|Hne].
  - destruct (hmm_assimilate_first nparts data fs s E0 Hs Hn Hu Hfs)
      as (s1 & E & _ & _ & Hr & Hg & _).
    rewrite E. cbn [rbind fst snd].
    match goal with |- context [finish s1 ?d] =>
      destruct (finish_ok nparts s1 d) as (s' & Ef & _ & _ & F3 & _);
        [congruence|]
    end.
    do 4 eexists. split; [done|]. split; [exact Ef|].
    unfold getLogCondLike. rewrite F3, Hg, E0, logsumexp_at_running_max. done.
  - destruct (hmm_assimilate_next nparts data fs s Hne Hs Hn Hu Hfs (Hlen Hne))
      as (s1 & E & _ & _ & Hr & Hg & _ & Hws & _).
    rewrite E. cbn [rbind fst snd].
    match goal with |- context [finish s1 ?d] =>
      destruct (finish_ok nparts s1 d) as (s' & Ef & _ & _ & F3 & _);
        [congruence|]
    end.
    do 4 eexists. split; [done|]. split; [exact Ef|].
    unfold getLogCondLike.
    rewrite F3, Hg, (proj2 (Z.eqb_neq _ _) Hne), Hws. apply increment_value.
Qed.

End HmmGetter.

(** ** The getter of the Kalman engine *)

Section KalmanGetter.
Context {kalman resampT U : Type}.
Context `{!cf_filter kalman} `{!Resampler resampT kalman}.
Context `{!rbpf_virtuals U} `{!Kalman.hooks kalman}.
Variable nparts : nat.

(** No call of [rbpf_kalman::filter] changes what [getLogCondLike]
    returns. *)
Lemma kalman_getter_is_stale data fs (s : engine kalman resampT U) :
  callable nparts fs s -> m_rs s <> 0 ->
  exists s' tr,
    Kalman.filter nparts data fs s = Ok (s', tr) /\
    getLogCondLike s' = getLogCondLike s.
Proof.
  intros (Hs & Hn & Hu & Hfs & Hlen) Hrs. unfold Kalman.filter.
  destruct (decide (m_now s = 0)) as [E0|Hne].
  - destruct (kalman_assimilate_first nparts data fs s E0 Hs Hn Hu Hfs)
      as (s1 & E & _ & _ & Hr & Hg & _).
    rewrite E. cbn [rbind fst snd].
    destruct (finish_ok nparts s1 [Propagated;
                Assigned "m_logLastCondLike"
                  (dsub (logsumexp_at
                           (running_max (m_logUnNormWeights s1) minus_infinity)
                           (m_logUnNormWeights s1))
                        (dlog (of_size nparts)));
                Averaged])
      as (s' & Ef & _ & _ & F3 & _); [congruence|].
    do 2 eexists. split; [exact Ef|]. unfold getLogCondLike. congruence.
  - destruct (kalman_assimilate_next nparts data fs s Hne Hs Hn Hu Hfs (Hlen Hne))
      as (s1 & E & _ & _ & Hr & Hg & _).
    rewrite E. cbn [rbind fst snd].
    match goal with |- context [finish s1 ?d] =>
      destruct (finish_ok nparts s1 d) as (s' & Ef & _ & _ & F3 & _);
        [congruence|]
    end.
    do 2 eexists. split; [exact Ef|]. unfold getLogCondLike. congruence.
Qed.

End KalmanGetter.

(** ** The log-domain average and the weighted average *)

Section Averages.
Context {Mod : Type} `{!cf_filter Mod}.
Variables (h : functional) (mods : list Mod) (samps : list sssv).
Variables (ws : list dbl) (m : dbl).
Hypothesis h_uniform : uniform h.

(** The term of particle [i], coefficient by coefficient. *)
Lemma log_domain_term_eq i :
  log_domain_term h mods samps ws m i =
  (fun x => dexp (dadd (dlog x) (dsub (default NaN (ws !! i)) m)))
    <$> h_at h mods samps i.
Proof.
  unfold log_domain_term, mat_exp, mat_log, mat_scale, Ones.
  rewrite fmap_replicate, zip_with_replicate_r.
  2:{ rewrite length_fmap, (length_h_at h mods samps i h_uniform). lia. }
  rewrite <- !list_fmap_compose. apply list_fmap_ext. intros k x _. simpl.
  by rewrite dmul_one_r.
Qed.

(** On coefficients that are not negative the term is the weighted value. *)
Lemma log_domain_term_nonneg i :
  Forall nonneg (h_at h mods samps i) ->
  log_domain_term h mods samps ws m i =
  mat_scale (shifted_weight ws m i) (h_at h mods samps i).
Proof.
  intros Hnn. rewrite log_domain_term_eq. unfold mat_scale, shifted_weight.
  apply list_fmap_ext. intros k x Ek.
  apply dexp_dlog_add. by apply (proj1 (Forall_lookup _ _) Hnn k).
Qed.

Lemma log_numer_upto_nonneg n :
  (forall i, (i < n)%nat -> Forall nonneg (h_at h mods samps i)) ->
  log_numer_upto h mods samps ws m n = numer_upto h mods samps ws m n.
Proof.
  induction n as [|n IH]; intros Hnn; [done|].
  rewrite log_numer_upto_S, numer_upto_S, IH by (intros; apply Hnn; lia).
  by rewrite log_domain_term_nonneg by (apply Hnn; lia).
Qed.

(** A negative coefficient makes the term NaN at its place. *)
Lemma log_domain_term_negative i j r :
  h_at h mods samps i !! j = Some (Fin r) -> (r < 0)%R ->
  log_domain_term h mods samps ws m i !! j = Some NaN.
Proof.
  intros Ej Hr. rewrite log_domain_term_eq, list_lookup_fmap, Ej. simpl.
  by rewrite Rsgn_neg.
Qed.

Lemma lookup_zip_dadd_nan_l (a b : Mat) j :
  a !! j = Some NaN -> (j < length b)%nat -> zip_with dadd a b !! j = Some NaN.
Proof.
  intros Ea Hb. destruct (lookup_lt_is_Some_2 b j Hb) as [y Ey].
  by rewrite lookup_zip_with, Ea, Ey.
Qed.

Lemma lookup_zip_dadd_nan_r (a b : Mat) j :
  b !! j = Some NaN -> (j < length a)%nat -> zip_with dadd a b !! j = Some NaN.
Proof.
  intros Eb Ha. destruct (lookup_lt_is_Some_2 a j Ha) as [x Ex].
  rewrite lookup_zip_with, Ex, Eb. simpl. by rewrite dadd_nan_r.
Qed.

(** NaN stays in the running sum. *)
Lemma log_numer_upto_negative n i j r :
  (i < n)%nat -> h_at h mods samps i !! j = Some (Fin r) -> (r < 0)%R ->
  log_numer_upto h mods samps ws m n !! j = Some NaN.
Proof.
  intros Hi Ej Hr.
  assert (Hj : (j < length (h_at h mods samps 0))%nat).
  { rewrite <- (length_h_at h mods samps i h_uniform).
    apply lookup_lt_is_Some. by eexists. }
  induction n as [|n IH]; [lia|].
  rewrite log_numer_upto_S. destruct (decide (i = n)) as [->|Hne].
  - apply lookup_zip_dadd_nan_r.
    + by eapply log_domain_term_negative.
    + by rewrite length_log_numer_upto.
  - apply lookup_zip_dadd_nan_l.
    + apply IH. lia.
    + by rewrite length_log_domain_term.
Qed.

End Averages.

Section AveragesWhole.
Context {Mod : Type} `{!cf_filter Mod}.
Variables (h : functional) (mods : list Mod) (samps : list sssv).
Variables (ws : list dbl).
Hypothesis h_uniform : uniform h.

(** When no coefficient of the functional is negative, the log-domain
    average is the weighted average of the specification. *)
Lemma log_domain_average_nonneg :
  (forall i, (i < length ws)%nat -> Forall nonneg (h_at h mods samps i)) ->
  log_domain_average h mods samps ws = weighted_average h mods samps ws.
Proof.
  intros Hnn. unfold log_domain_average, weighted_average.
  by rewrite log_numer_upto_nonneg.
Qed.

(** A negative coefficient at some particle makes the log-domain average NaN
    at that place, whatever the weights. *)
Lemma log_domain_average_negative i j r :
  (i < length ws)%nat -> h_at h mods samps i !! j = Some (Fin r) ->
  (r < 0)%R ->
  log_domain_average h mods samps ws !! j = Some NaN.
Proof.
  intros Hi Ej Hr. unfold log_domain_average, mat_div.
  by rewrite list_lookup_fmap,
    (log_numer_upto_negative h mods samps ws _ h_uniform _ i j r Hi Ej Hr).
Qed.

End AveragesWhole.

(** ** Finite data give a finite weighted average *)

Lemma max_logw_finite ws : Forall finite ws -> ws <> [] -> finite (max_logw ws).
Proof.
  destruct ws as [|x t]; [done|]. intros Hf _. simpl.
  inversion Hf as [|? ? Hx Ht]; subst. clear Hf.
  revert x Hx. induction Ht as [|y t Hy Ht IH]; intros x Hx; simpl; [done|].
  apply IH. by destruct (dlt x y).
Qed.

Section FiniteAverage.
Context {Mod : Type} `{!cf_filter Mod}.
Variables (h : functional) (mods : list Mod) (samps : list sssv).
Variables (ws : list dbl) (m : dbl).
Hypothesis ws_finite : Forall finite ws.
Hypothesis m_finite : finite m.

Lemma shifted_weight_pos i :
  (i < length ws)%nat ->
  exists r, shifted_weight ws m i = Fin r /\ (0 < r)%R.
Proof.
  intros Hi. destruct (lookup_lt_is_Some_2 ws i Hi) as [w Ew].
  pose proof (proj1 (Forall_lookup _ _) ws_finite i w Ew) as Hw.
  unfold shifted_weight. rewrite Ew. simpl.
  destruct w as [| | |a]; try done. destruct m as [| | |b]; try done.
  simpl. eexists. split; [done|apply exp_pos].
Qed.

Lemma denom_upto_pos n :
  (n <= length ws)%nat ->
  exists r, denom_upto ws m n = Fin r /\ (0 <= r)%R /\ ((0 < n)%nat -> (0 < r)%R).
Proof.
  induction n as [|n IH]; intros Hn.
  - exists 0%R. split; [done|]. split; [lra|lia].
  - destruct IH as (r & Er & Hr & _); [lia|].
    destruct (shifted_weight_pos n) as (q & Eq & Hq); [lia|].
    rewrite denom_upto_S, Er, Eq. simpl. eexists. split; [done|].
    split; [lra|]. intros _. lra.
Qed.

Lemma numer_upto_finite n :
  (n <= length ws)%nat ->
  (forall i, (i < n)%nat -> Forall finite (h_at h mods samps i)) ->
  Forall finite (numer_upto h mods samps ws m n).
Proof.
  induction n as [|n IH]; intros Hn Hf.
  - unfold numer_upto, Zero. simpl. by apply Forall_replicate.
  - rewrite numer_upto_S.
    apply Forall_zip_with_fst with (P := finite); [apply IH; [lia|]|].
    + intros i Hi. apply Hf. lia.
    + destruct (shifted_weight_pos n) as (q & Eq & Hq); [lia|].
      rewrite Eq. unfold mat_scale. apply Forall_fmap.
      eapply Forall_impl; [apply (Hf n); lia|].
      intros y Hy x Hx. by destruct x, y.
Qed.

End FiniteAverage.

Section FiniteAverageWhole.
Context {Mod : Type} `{!cf_filter Mod}.
Variables (h : functional) (mods : list Mod) (samps : list sssv).
Variables (ws : list dbl).

(** With finite log-weights and finite coefficients, every coefficient of
    the weighted average is finite. *)
Lemma weighted_average_finite :
  ws <> [] -> Forall finite ws ->
  (forall i, (i < length ws)%nat -> Forall finite (h_at h mods samps i)) ->
  Forall finite (weighted_average h mods samps ws).
Proof.
  intros Hne Hws Hh. unfold weighted_average, mat_div.
  pose proof (max_logw_finite ws Hws Hne) as Hm.
  destruct (denom_upto_pos ws (max_logw ws) Hws Hm (length ws))
    as (r & Er & _ & Hr); [lia|].
  rewrite Er. apply Forall_fmap.
  eapply Forall_impl;
    [apply (numer_upto_finite h mods samps ws (max_logw ws) Hws Hm); [lia|done]|].
  intros x Hx. simpl. destruct x as [| | |a]; try done. simpl.
  destruct (Req_dec_T r 0) as [E|_]; [|done].
  assert (0 < r)%R by (apply Hr; destruct ws; [done|simpl; lia]). lra.
Qed.

(** On finite data the two averages agree exactly when no coefficient of
    the functional is negative. *)
Lemma averages_agree_iff_nonneg :
  uniform h -> ws <> [] -> Forall finite ws ->
  (forall i, (i < length ws)%nat -> Forall finite (h_at h mods samps i)) ->
  log_domain_average h mods samps ws = weighted_average h mods samps ws <->
  (forall i, (i < length ws)%nat -> Forall nonneg (h_at h mods samps i)).
Proof.
  intros Hu Hne Hws Hh. split.
  - intros Heq i Hi. apply Forall_lookup. intros j x Ej.
    pose proof (proj1 (Forall_lookup _ _) (Hh i Hi) j x Ej) as Hx.
    destruct x as [| | |r]; try done. simpl.
    destruct (Rle_dec 0 r) as [|Hneg]; [done|]. exfalso.
    assert (Hr : (r < 0)%R) by lra.
    pose proof (log_domain_average_negative h mods samps ws Hu i j r Hi Ej Hr)
      as Hnan.
    rewrite Heq in Hnan.
    by apply (proj1 (Forall_lookup _ _)
                (weighted_average_finite Hne Hws Hh) j NaN Hnan).
  - intros Hnn. by apply log_domain_average_nonneg.
Qed.

End FiniteAverageWhole.

(** ** What a returning call says about the engine *)

(** Peels the binds of a computation that is known to return. *)
Ltac bind_inv H :=
  repeat match type of H with
    | rbind ?c _ = Ok _ =>
        let E := fresh "E" in
        destruct c eqn:E; cbn [rbind] in H; [|discriminate H]
    end.

Lemma for_loop_pres {S : Type} (body : nat -> S -> res S) (P : S -> Prop) n :
  (forall j a b, P a -> body j a = Ok b -> P b) ->
  forall i s t, P s -> for_loop body n i s = Ok t -> P t.
Proof.
  intros Hb. induction n as [|n IH]; intros i s t HP E; simpl in E.
  - by inversion E; subst.
  - bind_inv E. eapply IH; [|exact E]. by eapply Hb.
Qed.

Lemma for_each_pres {A S : Type} (body : A -> S -> res S) (P : S -> Prop) l :
  (forall a x y, P x -> body a x = Ok y -> P y) ->
  forall s t, P s -> for_each body l s = Ok t -> P t.
Proof.
  intros Hb. induction l as [|a l IH]; intros s t HP E; simpl in E.
  - by inversion E; subst.
  - bind_inv E. eapply IH; [|exact E]. by eapply Hb.
Qed.

Section Frames.
Context {Mod resampT U : Type}.
Context `{!cf_filter Mod} `{!Resampler resampT Mod} `{!rbpf_virtuals U}.
Variable nparts : nat.

Local Abbreviation engine := (engine Mod resampT U).

Lemma first_loop_rs init data (s s' : engine) m m' :
  for_loop (first_body init data) nparts 0%nat (s, m) = Ok (s', m') ->
  m_rs s' = m_rs s.
Proof.
  intros E.
  apply (for_loop_pres (first_body init data)
           (fun st => m_rs st.1 = m_rs s) nparts) with (i := 0%nat) (s := (s, m))
    in E; [done| |done].
  intros j [x mx] [y my] Hx Hy. unfold first_body in Hy. simpl in Hy.
  bind_inv Hy. inversion Hy; subst. done.
Qed.

Lemma expectations_phase_rs fs (s s' : engine) :
  expectations_phase nparts fs s = Ok s' -> m_rs s' = m_rs s.
Proof.
  unfold expectations_phase. intros E. bind_inv E. inversion E; subst.
  match goal with
  | H : for_each _ _ _ = Ok ?r |- _ =>
      apply (for_each_pres _ (fun st => m_rs st.1 = m_rs s)) in H; [done| |done]
  end.
  intros h [x ix] [y iy] Hx Hy. unfold expect_one in Hy. simpl in Hy.
  bind_inv Hy. inversion Hy; subst. done.
Qed.

Lemma finish_Ok_rs (s s' : engine) done tr :
  finish s done = Ok (s', tr) -> m_rs s <> 0.
Proof.
  unfold finish, resample_gate. intros E Hz. rewrite Hz in E. done.
Qed.

(** With no particle at all, the loop over [fs] starts by dereferencing the
    end of an empty range. *)
Lemma expectations_phase_empty fs (s : engine) :
  m_logUnNormWeights s = [] -> expectations_phase nparts fs s = Ub EmptyRange.
Proof. intros E. unfold expectations_phase. by rewrite E. Qed.

End Frames.

Section HmmFrames.
Context {hmm resampT U : Type}.
Context `{!cf_filter hmm} `{!Resampler resampT hmm} `{!rbpf_virtuals U}.
Context `{!Hmm.hooks hmm}.
Variable nparts : nat.

Local Abbreviation engine := (engine hmm resampT U).

Lemma hmm_next_loop_rs data m2 (s s' : engine) a a' :
  for_loop (Hmm.next_body data m2) nparts 0%nat (s, a) = Ok (s', a') ->
  m_rs s' = m_rs s.
Proof.
  intros E.
  apply (for_loop_pres (Hmm.next_body data m2)
           (fun st => m_rs st.1 = m_rs s) nparts) with (i := 0%nat) (s := (s, a))
    in E; [done| |done].
  intros j [x mx] [y my] Hx Hy. unfold Hmm.next_body in Hy. simpl in Hy.
  bind_inv Hy. inversion Hy; subst. done.
Qed.

Lemma hmm_assimilate_rs data fs (s s' : engine) tr :
  Hmm.assimilate nparts data fs s = Ok (s', tr) -> m_rs s' = m_rs s.
Proof.
  unfold Hmm.assimilate. intros E. destruct (m_now s =? 0).
  - bind_inv E. inversion E; subst.
    match goal with H : expectations_phase _ _ _ = Ok _ |- _ =>
      apply expectations_phase_rs in H; rewrite H end.
    simpl. match goal with H : for_loop _ _ _ _ = Ok ?r |- _ =>
      destruct r; by apply first_loop_rs in H end.
  - bind_inv E. inversion E; subst.
    match goal with H : expectations_phase _ _ _ = Ok _ |- _ =>
      apply expectations_phase_rs in H; rewrite H end.
    simpl. match goal with H : for_loop _ _ _ _ = Ok ?r |- _ =>
      destruct r; by apply hmm_next_loop_rs in H end.
Qed.

(** A call of [rbpf_hmm::filter] that returns was made with a non-zero
    period. *)
Lemma hmm_filter_Ok_period data fs (s : engine) r :
  Hmm.filter nparts data fs s = Ok r -> m_rs s <> 0.
Proof.
  unfold Hmm.filter. intros E. bind_inv E.
  match goal with H : Hmm.assimilate _ _ _ _ = Ok ?x |- _ =>
    destruct x as [s1 tr1]; apply hmm_assimilate_rs in H; rewrite <- H end.
  destruct r. by eapply finish_Ok_rs.
Qed.

(** Without particles the call dereferences the end of an empty range. *)
Lemma hmm_filter_no_particles data fs (s : engine) :
  m_logUnNormWeights s = [] -> Hmm.filter 0 data fs s = Ub EmptyRange.
Proof.
  intros E. unfold Hmm.filter, Hmm.assimilate. destruct (m_now s =? 0).
  - cbn [for_loop rbind fst snd sum_exp].
    rewrite expectations_phase_empty; done.
  - by rewrite E.
Qed.

End HmmFrames.

Section KalmanFrames.
Context {kalman resampT U : Type}.
Context `{!cf_filter kalman} `{!Resampler resampT kalman}.
Context `{!rbpf_virtuals U} `{!Kalman.hooks kalman}.
Variable nparts : nat.

Local Abbreviation engine := (engine kalman resampT U).

Lemma kalman_next_loop_rs data m2 (s s' : engine) a a' :
  for_loop (Kalman.next_body data m2) nparts 0%nat (s, a) = Ok (s', a') ->
  m_rs s' = m_rs s.
Proof.
  intros E.
  apply (for_loop_pres (Kalman.next_body data m2)
           (fun st => m_rs st.1 = m_rs s) nparts) with (i := 0%nat) (s := (s, a))
    in E; [done| |done].
  intros j [x mx] [y my] Hx Hy. unfold Kalman.next_body in Hy. simpl in Hy.
  bind_inv Hy. inversion Hy; subst. done.
Qed.

Lemma kalman_assimilate_rs data fs (s s' : engine) tr :
  Kalman.assimilate nparts data fs s = Ok (s', tr) -> m_rs s' = m_rs s.
Proof.
  unfold Kalman.assimilate. intros E. destruct (m_now s =? 0).
  - bind_inv E. inversion E; subst.
    match goal with H : expectations_phase _ _ _ = Ok _ |- _ =>
      apply expectations_phase_rs in H; rewrite H end.
    simpl. match goal with H : for_loop _ _ _ _ = Ok ?r |- _ =>
      destruct r; by apply first_loop_rs in H end.
  - bind_inv E. inversion E; subst.
    match goal with H : expectations_phase _ _ _ = Ok _ |- _ =>
      apply expectations_phase_rs in H; rewrite H end.
    match goal with H : for_loop _ _ _ _ = Ok ?r |- _ =>
      destruct r; by apply kalman_next_loop_rs in H end.
Qed.

(** A call of [rbpf_kalman::filter] that returns was made with a non-zero
    period. *)
Lemma kalman_filter_Ok_period data fs (s : engine) r :
  Kalman.filter nparts data fs s = Ok r -> m_rs s <> 0.
Proof.
  unfold Kalman.filter. intros E. bind_inv E.
  match goal with H : Kalman.assimilate _ _ _ _ = Ok ?x |- _ =>
    destruct x as [s1 tr1]; apply kalman_assimilate_rs in H; rewrite <- H end.
  destruct r. by eapply finish_Ok_rs.
Qed.

(** Without particles the call dereferences the end of an empty range. *)
Lemma kalman_filter_no_particles data fs (s : engine) :
  m_logUnNormWeights s = [] -> Kalman.filter 0 data fs s = Ub EmptyRange.
Proof.
  intros E. unfold Kalman.filter, Kalman.assimilate. destruct (m_now s =? 0).
  - cbn [for_loop rbind fst snd sum_exp].
    rewrite expectations_phase_empty; done.
  - by rewrite E.
Qed.

End KalmanFrames.

(** ** Shifting the log-weights *)








Lemma res_rel_eq {A : Type} (Q : A -> A -> Prop) (x y : res A) :
  (forall a b, Q a b -> a = b) -> res_rel Q x y -> x = y.
Proof.
  intros HQ. destruct x, y; simpl; try done.
  - intros H. f_equal. by apply HQ.
  - by intros ->.
Qed.

Section Shifts.
Context {Mod resampT U : Type}.
Context `{!cf_filter Mod} `{!Resampler resampT Mod} `{!rbpf_virtuals U}.
Variable nparts : nat.
Variable c : R.

Local Abbreviation engine := (engine Mod resampT U).








End Shifts.

Section KalmanShifts.
Context {kalman resampT U : Type}.
Context `{!cf_filter kalman} `{!Resampler resampT kalman}.
Context `{!rbpf_virtuals U} `{!Kalman.hooks kalman}.
Variable nparts : nat.
Variable c : R.

Local Abbreviation engine := (engine kalman resampT U).





End KalmanShifts.

Section HmmShifts.
Context {hmm resampT U : Type}.
Context `{!cf_filter hmm} `{!Resampler resampT hmm} `{!rbpf_virtuals U}.
Context `{!Hmm.hooks hmm}.
Variable nparts : nat.
Variable c : R.

Local Abbreviation engine := (engine hmm resampT U).





End HmmShifts.

(** ** The constructors *)

Section Constructed.
Context {Mod resampT U : Type}.
Context `{!cf_filter Mod} `{!Resampler resampT Mod} `{!rbpf_virtuals U}.

Lemma construct_sized nparts samp0 w0 R :
  sized nparts (construct (Mod := Mod) (resampT := resampT) (U := U)
                  nparts samp0 w0 R).
Proof. unfold sized, construct. simpl. by rewrite !length_replicate. Qed.

End Constructed.

(** * The properties of the specification *)

Section Claims.
Context {hmm kalman resampT U : Type}.
Context `{!cf_filter hmm} `{!cf_filter kalman}.
Context `{!Resampler resampT hmm} `{!Resampler resampT kalman}.
Context `{!rbpf_virtuals U} `{!Hmm.hooks hmm} `{!Kalman.hooks kalman}.

(** C10.  Before the first call of [filter], [getLogCondLike] returns 0.0
    and [getExpectations] returns the empty vector, in the HMM engine and in
    the Kalman engine alike; the clock of such an engine stands at zero. *)
Theorem fresh_engine_getters (nparts : nat) (samp0 : sssv) (w0 : dbl) (R : Z) :
  let h := Hmm.rbpf_hmm (hmm := hmm) (resampT := resampT) (U := U)
             nparts samp0 w0 R in
  let k := Kalman.rbpf_kalman (kalman := kalman) (resampT := resampT) (U := U)
             nparts samp0 w0 R in
  (m_now h = 0 /\ getLogCondLike h = Fin 0 /\ getExpectations h = []) /\
  (m_now k = 0 /\ getLogCondLike k = Fin 0 /\ getExpectations k = []).
Proof. by repeat split. Qed.

(** C8.  In a sequence of filter calls whose functional lists all have the
    same length and whose functionals have a fixed output size, no write of
    a cached expectation leaves the expectations vector: every call returns
    without a fault, and the vector keeps the length that the first call
    gave it. *)
Theorem expectation_writes_in_bounds (nparts : nat) (samp0 : sssv) (w0 : dbl)
    (R : Z) (L : nat) (calls : list (osv * list functional)) :
  (0 < nparts)%nat -> 1 <= R < 2 ^ 32 -> Z.of_nat L <= 2 ^ 32 ->
  (forall c, c ∈ calls -> length c.2 = L /\ Forall uniform c.2) ->
  (exists s' trs,
     run (Hmm.filter nparts) calls
       (Hmm.rbpf_hmm (hmm := hmm) (resampT := resampT) (U := U)
          nparts samp0 w0 R) = Ok (s', trs) /\
     (calls <> [] -> length (getExpectations s') = L)) /\
  (exists s' trs,
     run (Kalman.filter nparts) calls
       (Kalman.rbpf_kalman (kalman := kalman) (resampT := resampT) (U := U)
          nparts samp0 w0 R) = Ok (s', trs) /\
     (calls <> [] -> length (getExpectations s') = L)).
Proof.
  intros Hn HR HL Hcalls.
  assert (Hw : wrap32 R = R) by (apply wrap32_small; lia).
  split.
  - destruct (run_from_stages nparts (Hmm.assimilate nparts)
                (hmm_assimilates nparts) R L calls
                (Hmm.rbpf_hmm nparts samp0 w0 R))
      as (s' & trs & E & _ & HE & _);
      [apply construct_sized|done|done|done|lia|done|done|].
    exists s', trs. split; [exact E|done].
  - destruct (run_from_stages nparts (Kalman.assimilate nparts)
                (kalman_assimilates nparts) R L calls
                (Kalman.rbpf_kalman nparts samp0 w0 R))
      as (s' & trs & E & _ & HE & _);
      [apply construct_sized|done|done|done|lia|done|done|].
    exists s', trs. split; [exact E|done].
Qed.

(** C7 (as amended).  Neither constructor checks the resampling period:
    every [R], zero included, is stored in [m_rs] and an engine is returned.
    A zero period or an empty ensemble is not reported as a configuration
    error; a call of [filter] on such an engine runs into an undefined
    operation, the modulo by zero of the resampling test or the dereference
    of the end of an empty range.  A call that returns was made with a
    non-zero period. *)
Theorem period_is_not_validated (nparts : nat) (samp0 : sssv) (w0 : dbl)
    (R : Z) (data : osv) (fs : list functional)
    (sh : engine hmm resampT U) (sk : engine kalman resampT U) :
  callable nparts fs sh -> callable nparts fs sk ->
  (m_rs (Hmm.rbpf_hmm (hmm := hmm) (resampT := resampT) (U := U)
           nparts samp0 w0 R) = wrap32 R /\
   m_rs (Kalman.rbpf_kalman (kalman := kalman) (resampT := resampT) (U := U)
           nparts samp0 w0 R) = wrap32 R) /\
  (m_rs sh = 0 -> Hmm.filter nparts data fs sh = Ub DivByZero) /\
  (m_rs sk = 0 -> Kalman.filter nparts data fs sk = Ub DivByZero) /\
  (forall s0 : engine hmm resampT U,
     m_logUnNormWeights s0 = [] -> Hmm.filter 0 data fs s0 = Ub EmptyRange) /\
  (forall s0 : engine kalman resampT U,
     m_logUnNormWeights s0 = [] -> Kalman.filter 0 data fs s0 = Ub EmptyRange) /\
  (forall r, Hmm.filter nparts data fs sh = Ok r -> m_rs sh <> 0) /\
  (forall r, Kalman.filter nparts data fs sk = Ok r -> m_rs sk <> 0).
Proof.
  intros Hh Hk.
  split; [done|].
  split; [apply (filter_from_zero nparts _ (hmm_assimilates nparts)); done|].
  split; [apply (filter_from_zero nparts _ (kalman_assimilates nparts)); done|].
  split; [intros; by apply hmm_filter_no_particles|].
  split; [intros; by apply kalman_filter_no_particles|].
  split; intros r; [apply hmm_filter_Ok_period|apply kalman_filter_Ok_period].
Qed.

End Claims.

Section ClaimsOnExpectations.
Context {hmm kalman resampT U : Type}.
Context `{!cf_filter hmm} `{!cf_filter kalman}.
Context `{!Resampler resampT hmm} `{!Resampler resampT kalman}.
Context `{!rbpf_virtuals U} `{!Hmm.hooks hmm} `{!Kalman.hooks kalman}.
Variable nparts : nat.
Variables (data : osv) (fs : list functional).

Lemma log_first_intro {Mod : Type} `{!cf_filter Mod}
    (s_pre s' : engine Mod resampT U) :
  (0 < nparts)%nat -> Forall uniform fs -> sized nparts s_pre ->
  (forall k h, fs !! k = Some h ->
     m_expectations s' !! k =
     Some (log_domain_average h (m_p_innerMods s_pre) (m_p_samps s_pre)
             (m_logUnNormWeights s_pre))) ->
  log_first nparts fs s_pre s'.
Proof.
  intros Hn Hu (_ & _ & H3) He k h Ek. cbv zeta.
  pose proof (proj1 (Forall_lookup _ _) Hu k h Ek) as Hh.
  unfold getExpectations. rewrite (He k h Ek).
  split; [done|]. split.
  - intros i j r Hi Ej Hr. eexists. split; [done|].
    eapply log_domain_average_negative; [done|by rewrite H3|done|done].
  - intros Hws Hf. rewrite <- H3 in *.
    assert (Hne : m_logUnNormWeights s_pre <> [])
      by (intros E; rewrite E in Hn; simpl in Hn; lia).
    rewrite <- (averages_agree_iff_nonneg h _ _ _ Hh Hne Hws Hf).
    split; [by intros [= ->]|by intros ->].
Qed.

(** C9.  The expectation loops take the logarithm of the functional's value
    before they add the shifted log-weight and exponentiate.  Hence a
    strictly negative coefficient at a particle makes the cached expectation
    contain NaN, and on finite data the cached expectation agrees with the
    direct weighted average only when (and whenever) no coefficient of the
    functional is negative. *)
Theorem expectations_take_log_first
    (sh : engine hmm resampT U) (sk : engine kalman resampT U) :
  callable nparts fs sh -> callable nparts fs sk ->
  m_rs sh <> 0 -> m_rs sk <> 0 ->
  (exists s_pre tr_pre s' tr,
     Hmm.assimilate nparts data fs sh = Ok (s_pre, tr_pre) /\
     Hmm.filter nparts data fs sh = Ok (s', tr) /\
     log_first nparts fs s_pre s') /\
  (exists s_pre tr_pre s' tr,
     Kalman.assimilate nparts data fs sk = Ok (s_pre, tr_pre) /\
     Kalman.filter nparts data fs sk = Ok (s', tr) /\
     log_first nparts fs s_pre s').
Proof.
  intros Hh Hk Rh Rk. split.
  - destruct (filter_from_ok nparts _ (hmm_assimilates nparts) data fs sh Hh Rh)
      as (s_pre & tr_pre & s' & tr & Ea & Ef & _ & _ & _ & _ & _ & _ & _ & He & Hs).
    exists s_pre, tr_pre, s', tr. split; [done|]. split; [exact Ef|].
    destruct Hh as (_ & Hn & Hu & _). by apply log_first_intro.
  - destruct (filter_from_ok nparts _ (kalman_assimilates nparts) data fs sk Hk Rk)
      as (s_pre & tr_pre & s' & tr & Ea & Ef & _ & _ & _ & _ & _ & _ & _ & He & Hs).
    exists s_pre, tr_pre, s', tr. split; [done|]. split; [exact Ef|].
    destruct Hk as (_ & Hn & Hu & _). by apply log_first_intro.
Qed.

End ClaimsOnExpectations.

(** ** The properties on the concrete model *)

Import Demo.

Lemma uniform_h_one : uniform h_one.
Proof. by intros p x p' x'. Qed.

Lemma uniform_h_minus_one : uniform h_minus_one.
Proof. by intros p x p' x'. Qed.

Lemma three_calls_uniform c :
  c ∈ three_calls -> length c.2 = 1%nat /\ Forall uniform c.2.
Proof.
  unfold three_calls. intros Hc.
  repeat (apply elem_of_cons in Hc as [->|Hc]);
    try (split; [done|repeat constructor; apply uniform_h_one]).
  by apply elem_of_nil in Hc.
Qed.

(** The same three calls stay inside the expectations vector. *)
Lemma expectation_writes_in_bounds_witness :
  (exists (s' : demo_engine) trs,
     run (Hmm.filter 1) three_calls (Hmm.rbpf_hmm 1 [] (Fin 0) 2) = Ok (s', trs) /\
     (three_calls <> [] -> length (getExpectations s') = 1%nat)) /\
  (exists (s' : demo_engine) trs,
     run (Kalman.filter 1) three_calls (Kalman.rbpf_kalman 1 [] (Fin 0) 2)
       = Ok (s', trs) /\
     (three_calls <> [] -> length (getExpectations s') = 1%nat)).
Proof.
  apply (expectation_writes_in_bounds 1 [] (Fin 0) 2 1 three_calls).
  - lia.
  - lia.
  - simpl. lia.
  - apply three_calls_uniform.
Defined.

Lemma fresh_callable (R : Z) (fs : list functional) :
  Forall uniform fs -> Z.of_nat (length fs) <= 2 ^ 32 ->
  callable 1 fs (Hmm.rbpf_hmm 1 [] (Fin 0) R : demo_engine).
Proof.
  intros Hu Hl. split; [apply construct_sized|]. split; [lia|].
  split; [done|]. split; [done|]. intros Hne. by elim Hne.
Qed.

(** A period of zero is constructed like any other: the constructed engine
    has [R = 0], against the invariant [R >= 1], and its first call ends in
    the modulo by zero, not in a reported configuration error. *)
Lemma zero_period_is_accepted :
  let sh : demo_engine := Hmm.rbpf_hmm 1 [] (Fin 0) 0 in
  let sk : demo_engine := Kalman.rbpf_kalman 1 [] (Fin 0) 0 in
  (m_rs sh = 0 /\ ~ 1 <= m_rs sh /\
   Hmm.filter 1 [Fin 0; Fin 0] [] sh = Ub DivByZero) /\
  (m_rs sk = 0 /\ ~ 1 <= m_rs sk /\
   Kalman.filter 1 [Fin 0; Fin 0] [] sk = Ub DivByZero).
Proof.
  intros sh sk. split.
  - split; [done|]. split; [by compute|].
    apply (filter_from_zero 1 _ (hmm_assimilates 1)); [|done].
    by apply fresh_callable.
  - split; [done|]. split; [by compute|].
    apply (filter_from_zero 1 _ (kalman_assimilates 1)); [|done].
    by apply (fresh_callable 0 []).
Qed.

(** Fresh one-particle engines with period zero. *)
Lemma period_is_not_validated_witness :
  let sh : demo_engine := Hmm.rbpf_hmm 1 [] (Fin 0) 0 in
  let sk : demo_engine := Kalman.rbpf_kalman 1 [] (Fin 0) 0 in
  callable 1 [] sh /\ callable 1 [] sk /\
  Hmm.filter 1 [Fin 0; Fin 0] [] sh = Ub DivByZero /\
  Kalman.filter 1 [Fin 0; Fin 0] [] sk = Ub DivByZero.
Proof.
  intros sh sk.
  assert (Hh : callable 1 [] sh) by (by apply fresh_callable).
  assert (Hk : callable 1 [] sk) by (by apply (fresh_callable 0 [])).
  split; [exact Hh|]. split; [exact Hk|].
  destruct (period_is_not_validated 1 [] (Fin 0) 0 [Fin 0; Fin 0] [] sh sk Hh Hk)
    as (_ & Zh & Zk & _).
  split; [by apply Zh|by apply Zk].
Defined.

(** Runs a call on concrete arguments; the arithmetic of [dbl] is left to be
    done by hand. *)
Ltac engine_eval :=
  cbv -[dadd dsub dmul ddiv dexp dlog dlt dgt minus_infinity of_size
        Rplus Rminus Rmult Rdiv Rinv Ropp IZR INR exp ln
        Rlt_dec total_order_T Req_dec_T].

Lemma period_five_nonzero :
  m_rs hmm0 <> 0 /\ m_rs kalman0 <> 0.
Proof. by split. Qed.

(** The first call of the one-particle engines with the constant
    functional -1, up to the resampling test. *)
Lemma first_call_minus_one :
  exists (s_pre : demo_engine) tr_pre,
    Hmm.assimilate 1 [Fin 0; Fin 0] [h_minus_one] hmm0 = Ok (s_pre, tr_pre) /\
    m_now s_pre = 0 /\ m_rs s_pre = 5 /\
    m_p_innerMods s_pre = [Fin 0] /\
    m_p_samps s_pre = [[Fin 0; Fin 0]] /\
    m_logUnNormWeights s_pre = [Fin 0] /\
    m_expectations s_pre = [[NaN]].
Proof.
  do 2 eexists. split; [engine_eval; reflexivity|].
  cbn [m_now m_rs m_p_innerMods m_p_samps m_logUnNormWeights m_expectations].
  split; [done|]. split; [done|]. split; [done|]. split; [done|]. split.
  - cbn [dadd dsub]. do 2 f_equal. lra.
  - by rewrite dlog_neg by lra.
Qed.

Lemma kalman_first_call_minus_one :
  exists (s_pre : demo_engine) tr_pre,
    Kalman.assimilate 1 [Fin 0; Fin 0] [h_minus_one] kalman0
      = Ok (s_pre, tr_pre) /\
    m_now s_pre = 0 /\ m_rs s_pre = 5 /\
    m_p_innerMods s_pre = [Fin 0] /\
    m_p_samps s_pre = [[Fin 0; Fin 0]] /\
    m_logUnNormWeights s_pre = [Fin 0] /\
    m_expectations s_pre = [[NaN]].
Proof.
  do 2 eexists. split; [engine_eval; reflexivity|].
  cbn [m_now m_rs m_p_innerMods m_p_samps m_logUnNormWeights m_expectations].
  split; [done|]. split; [done|]. split; [done|]. split; [done|]. split.
  - cbn [dadd dsub]. do 2 f_equal. lra.
  - by rewrite dlog_neg by lra.
Qed.

(** The weighted average of the constant -1 over one particle of weight 0
    is -1. *)
Lemma weighted_average_minus_one :
  weighted_average h_minus_one [Fin 0] [[Fin 0; Fin 0]] [Fin 0] = [Fin (-1)].
Proof.
  unfold weighted_average, numer_upto, denom_upto, shifted_weight, mat_div,
    mat_scale, Zero, h_at, h_minus_one.
  cbn -[Rplus Rminus Rmult Rdiv exp Req_dec_T].
  replace (0 - 0)%R with 0%R by lra. rewrite exp_0.
  destruct (Req_dec_T (0 + 1) 0) as [E|_]; [lra|].
  do 2 f_equal. field.
Qed.

(** C4 at a failing input: the first call of the one-particle engines
    (period 5, so the call does not resample) on the observation [0; 0],
    with the single functional that returns the 1x1 matrix [-1] at every
    particle.  The particle has log-weight 0, so [m = 0] and the claimed
    expectation is [(-1 * exp(0 - 0)) / exp(0 - 0) = -1].  Both engines take
    the logarithm of the functional's value first, [log(-1)], and cache NaN.
    The documentation of [filter] (rbpf.h 60 and 369) takes [fs] as
    functions "to be averaged to yield E[h(x_1t, x_2t)|y_1:t]", of either
    sign. *)
Theorem negative_functional_is_not_averaged :
  (exists (s_pre : demo_engine) tr_pre (s' : demo_engine) tr,
     Hmm.assimilate 1 [Fin 0; Fin 0] [h_minus_one] hmm0 = Ok (s_pre, tr_pre) /\
     Hmm.filter 1 [Fin 0; Fin 0] [h_minus_one] hmm0 = Ok (s', tr) /\
     getExpectations s' !! 0%nat = Some [NaN] /\
     weighted_average h_minus_one (m_p_innerMods s_pre) (m_p_samps s_pre)
       (m_logUnNormWeights s_pre) = [Fin (-1)] /\
     getExpectations s' !! 0%nat <>
     Some (weighted_average h_minus_one (m_p_innerMods s_pre)
             (m_p_samps s_pre) (m_logUnNormWeights s_pre))) /\
  (exists (s_pre : demo_engine) tr_pre (s' : demo_engine) tr,
     Kalman.assimilate 1 [Fin 0; Fin 0] [h_minus_one] kalman0
       = Ok (s_pre, tr_pre) /\
     Kalman.filter 1 [Fin 0; Fin 0] [h_minus_one] kalman0 = Ok (s', tr) /\
     getExpectations s' !! 0%nat = Some [NaN] /\
     weighted_average h_minus_one (m_p_innerMods s_pre) (m_p_samps s_pre)
       (m_logUnNormWeights s_pre) = [Fin (-1)] /\
     getExpectations s' !! 0%nat <>
     Some (weighted_average h_minus_one (m_p_innerMods s_pre)
             (m_p_samps s_pre) (m_logUnNormWeights s_pre))).
Proof.
  split.
  - destruct first_call_minus_one
      as (s_pre & tr_pre & E & Hn & Hr & Hm & Hx & Hw & He).
    destruct (finish_ok 1 s_pre tr_pre) as (s' & Ef & _ & _ & _ & F4 & _);
      [by rewrite Hr|].
    exists s_pre, tr_pre, s'. eexists.
    split; [exact E|]. unfold Hmm.filter. rewrite E. cbn [rbind fst snd].
    split; [exact Ef|].
    unfold getExpectations.
    rewrite F4, He, Hm, Hx, Hw, weighted_average_minus_one.
    split; [done|]. split; [done|]. by intros [=].
  - destruct kalman_first_call_minus_one
      as (s_pre & tr_pre & E & Hn & Hr & Hm & Hx & Hw & He).
    destruct (finish_ok 1 s_pre tr_pre) as (s' & Ef & _ & _ & _ & F4 & _);
      [by rewrite Hr|].
    exists s_pre, tr_pre, s'. eexists.
    split; [exact E|]. unfold Kalman.filter. rewrite E. cbn [rbind fst snd].
    split; [exact Ef|].
    unfold getExpectations.
    rewrite F4, He, Hm, Hx, Hw, weighted_average_minus_one.
    split; [done|]. split; [done|]. by intros [=].
Qed.

(** ** Two calls of the one-particle engines *)

Lemma singleton_lse a : dlog (Fin (0 + exp (a - a))) = Fin 0.
Proof.
  replace (a - a)%R with 0%R by lra. rewrite exp_0.
  replace (0 + 1)%R with 1%R by lra. apply dlog_one.
Qed.

Lemma logsumexp_singleton a : logsumexp [Fin a] = Fin a.
Proof.
  unfold logsumexp, logsumexp_at, max_logw, sum_exp_shifted.
  cbn [fold_left dsub dexp dadd]. rewrite singleton_lse.
  cbn [dadd]. f_equal. lra.
Qed.

Ltac demo_call :=
  engine_eval; rewrite ?minus_infinity_eq;
  cbn [dadd dsub dmul dgt dlt dexp]; rewrite ?singleton_lse;
  unfold of_size; cbn [INR]; rewrite ?dlog_one; cbn [dadd dsub];
  repeat f_equal; lra.

Lemma hmm_first_call :
  Hmm.filter 1 y1 [] hmm0 =
  Ok (hmm1, [Propagated; Assigned "m_lastLogCondLike" (Fin 1); Averaged;
             Advanced]).
Proof. unfold hmm1, after, y1. demo_call. Qed.

Lemma hmm_second_call :
  Hmm.filter 1 y2 [] hmm1 =
  Ok (hmm2, [Propagated; Assigned "m_lastLogCondLike" (Fin 0); Averaged;
             Advanced]).
Proof. unfold hmm2, hmm1, after, y1, y2. demo_call. Qed.

Lemma kalman_first_call :
  Kalman.filter 1 y1 [] kalman0 =
  Ok (kalman1, [Propagated; Assigned "m_logLastCondLike" (Fin 1); Averaged;
                Advanced]).
Proof. unfold kalman1, after, y1. demo_call. Qed.

Lemma kalman_second_call :
  Kalman.filter 1 y2 [] kalman1 =
  Ok (kalman2, [Propagated; Assigned "m_lastCondLike" (Fin 6); Averaged;
                Advanced]).
Proof. unfold kalman2, kalman1, after, y1, y2. demo_call. Qed.

(** A later call with more functionals than the first call cached
    expectations for writes past the end of the vector. *)
Lemma longer_list_overruns :
  Hmm.filter 1 y2 [h_one] hmm1 = Ub OutOfBounds /\
  Kalman.filter 1 y2 [h_one] kalman1 = Ub OutOfBounds.
Proof. split; engine_eval; reflexivity. Qed.

(** The first call of the two one-particle engines with the constant
    functional -1. *)
Lemma expectations_take_log_first_witness :
  (exists (s_pre : demo_engine) tr_pre (s' : demo_engine) tr,
     Hmm.assimilate 1 y1 [h_minus_one] hmm0 = Ok (s_pre, tr_pre) /\
     Hmm.filter 1 y1 [h_minus_one] hmm0 = Ok (s', tr) /\
     log_first 1 [h_minus_one] s_pre s') /\
  (exists (s_pre : demo_engine) tr_pre (s' : demo_engine) tr,
     Kalman.assimilate 1 y1 [h_minus_one] kalman0 = Ok (s_pre, tr_pre) /\
     Kalman.filter 1 y1 [h_minus_one] kalman0 = Ok (s', tr) /\
     log_first 1 [h_minus_one] s_pre s').
Proof.
  apply (expectations_take_log_first 1 y1 [h_minus_one] hmm0 kalman0).
  - apply fresh_callable;
      [repeat constructor; apply uniform_h_minus_one|simpl; lia].
  - apply (fresh_callable 5 [h_minus_one]);
      [repeat constructor; apply uniform_h_minus_one|simpl; lia].
  - apply period_five_nonzero.
  - apply period_five_nonzero.
Defined.

(** C1 at a failing input: one particle with log-weight 1, whose inner
    filter reports the log conditional likelihood 2 on the observation [y2],
    with [log_f = 3] and [log_q = 0].  The claimed new log-weight is
    1 + 2 + 3 - 0 = 6.  The Kalman engine stores 1 + (2 * 3 - 0) = 7; the HMM
    engine leaves the log-weight at 1. *)
Theorem later_weights_at_failing_input :
  additive_weight y2 (Fin 1) (Fin 2 : dbl) y2 y1 = Fin 6 /\
  (exists tr, Kalman.filter 1 y2 [] kalman1 = Ok (kalman2, tr)) /\
  m_logUnNormWeights kalman1 = [Fin 1] /\
  m_logUnNormWeights kalman2 = [Fin 7] /\
  product_weight y2 (Fin 1) (Fin 2 : dbl) y2 y1 = Fin 7 /\
  (exists tr, Hmm.filter 1 y2 [] hmm1 = Ok (hmm2, tr)) /\
  m_logUnNormWeights hmm1 = [Fin 1] /\
  m_logUnNormWeights hmm2 = [Fin 1].
Proof.
  split; [unfold additive_weight; simpl; f_equal; lra|].
  split; [eexists; apply kalman_second_call|].
  split; [done|]. split; [done|].
  split; [unfold product_weight; simpl; f_equal; lra|].
  split; [eexists; apply hmm_second_call|]. done.
Qed.

(** C2 at a failing input: the second call of the one-particle Kalman
    engine.  The log-weights go from [1] to [7], so the increment is
    logsumexp [7] - logsumexp [1] = 6, and that is the value of the
    assignment of line 596; but the assignment names [m_lastCondLike], and
    [getLogCondLike] still returns the constructor's 0.0.  The HMM engine
    assigns [m_lastLogCondLike], and its getter returns the value. *)
Theorem kalman_getter_after_later_call :
  Kalman.filter 1 y2 [] kalman1 =
    Ok (kalman2, [Propagated; Assigned "m_lastCondLike" (Fin 6); Averaged;
                  Advanced]) /\
  dsub (logsumexp (m_logUnNormWeights kalman2))
       (logsumexp (m_logUnNormWeights kalman1)) = Fin 6 /\
  getLogCondLike kalman2 = Fin 0 /\
  Hmm.filter 1 y2 [] hmm1 =
    Ok (hmm2, [Propagated; Assigned "m_lastLogCondLike" (Fin 0); Averaged;
               Advanced]) /\
  dsub (logsumexp (m_logUnNormWeights hmm2))
       (logsumexp (m_logUnNormWeights hmm1)) = Fin 0 /\
  getLogCondLike hmm2 = Fin 0.
Proof.
  split; [apply kalman_second_call|].
  split; [cbn [kalman2 kalman1 after m_logUnNormWeights];
          rewrite !logsumexp_singleton; simpl; f_equal; lra|].
  split; [done|]. split; [apply hmm_second_call|].
  split; [cbn [hmm2 hmm1 after m_logUnNormWeights];
          rewrite !logsumexp_singleton; simpl; f_equal; lra|].
  done.
Qed.

(** C3 at a failing input: the first call of the one-particle engines on
    [y1].  Both set the log-weight to the first-step weight, 1, and compute
    logsumexp [1] - log 1 = 1.  The HMM engine assigns it to
    [m_lastLogCondLike]; the Kalman engine assigns it to
    [m_logLastCondLike], and its [getLogCondLike] returns 0.0. *)
Theorem kalman_getter_after_first_call :
  Kalman.filter 1 y1 [] kalman0 =
    Ok (kalman1, [Propagated; Assigned "m_logLastCondLike" (Fin 1); Averaged;
                  Advanced]) /\
  m_logUnNormWeights kalman1 = [Fin 1] /\
  first_weight y1 (Fin 1 : dbl) y1 = Fin 1 /\
  dsub (logsumexp (m_logUnNormWeights kalman1)) (dlog (of_size 1)) = Fin 1 /\
  getLogCondLike kalman1 = Fin 0 /\
  Hmm.filter 1 y1 [] hmm0 =
    Ok (hmm1, [Propagated; Assigned "m_lastLogCondLike" (Fin 1); Averaged;
               Advanced]) /\
  getLogCondLike hmm1 = Fin 1.
Proof.
  split; [apply kalman_first_call|]. split; [done|].
  split; [unfold first_weight; simpl; f_equal; lra|].
  split.
  { cbn [kalman1 after m_logUnNormWeights]. rewrite logsumexp_singleton.
    unfold of_size. cbn [INR]. rewrite dlog_one. simpl. f_equal. lra. }
  split; [done|]. split; [apply hmm_first_call|done].
Qed.

(** * Further properties of the engines *)

(** ** Log-sum-exp of finite weights *)

Lemma fold_sum_exp_pos ws b :
  Forall finite ws -> forall r0, (0 <= r0)%R ->
  exists r,
    fold_left (fun acc w => dadd acc (dexp (dsub w (Fin b)))) ws (Fin r0) = Fin r /\
    (r0 <= r)%R /\ (ws <> [] -> (0 < r)%R).
Proof.
  induction 1 as [|w ws Hw Hws IH]; intros r0 Hr0.
  - exists r0. split; [done|]. split; [lra|done].
  - destruct w as [| | |a]; try done. simpl.
    pose proof (exp_pos (a - b)) as He.
    destruct (IH (r0 + exp (a - b))%R) as (r & Er & Hr & _); [lra|].
    exists r. split; [done|]. split; [lra|]. intros _. lra.
Qed.

(** The log-sum-exp of finitely many finite log-weights is finite. *)
Lemma logsumexp_finite ws :
  Forall finite ws -> ws <> [] -> exists a, logsumexp ws = Fin a.
Proof.
  intros Hf Hne. pose proof (max_logw_finite ws Hf Hne) as Hm.
  unfold logsumexp, logsumexp_at, sum_exp_shifted.
  destruct (max_logw ws) as [| | |b]; try done.
  destruct (fold_sum_exp_pos ws b Hf 0%R) as (r & Er & _ & Hr); [lra|].
  rewrite Er. simpl. rewrite Rsgn_pos by auto. by eexists.
Qed.

Lemma of_size_log_finite n : (0 < n)%nat -> exists a, dlog (of_size n) = Fin a.
Proof.
  intros Hn. unfold of_size. simpl.
  rewrite Rsgn_pos by (apply lt_0_INR; lia). by eexists.
Qed.

(** ** One call, seen from outside *)

Section OneCall.
Context {hmm kalman resampT U : Type}.
Context `{!cf_filter hmm} `{!cf_filter kalman}.
Context `{!Resampler resampT hmm} `{!Resampler resampT kalman}.
Context `{!rbpf_virtuals U} `{!Hmm.hooks hmm} `{!Kalman.hooks kalman}.
Variable nparts : nat.
Variables (data : osv) (fs : list functional).

(** X1.  A call of [filter] on a callable engine with a non-zero period
    returns and keeps the shape of the engine: the three particle arrays
    still have [nparts] elements (also when the call resampled), the period
    is the same, the clock has advanced by one modulo 2^32, and the
    expectations vector has the length of [fs] after the first call and its
    old length after a later one. *)
Theorem call_keeps_the_shape
    (sh : engine hmm resampT U) (sk : engine kalman resampT U) :
  callable nparts fs sh -> callable nparts fs sk ->
  m_rs sh <> 0 -> m_rs sk <> 0 ->
  (exists s' tr,
     Hmm.filter nparts data fs sh = Ok (s', tr) /\
     sized nparts s' /\ m_rs s' = m_rs sh /\
     m_now s' = wrap32 (m_now sh + 1) /\
     length (getExpectations s') =
       (if m_now sh =? 0 then length fs else length (getExpectations sh))) /\
  (exists s' tr,
     Kalman.filter nparts data fs sk = Ok (s', tr) /\
     sized nparts s' /\ m_rs s' = m_rs sk /\
     m_now s' = wrap32 (m_now sk + 1) /\
     length (getExpectations s') =
       (if m_now sk =? 0 then length fs else length (getExpectations sk))).
Proof.
  intros Hh Hk Rh Rk. split.
  - destruct (filter_from_ok nparts _ (hmm_assimilates nparts) data fs sh Hh Rh)
      as (_ & _ & s' & tr & _ & Ef & _ & Hn & Hr & Hs & _ & _ & Hl & _).
    exists s', tr. split; [exact Ef|]. split; [done|]. split; [done|].
    split; [done|]. exact Hl.
  - destruct (filter_from_ok nparts _ (kalman_assimilates nparts) data fs sk Hk Rk)
      as (_ & _ & s' & tr & _ & Ef & _ & Hn & Hr & Hs & _ & _ & Hl & _).
    exists s', tr. split; [exact Ef|]. split; [done|]. split; [done|].
    split; [done|]. exact Hl.
Qed.

(** X2.  When the clock stands at 2^32 - 1, the advanced counter of the
    resampling test wraps to zero: the call resamples whatever the period
    is, and leaves the clock at zero, so that the next call takes the
    first-step branch again. *)
Theorem clock_wraps_and_resamples
    (sh : engine hmm resampT U) (sk : engine kalman resampT U) :
  callable nparts fs sh -> callable nparts fs sk ->
  m_rs sh <> 0 -> m_rs sk <> 0 ->
  m_now sh = 2 ^ 32 - 1 -> m_now sk = 2 ^ 32 - 1 ->
  (exists s' tr,
     Hmm.filter nparts data fs sh = Ok (s', tr) /\
     phase_of <$> tr = stages true /\ m_now s' = 0) /\
  (exists s' tr,
     Kalman.filter nparts data fs sk = Ok (s', tr) /\
     phase_of <$> tr = stages true /\ m_now s' = 0).
Proof.
  intros Hh Hk Rh Rk Nh Nk.
  assert (Hdue : forall (Mod : Type) (s : engine Mod resampT U),
            m_now s = 2 ^ 32 - 1 -> resampling_due s = true).
  { intros Mod s E. unfold resampling_due. rewrite E.
    change (wrap32 (2 ^ 32 - 1 + 1)) with 0. by rewrite Zmod_0_l. }
  split.
  - destruct (filter_from_ok nparts _ (hmm_assimilates nparts) data fs sh Hh Rh)
      as (_ & _ & s' & tr & _ & Ef & Hph & Hn & _).
    exists s', tr. split; [exact Ef|]. rewrite Hph, Hn, Nh.
    by rewrite (Hdue _ sh Nh).
  - destruct (filter_from_ok nparts _ (kalman_assimilates nparts) data fs sk Hk Rk)
      as (_ & _ & s' & tr & _ & Ef & Hph & Hn & _).
    exists s', tr. split; [exact Ef|]. rewrite Hph, Hn, Nk.
    by rewrite (Hdue _ sk Nk).
Qed.

(** X3.  On a later call the HMM engine never writes a log-weight: the
    weights that the call holds before it resamples are the ones it found.
    The log-likelihood that it stores,
    [m1 + log(sumexpnumer) - m2 - log(sumexpdenom)], is therefore computed
    from the log-weights it found alone, both maxima and both sums being
    taken over the same array: after the call [getLogCondLike] returns the
    same value whatever the observation was. *)
Theorem hmm_later_call_is_blind (data' : osv) (sh : engine hmm resampT U) :
  callable nparts fs sh -> m_rs sh <> 0 -> m_now sh <> 0 ->
  exists s_pre tr_pre s' tr s2 tr2,
    Hmm.assimilate nparts data fs sh = Ok (s_pre, tr_pre) /\
    Hmm.filter nparts data fs sh = Ok (s', tr) /\
    Hmm.filter nparts data' fs sh = Ok (s2, tr2) /\
    m_logUnNormWeights s_pre = m_logUnNormWeights sh /\
    getLogCondLike s' =
      (let ws := m_logUnNormWeights sh in
       dsub (dsub (logsumexp ws) (max_logw ws))
            (dlog (sum_exp_shifted ws (max_logw ws)))) /\
    getLogCondLike s2 = getLogCondLike s'.
Proof.
  intros Hc Rh Nh. pose proof Hc as (Hs & Hn & Hu & Hfs & Hl).
  assert (Hv : forall d, exists s_pre tr_pre s' tr,
            Hmm.assimilate nparts d fs sh = Ok (s_pre, tr_pre) /\
            Hmm.filter nparts d fs sh = Ok (s', tr) /\
            m_logUnNormWeights s_pre = m_logUnNormWeights sh /\
            getLogCondLike s' =
              (let ws := m_logUnNormWeights sh in
               dsub (dsub (logsumexp ws) (max_logw ws))
                    (dlog (sum_exp_shifted ws (max_logw ws))))).
  { intros d.
    destruct (filter_from_ok nparts _ (hmm_assimilates nparts) d fs sh Hc Rh)
      as (s_pre & tr_pre & s' & tr & Ea & Ef & _ & _ & _ & _ & Hg & _).
    destruct (hmm_assimilate_next nparts d fs sh Nh Hs Hn Hu Hfs (Hl Nh))
      as (s1 & E1 & _ & _ & _ & Hl1 & _ & Hws & _).
    rewrite Ea in E1. injection E1 as <- _.
    exists s_pre, tr_pre, s', tr. split; [done|]. split; [exact Ef|].
    split; [exact Hws|]. unfold getLogCondLike. rewrite Hg, Hl1. cbv zeta.
    by rewrite logsumexp_at_running_max. }
  destruct (Hv data) as (s_pre & tr_pre & s' & tr & Ea & Ef & Hws & Hg).
  destruct (Hv data') as (_ & _ & s2 & tr2 & _ & Ef2 & _ & Hg2).
  exists s_pre, tr_pre, s', tr, s2, tr2.
  split; [done|]. split; [done|]. split; [done|]. split; [done|].
  split; [exact Hg|]. by rewrite Hg, Hg2.
Qed.

End OneCall.

(** ** What the getters return *)

Section Getters.
Context {hmm kalman resampT U : Type}.
Context `{!cf_filter hmm} `{!cf_filter kalman}.
Context `{!Resampler resampT hmm} `{!Resampler resampT kalman}.
Context `{!rbpf_virtuals U} `{!Hmm.hooks hmm} `{!Kalman.hooks kalman}.
Variable nparts : nat.

(** X4.  After a call of [rbpf_hmm::filter], [getLogCondLike] returns the
    log-sum-exp of the log-weights that the call holds before it resamples,
    minus [log N] on the first call and minus the log-sum-exp of the
    log-weights that the call found on a later one; resampling does not
    change it.  On the first call it is finite whenever those log-weights
    are. *)
Theorem hmm_getter_value data fs (sh : engine hmm resampT U) :
  callable nparts fs sh -> m_rs sh <> 0 ->
  exists s_pre tr_pre s' tr,
    Hmm.assimilate nparts data fs sh = Ok (s_pre, tr_pre) /\
    Hmm.filter nparts data fs sh = Ok (s', tr) /\
    getLogCondLike s' =
      dsub (logsumexp (m_logUnNormWeights s_pre))
           (if m_now sh =? 0 then dlog (of_size nparts)
            else logsumexp (m_logUnNormWeights sh)) /\
    (m_now sh = 0 -> Forall finite (m_logUnNormWeights s_pre) ->
     finite (getLogCondLike s')).
Proof.
  intros Hc Rh. pose proof Hc as (Hs & Hn & Hu & Hfs & Hl).
  destruct (hmm_getter_after_call nparts data fs sh Hc Rh)
    as (s_pre & tr_pre & s' & tr & Ea & Ef & Hg).
  exists s_pre, tr_pre, s', tr. split; [done|]. split; [done|].
  split; [done|]. intros E0 Hf. rewrite Hg, E0.
  change (0 =? 0) with true. cbv iota.
  destruct (hmm_assimilate_first nparts data fs sh E0 Hs Hn Hu Hfs)
    as (s1 & E1 & (_ & _ & H3) & _).
  rewrite Ea in E1. injection E1 as <- _.
  destruct (logsumexp_finite (m_logUnNormWeights s_pre) Hf) as (a & ->).
  { intros E. rewrite E in H3. simpl in H3. lia. }
  destruct (of_size_log_finite nparts Hn) as (b & ->). done.
Qed.

(** X5.  Whatever calls are made on a fresh Kalman engine,
    [getLogCondLike] returns 0.0 after them: no call of
    [rbpf_kalman::filter] assigns the member that the getter reads. *)
Theorem kalman_getter_never_moves (samp0 : sssv) (w0 : dbl) (R : Z) (L : nat)
    (calls : list (osv * list functional)) :
  (0 < nparts)%nat -> 1 <= R < 2 ^ 32 -> Z.of_nat L <= 2 ^ 32 ->
  (forall c, c ∈ calls -> length c.2 = L /\ Forall uniform c.2) ->
  exists s' trs,
    run (Kalman.filter nparts) calls
      (Kalman.rbpf_kalman (kalman := kalman) (resampT := resampT) (U := U)
         nparts samp0 w0 R) = Ok (s', trs) /\
    getLogCondLike s' = Fin 0.
Proof.
  intros Hn HR HL Hcalls.
  assert (Hw : wrap32 R = R) by (apply wrap32_small; lia).
  destruct (run_inv (Kalman.filter nparts)
    (fun k s => sized nparts s /\ m_rs s = R /\
                (m_now s <> 0 -> length (m_expectations s) = L) /\
                getLogCondLike s = Fin 0)
    (fun _ _ => True) calls 0%nat
    (Kalman.rbpf_kalman nparts samp0 w0 R))
    as (s' & trs & E & (_ & _ & _ & Hg) & _).
  - split; [apply construct_sized|]. split; [done|]. split; [|done].
    intros Hne. by elim Hne.
  - intros k c t _ Hc (Ts & Tr & Te & Tg).
    destruct (Hcalls c Hc) as (HcL & Hcu).
    assert (Hcal : callable nparts c.2 t).
    { split; [done|]. split; [done|]. split; [done|]. split; [lia|].
      intros Hne. rewrite (Te Hne). lia. }
    assert (Hrs : m_rs t <> 0) by lia.
    destruct (filter_from_ok nparts _ (kalman_assimilates nparts) c.1 c.2 t Hcal Hrs)
      as (_ & _ & t' & tr & _ & Ef & _ & _ & F2 & F3 & _ & _ & F6 & _).
    destruct (kalman_getter_is_stale nparts c.1 c.2 t Hcal Hrs)
      as (t'' & tr'' & Ef' & Hg').
    change (filter_from (Kalman.assimilate nparts) c.1 c.2 t)
      with (Kalman.filter nparts c.1 c.2 t) in Ef.
    rewrite Ef in Ef'. injection Ef' as <- <-.
    exists t', tr. split; [done|]. split; [|done].
    split; [done|]. split; [congruence|]. split; [|congruence].
    intros _. rewrite F6. destruct (m_now t =? 0) eqn:E0; [done|].
    apply Te. by apply Z.eqb_neq.
  - by exists s', trs.
Qed.

End Getters.

(** ** The first call and the constructor's storage *)

Section Storage.
Context {Mod resampT U : Type}.
Context `{!cf_filter Mod} `{!Resampler resampT Mod} `{!rbpf_virtuals U}.
Variable nparts : nat.

Lemma engine_eq (a b : engine Mod resampT U) :
  same_frame b a -> m_derived a = m_derived b ->
  m_p_innerMods a = m_p_innerMods b -> m_p_samps a = m_p_samps b ->
  m_logUnNormWeights a = m_logUnNormWeights b -> a = b.
Proof.
  destruct a, b. unfold same_frame. simpl.
  intros (-> & -> & -> & -> & ->) -> -> -> ->. done.
Qed.

Lemma list_eq_upto {A : Type} (l k : list A) n :
  length l = n -> length k = n ->
  (forall i, (i < n)%nat -> l !! i = k !! i) -> l = k.
Proof.
  intros Hl Hk H. apply list_eq. intros i.
  destruct (decide (i < n)%nat); [by apply H|].
  by rewrite !lookup_ge_None_2 by lia.
Qed.

(** The first-step particle loop overwrites the three arrays: two engines
    that differ only in what their arrays hold leave it alike. *)
Lemma first_loop_overwrites init data (a b : engine Mod resampT U) m :
  same_frame b a -> m_derived a = m_derived b ->
  sized nparts a -> sized nparts b ->
  for_loop (first_body init data) nparts 0%nat (a, m) =
  for_loop (first_body init data) nparts 0%nat (b, m).
Proof.
  intros Hfr Hd Ha Hb.
  set (Q := fun (j : nat) (x y : engine Mod resampT U * dbl) =>
    x.2 = y.2 /\ same_frame y.1 x.1 /\ m_derived x.1 = m_derived y.1 /\
    sized nparts x.1 /\ sized nparts y.1 /\
    forall i, (i < j)%nat ->
      m_p_innerMods x.1 !! i = m_p_innerMods y.1 !! i /\
      m_p_samps x.1 !! i = m_p_samps y.1 !! i /\
      m_logUnNormWeights x.1 !! i = m_logUnNormWeights y.1 !! i).
  apply (res_rel_eq (Q (0 + nparts)%nat)).
  - intros [x mx] [y my] (Em & Hf & Hde & (X1 & X2 & X3) & (Y1 & Y2 & Y3) & Hi).
    simpl in *. rewrite Em. f_equal.
    apply engine_eq; [done|done| | |].
    + apply (list_eq_upto _ _ nparts); [done|done|]. intros i Hlt. by apply Hi.
    + apply (list_eq_upto _ _ nparts); [done|done|]. intros i Hlt. by apply Hi.
    + apply (list_eq_upto _ _ nparts); [done|done|]. intros i Hlt. by apply Hi.
  - apply for_loop_rel.
    + split; [done|]. split; [done|]. split; [done|]. split; [done|].
      split; [done|]. intros i Hi. lia.
    + intros j [x mx] [y my] Hj (Em & Hf & Hde & (X1 & X2 & X3) & (Y1 & Y2 & Y3) & Hi).
      simpl in Em, Hf, Hde, X1, X2, X3, Y1, Y2, Y3, Hi. subst mx.
      unfold first_body. cbn [fst snd]. rewrite Hde.
      rewrite !store_lt by lia. cbn [rbind].
      erewrite !load_Some by (apply list_lookup_insert_eq; lia).
      cbn [rbind]. rewrite !store_lt by lia. cbn [rbind].
      erewrite !load_Some by (apply list_lookup_insert_eq; lia).
      cbn [rbind res_rel]. unfold Q.
      cbn [fst snd set_ensemble m_p_innerMods m_p_samps m_logUnNormWeights
           m_derived].
      split; [done|]. split; [exact Hf|]. split; [done|].
      split; [unfold sized; simpl; by rewrite !length_insert|].
      split; [unfold sized; simpl; by rewrite !length_insert|].
      intros i Hi'. destruct (decide (i = j)) as [->|Hne].
      * by rewrite !list_lookup_insert_eq by lia.
      * rewrite !list_lookup_insert_ne by done. apply Hi. lia.
Qed.

End Storage.

Section StorageOfBoth.
Context {hmm kalman resampT U : Type}.
Context `{!cf_filter hmm} `{!cf_filter kalman}.
Context `{!Resampler resampT hmm} `{!Resampler resampT kalman}.
Context `{!rbpf_virtuals U} `{!Hmm.hooks hmm} `{!Kalman.hooks kalman}.

(** X6.  The first call of [filter] reads nothing of what the constructor
    left in the particle arrays: whatever the uninitialised samples and
    log-weights were, the call gives the same result (the same engine, the
    same events, or the same fault). *)
Theorem first_call_ignores_storage (nparts : nat) (samp0 samp0' : sssv)
    (w0 w0' : dbl) (R : Z) (data : osv) (fs : list functional) :
  Hmm.filter nparts data fs
    (Hmm.rbpf_hmm (hmm := hmm) (resampT := resampT) (U := U)
       nparts samp0 w0 R) =
  Hmm.filter nparts data fs (Hmm.rbpf_hmm nparts samp0' w0' R) /\
  Kalman.filter nparts data fs
    (Kalman.rbpf_kalman (kalman := kalman) (resampT := resampT) (U := U)
       nparts samp0 w0 R) =
  Kalman.filter nparts data fs (Kalman.rbpf_kalman nparts samp0' w0' R).
Proof.
  split.
  - unfold Hmm.filter, Hmm.assimilate, Hmm.rbpf_hmm.
    change (m_now (construct nparts samp0 w0 R) =? 0) with true.
    change (m_now (construct nparts samp0' w0' R) =? 0) with true.
    cbv iota.
    by rewrite (first_loop_overwrites nparts Hmm.init_inner data
                  (construct nparts samp0 w0 R) (construct nparts samp0' w0' R))
      by (done || apply construct_sized).
  - unfold Kalman.filter, Kalman.assimilate, Kalman.rbpf_kalman.
    change (m_now (construct nparts samp0 w0 R) =? 0) with true.
    change (m_now (construct nparts samp0' w0' R) =? 0) with true.
    cbv iota.
    by rewrite (first_loop_overwrites nparts Kalman.init_inner data
                  (construct nparts samp0 w0 R) (construct nparts samp0' w0' R))
      by (done || apply construct_sized).
Qed.

End StorageOfBoth.

(** ** The two halves of the first part of a call

    Either branch of either [filter] is a particle loop and a
    log-likelihood, followed by the loop over [fs] on the engine that they
    leave. *)

Section HmmHalves.
Context {hmm resampT U : Type}.
Context `{!cf_filter hmm} `{!Resampler resampT hmm}.
Context `{!rbpf_virtuals U} `{!Hmm.hooks hmm}.
Variable nparts : nat.

Lemma hmm_assimilate_split data fs (s : engine hmm resampT U) :
  sized nparts s -> (0 < nparts)%nat ->
  exists s1 tr,
    sized nparts s1 /\ m_now s1 = m_now s /\ m_rs s1 = m_rs s /\
    m_resampler s1 = m_resampler s /\
    m_expectations s1 =
      (if m_now s =? 0 then resize [] (length fs) (m_expectations s)
       else m_expectations s) /\
    Hmm.assimilate nparts data fs s =
      (s2 <- expectations_phase nparts fs s1 ;; Ok (s2, tr)).
Proof.
  intros Hs Hn. pose proof Hs as (_ & _ & H3).
  unfold Hmm.assimilate. destruct (m_now s =? 0) eqn:E0.
  - destruct (first_loop_ok nparts Hmm.init_inner data s minus_infinity Hs)
      as (s1 & m & E & Hs1 & (F1 & F2 & F3 & F4 & F5) & _ & _).
    pose proof Hs1 as (_ & _ & H3').
    rewrite E. cbn [rbind fst snd].
    rewrite (sum_exp_ok nparts _ m H3'). cbn [rbind fst snd].
    set (v := dsub (dadd m _) _).
    exists (set_expectations (resize [] (length fs) (m_expectations s1))
              (set_lastLogCondLike v s1)).
    eexists.
    split; [exact Hs1|]. split; [exact F1|]. split; [exact F3|].
    split; [exact F4|].
    split; [cbn [m_expectations set_expectations]; by rewrite F5|].
    reflexivity.
  - rewrite max_element_ok by (intros E; rewrite E in H3; simpl in H3; lia).
    cbn [rbind fst snd].
    destruct (hmm_next_loop_ok nparts data (max_logw (m_logUnNormWeights s)) s
                minus_infinity Hs)
      as (s1 & upd & E & Hs1 & (F1 & F2 & F3 & F4 & F5) & Hws).
    rewrite E. cbn [rbind fst snd]. pose proof Hs1 as (_ & _ & H3').
    rewrite (sum_exp_ok nparts _ _ H3'). cbn [rbind fst snd].
    set (v := dsub (dsub _ _) _).
    exists (set_lastLogCondLike v s1). eexists.
    split; [exact Hs1|]. split; [exact F1|]. split; [exact F3|].
    split; [exact F4|]. split; [exact F5|]. reflexivity.
Qed.

End HmmHalves.

Section KalmanHalves.
Context {kalman resampT U : Type}.
Context `{!cf_filter kalman} `{!Resampler resampT kalman}.
Context `{!rbpf_virtuals U} `{!Kalman.hooks kalman}.
Variable nparts : nat.

Lemma kalman_assimilate_split data fs (s : engine kalman resampT U) :
  sized nparts s -> (0 < nparts)%nat ->
  exists s1 tr,
    sized nparts s1 /\ m_now s1 = m_now s /\ m_rs s1 = m_rs s /\
    m_resampler s1 = m_resampler s /\
    m_expectations s1 =
      (if m_now s =? 0 then resize [] (length fs) (m_expectations s)
       else m_expectations s) /\
    Kalman.assimilate nparts data fs s =
      (s2 <- expectations_phase nparts fs s1 ;; Ok (s2, tr)).
Proof.
  intros Hs Hn. pose proof Hs as (_ & _ & H3).
  unfold Kalman.assimilate. destruct (m_now s =? 0) eqn:E0.
  - destruct (first_loop_ok nparts Kalman.init_inner data s minus_infinity Hs)
      as (s1 & m & E & Hs1 & (F1 & F2 & F3 & F4 & F5) & _ & _).
    pose proof Hs1 as (_ & _ & H3').
    rewrite E. cbn [rbind fst snd].
    rewrite (sum_exp_ok nparts _ m H3'). cbn [rbind fst snd].
    exists (set_expectations (resize [] (length fs) (m_expectations s1)) s1).
    eexists.
    split; [exact Hs1|]. split; [exact F1|]. split; [exact F3|].
    split; [exact F4|].
    split; [cbn [m_expectations set_expectations]; by rewrite F5|].
    reflexivity.
  - rewrite max_element_ok by (intros E; rewrite E in H3; simpl in H3; lia).
    cbn [rbind fst snd].
    destruct (kalman_next_loop_ok nparts data (max_logw (m_logUnNormWeights s)) s
                minus_infinity Hs)
      as (s1 & E & Hs1 & (F1 & F2 & F3 & F4 & F5) & _).
    rewrite E. cbn [rbind fst snd]. pose proof Hs1 as (_ & _ & H3').
    rewrite (sum_exp_ok nparts _ _ H3'). cbn [rbind fst snd].
    exists s1. eexists.
    split; [exact Hs1|]. split; [exact F1|]. split; [exact F3|].
    split; [exact F4|]. split; [exact F5|]. reflexivity.
Qed.

End KalmanHalves.

(** ** The loop over [fs] at the edges *)

Section ExpectationsEdges.
Context {Mod resampT U : Type}.
Context `{!cf_filter Mod} `{!Resampler resampT Mod} `{!rbpf_virtuals U}.
Variable nparts : nat.

(** One round of the loop over [fs] whose [fId] is past the end of the
    cached expectations: the particle loop runs, the write faults. *)
Lemma expect_one_overrun m h (s : engine Mod resampT U) fId :
  sized nparts s -> (0 < nparts)%nat -> uniform h ->
  (length (m_expectations s) <= Z.to_nat fId)%nat ->
  expect_one nparts m h (s, fId) = Ub OutOfBounds.
Proof.
  intros Hs Hn Hu Hf. pose proof Hs as (H1 & H2 & H3).
  unfold expect_one. cbn [fst snd].
  destruct (load_lt (m_p_innerMods s) 0) as (md & Hmd & ->); [lia|].
  destruct (load_lt (m_p_samps s) 0) as (x & Hx & ->); [lia|].
  cbn [rbind].
  assert (Hh : h (getFilterVec md) x = h_at h (m_p_innerMods s) (m_p_samps s) 0)
    by (unfold h_at; by rewrite Hmd, Hx).
  rewrite Hh, (expect_loop_ok nparts h m s Hs Hu). cbn [rbind fst snd].
  unfold store. by rewrite (proj2 (Nat.ltb_ge _ _) Hf).
Qed.

Lemma expect_all_overrun m fs : forall (s : engine Mod resampT U) (k0 : nat),
  sized nparts s -> (0 < nparts)%nat -> Forall uniform fs ->
  (k0 <= length (m_expectations s) < k0 + length fs)%nat ->
  Z.of_nat k0 + Z.of_nat (length fs) <= 2 ^ 32 ->
  for_each (expect_one nparts m) fs (s, Z.of_nat k0) = Ub OutOfBounds.
Proof.
  induction fs as [|h fs IH]; intros s k0 Hs Hn Hu Hlen Hw.
  - simpl in Hlen. lia.
  - inversion Hu as [|? ? Hh Hfs]; subst. cbn [for_each].
    destruct (decide (k0 < length (m_expectations s))%nat) as [Hlt|Hge].
    + rewrite expect_one_ok; [|done|done|done|rewrite Nat2Z.id; lia].
      cbn [rbind]. rewrite Nat2Z.id. set (v := mat_div _ _).
      assert (Ew : wrap32 (Z.of_nat k0 + 1) = Z.of_nat (Datatypes.S k0)).
      { unfold wrap32. simpl length in Hw, Hlen. rewrite Z.mod_small; lia. }
      rewrite Ew. apply IH; [done|done|done| |].
      * cbn [m_expectations set_expectations]. rewrite length_insert.
        simpl length in Hlen. lia.
      * simpl length in Hw. lia.
    + rewrite expect_one_overrun; [done|done|done|done|].
      rewrite Nat2Z.id. lia.
Qed.

(** With more functionals than cached expectations the loop over [fs]
    writes past the end of the vector. *)
Lemma expectations_phase_overrun fs (s : engine Mod resampT U) :
  sized nparts s -> (0 < nparts)%nat -> Forall uniform fs ->
  (length (m_expectations s) < length fs)%nat ->
  Z.of_nat (length fs) <= 2 ^ 32 ->
  expectations_phase nparts fs s = Ub OutOfBounds.
Proof.
  intros Hs Hn Hu Hlen Hw. pose proof Hs as (H1 & H2 & H3).
  unfold expectations_phase.
  rewrite max_element_ok by (intros E; rewrite E in H3; simpl in H3; lia).
  cbn [rbind].
  change 0 with (Z.of_nat 0) at 1.
  rewrite expect_all_overrun; [done|done|done|done|lia|lia].
Qed.

End ExpectationsEdges.

(** ** Whole calls, from the two halves *)

Section Halves.
Context {Mod resampT U : Type}.
Context `{!cf_filter Mod} `{!Resampler resampT Mod} `{!rbpf_virtuals U}.
Variable nparts : nat.
Variable assimilate :
  osv -> list functional -> engine Mod resampT U ->
  res (engine Mod resampT U * list event).
Hypothesis assimilate_split : forall data fs s,
  sized nparts s -> (0 < nparts)%nat ->
  exists s1 tr,
    sized nparts s1 /\ m_now s1 = m_now s /\ m_rs s1 = m_rs s /\
    m_resampler s1 = m_resampler s /\
    m_expectations s1 =
      (if m_now s =? 0 then resize [] (length fs) (m_expectations s)
       else m_expectations s) /\
    assimilate data fs s =
      (s2 <- expectations_phase nparts fs s1 ;; Ok (s2, tr)).

Lemma later_tail_from data fs (s : engine Mod resampT U) :
  callable nparts fs s -> m_rs s <> 0 -> m_now s <> 0 ->
  exists s' tr,
    filter_from assimilate data fs s = Ok (s', tr) /\
    forall i, (length fs <= i)%nat ->
      getExpectations s' !! i = getExpectations s !! i.
Proof.
  intros (Hs & Hn & Hu & Hfs & Hl) Hrs Hnow. specialize (Hl Hnow).
  destruct (assimilate_split data fs s Hs Hn)
    as (s1 & tr1 & Hs1 & N1 & R1 & _ & E1 & Ea).
  rewrite (proj2 (Z.eqb_neq _ _) Hnow) in E1.
  destruct (expectations_phase_ok nparts fs s1) as (es & Ee & _ & _ & Ht);
    [done|done|done|by rewrite E1|done|].
  unfold filter_from. rewrite Ea, Ee. cbn [rbind fst snd].
  destruct (finish_ok nparts (set_expectations es s1) tr1)
    as (s' & Ef & _ & _ & _ & F4 & _); [cbn; congruence|].
  exists s'. eexists. split; [exact Ef|]. intros i Hi.
  unfold getExpectations. rewrite F4. cbn [m_expectations set_expectations].
  rewrite (Ht i Hi). by rewrite E1.
Qed.

Lemma later_overrun_from data fs (s : engine Mod resampT U) :
  sized nparts s -> (0 < nparts)%nat -> Forall uniform fs ->
  Z.of_nat (length fs) <= 2 ^ 32 -> m_now s <> 0 ->
  (length (m_expectations s) < length fs)%nat ->
  filter_from assimilate data fs s = Ub OutOfBounds.
Proof.
  intros Hs Hn Hu Hfs Hnow Hl.
  destruct (assimilate_split data fs s Hs Hn)
    as (s1 & tr1 & Hs1 & N1 & R1 & _ & E1 & Ea).
  rewrite (proj2 (Z.eqb_neq _ _) Hnow) in E1.
  unfold filter_from. rewrite Ea.
  rewrite (expectations_phase_overrun nparts fs s1);
    [done|done|done|done|by rewrite E1|done].
Qed.

Lemma ensemble_at_the_end_from data fs (s : engine Mod resampT U) :
  callable nparts fs s -> m_rs s <> 0 ->
  exists s_pre tr_pre s' tr,
    assimilate data fs s = Ok (s_pre, tr_pre) /\
    filter_from assimilate data fs s = Ok (s', tr) /\
    let out := resampLogWts (m_resampler s) (m_p_innerMods s_pre)
                 (m_p_samps s_pre) (m_logUnNormWeights s_pre) in
    if resampling_due s then
      m_resampler s' = out.1 /\ m_p_innerMods s' = out.2.1.1 /\
      m_p_samps s' = out.2.1.2 /\ m_logUnNormWeights s' = out.2.2
    else
      m_resampler s' = m_resampler s /\
      m_p_innerMods s' = m_p_innerMods s_pre /\
      m_p_samps s' = m_p_samps s_pre /\
      m_logUnNormWeights s' = m_logUnNormWeights s_pre.
Proof.
  intros (Hs & Hn & Hu & Hfs & Hl) Hrs.
  destruct (assimilate_split data fs s Hs Hn)
    as (s1 & tr1 & Hs1 & N1 & R1 & S1 & E1 & Ea).
  destruct (expectations_phase_ok nparts fs s1) as (es & Ee & _);
    [done|done|done| |done|].
  { rewrite E1. destruct (m_now s =? 0) eqn:E0.
    - by rewrite length_resize.
    - apply Hl. by apply Z.eqb_neq. }
  rewrite Ee in Ea. cbn [rbind] in Ea.
  exists (set_expectations es s1), tr1.
  unfold filter_from. rewrite Ea. cbn [rbind fst snd].
  unfold finish, resample_gate, resampling_due.
  cbn [m_rs m_now m_resampler m_p_innerMods m_p_samps m_logUnNormWeights
       set_expectations].
  rewrite N1, R1, S1, (proj2 (Z.eqb_neq _ _) Hrs).
  destruct (wrap32 (m_now s + 1) mod m_rs s =? 0); cbn [rbind fst snd].
  - do 2 eexists. split; [done|]. split; [done|]. cbv zeta. done.
  - do 2 eexists. split; [done|]. split; [done|]. cbv zeta. done.
Qed.

End Halves.

Section LaterCalls.
Context {hmm kalman resampT U : Type}.
Context `{!cf_filter hmm} `{!cf_filter kalman}.
Context `{!Resampler resampT hmm} `{!Resampler resampT kalman}.
Context `{!rbpf_virtuals U} `{!Hmm.hooks hmm} `{!Kalman.hooks kalman}.
Variable nparts : nat.
Variables (data : osv) (fs : list functional).

(** X7.  A later call with fewer functionals than the first call had
    overwrites the first [length fs] cached expectations only:
    [getExpectations] still returns the old matrices behind them. *)
Theorem later_call_keeps_the_tail
    (sh : engine hmm resampT U) (sk : engine kalman resampT U) :
  callable nparts fs sh -> callable nparts fs sk ->
  m_rs sh <> 0 -> m_rs sk <> 0 -> m_now sh <> 0 -> m_now sk <> 0 ->
  (exists s' tr,
     Hmm.filter nparts data fs sh = Ok (s', tr) /\
     length (getExpectations s') = length (getExpectations sh) /\
     forall i, (length fs <= i)%nat ->
       getExpectations s' !! i = getExpectations sh !! i) /\
  (exists s' tr,
     Kalman.filter nparts data fs sk = Ok (s', tr) /\
     length (getExpectations s') = length (getExpectations sk) /\
     forall i, (length fs <= i)%nat ->
       getExpectations s' !! i = getExpectations sk !! i).
Proof.
  intros Hh Hk Rh Rk Nh Nk. split.
  - destruct (later_tail_from nparts _ (hmm_assimilate_split nparts)
                data fs sh Hh Rh Nh) as (s' & tr & Ef & Ht).
    exists s', tr. split; [exact Ef|]. split; [|exact Ht].
    destruct (filter_from_ok nparts _ (hmm_assimilates nparts) data fs sh Hh Rh)
      as (_ & _ & s'' & tr'' & _ & Ef' & _ & _ & _ & _ & _ & _ & Hl & _).
    rewrite Ef in Ef'. injection Ef' as <- _.
    unfold getExpectations. rewrite Hl.
    by rewrite (proj2 (Z.eqb_neq _ _) Nh).
  - destruct (later_tail_from nparts _ (kalman_assimilate_split nparts)
                data fs sk Hk Rk Nk) as (s' & tr & Ef & Ht).
    exists s', tr. split; [exact Ef|]. split; [|exact Ht].
    destruct (filter_from_ok nparts _ (kalman_assimilates nparts) data fs sk Hk Rk)
      as (_ & _ & s'' & tr'' & _ & Ef' & _ & _ & _ & _ & _ & _ & Hl & _).
    rewrite Ef in Ef'. injection Ef' as <- _.
    unfold getExpectations. rewrite Hl.
    by rewrite (proj2 (Z.eqb_neq _ _) Nk).
Qed.

(** X8.  A later call with more functionals than the engine has cached
    expectations does not return: it ends in an access past the end of a
    container, the write of [m_expectations[fId]] in the loop over [fs];
    only the first call resizes the vector. *)
Theorem later_call_overruns
    (sh : engine hmm resampT U) (sk : engine kalman resampT U) :
  sized nparts sh -> sized nparts sk -> (0 < nparts)%nat ->
  Forall uniform fs -> Z.of_nat (length fs) <= 2 ^ 32 ->
  m_now sh <> 0 -> m_now sk <> 0 ->
  (length (getExpectations sh) < length fs)%nat ->
  (length (getExpectations sk) < length fs)%nat ->
  Hmm.filter nparts data fs sh = Ub OutOfBounds /\
  Kalman.filter nparts data fs sk = Ub OutOfBounds.
Proof.
  intros Hh Hk Hn Hu Hfs Nh Nk Lh Lk. split.
  - by apply (later_overrun_from nparts _ (hmm_assimilate_split nparts)).
  - by apply (later_overrun_from nparts _ (kalman_assimilate_split nparts)).
Qed.

(** X9.  What a call leaves in the particle arrays.  When the resampling
    test of the call holds, the arrays and the resampler are what
    [resampLogWts] made of the propagated ensemble, called with the
    resampler as the call found it; otherwise the call returns the
    propagated ensemble and leaves the resampler alone. *)
Theorem ensemble_at_the_end
    (sh : engine hmm resampT U) (sk : engine kalman resampT U) :
  callable nparts fs sh -> callable nparts fs sk ->
  m_rs sh <> 0 -> m_rs sk <> 0 ->
  (exists s_pre tr_pre s' tr,
     Hmm.assimilate nparts data fs sh = Ok (s_pre, tr_pre) /\
     Hmm.filter nparts data fs sh = Ok (s', tr) /\
     let out := resampLogWts (m_resampler sh) (m_p_innerMods s_pre)
                  (m_p_samps s_pre) (m_logUnNormWeights s_pre) in
     if resampling_due sh then
       m_resampler s' = out.1 /\ m_p_innerMods s' = out.2.1.1 /\
       m_p_samps s' = out.2.1.2 /\ m_logUnNormWeights s' = out.2.2
     else
       m_resampler s' = m_resampler sh /\
       m_p_innerMods s' = m_p_innerMods s_pre /\
       m_p_samps s' = m_p_samps s_pre /\
       m_logUnNormWeights s' = m_logUnNormWeights s_pre) /\
  (exists s_pre tr_pre s' tr,
     Kalman.assimilate nparts data fs sk = Ok (s_pre, tr_pre) /\
     Kalman.filter nparts data fs sk = Ok (s', tr) /\
     let out := resampLogWts (m_resampler sk) (m_p_innerMods s_pre)
                  (m_p_samps s_pre) (m_logUnNormWeights s_pre) in
     if resampling_due sk then
       m_resampler s' = out.1 /\ m_p_innerMods s' = out.2.1.1 /\
       m_p_samps s' = out.2.1.2 /\ m_logUnNormWeights s' = out.2.2
     else
       m_resampler s' = m_resampler sk /\
       m_p_innerMods s' = m_p_innerMods s_pre /\
       m_p_samps s' = m_p_samps s_pre /\
       m_logUnNormWeights s' = m_logUnNormWeights s_pre).
Proof.
  intros Hh Hk Rh Rk. split.
  - exact (ensemble_at_the_end_from nparts _ (hmm_assimilate_split nparts)
             data fs sh Hh Rh).
  - exact (ensemble_at_the_end_from nparts _ (kalman_assimilate_split nparts)
             data fs sk Hk Rk).
Qed.

End LaterCalls.

(** ** A largest log-weight that is not finite *)

Lemma fold_max_elem t : forall x,
  let r := fold_left (fun largest y => if dlt largest y then y else largest) t x in
  r = x \/ r ∈ t.
Proof.
  induction t as [|y t IH]; intros x; simpl; [by left|].
  destruct (dlt x y).
  - destruct (IH y) as [E|E]; right; [rewrite E; apply list_elem_of_here|].
    by apply list_elem_of_further.
  - destruct (IH x) as [E|E]; [by left|right]. by apply list_elem_of_further.
Qed.

(** [*std::max_element] is one of the elements. *)
Lemma max_logw_elem ws : ws <> [] -> max_logw ws ∈ ws.
Proof.
  destruct ws as [|x t]; [done|]. intros _. simpl.
  destruct (fold_max_elem t x) as [E|E].
  - rewrite E. apply list_elem_of_here.
  - by apply list_elem_of_further.
Qed.

Lemma dsub_self_nonfinite m : ~ finite m -> dsub m m = NaN.
Proof. destruct m; simpl; try done; intros H; by elim H. Qed.

Lemma sum_exp_shifted_nonfinite ws :
  ws <> [] -> ~ finite (max_logw ws) ->
  sum_exp_shifted ws (max_logw ws) = NaN.
Proof.
  intros Hne Hm. pose proof (max_logw_elem ws Hne) as Hin.
  remember (max_logw ws) as m eqn:Em. clear Em.
  apply list_elem_of_split in Hin as (l1 & l2 & ->).
  unfold sum_exp_shifted. rewrite fold_left_app. cbn [fold_left].
  rewrite (dsub_self_nonfinite m Hm). cbn [dexp].
  by rewrite dadd_nan_r, fold_sum_exp_nan.
Qed.

(** The log-sum-exp is NaN as soon as the largest log-weight is an infinity
    or NaN: the largest log-weight minus itself is NaN. *)
Lemma logsumexp_nonfinite ws :
  ws <> [] -> ~ finite (max_logw ws) -> logsumexp ws = NaN.
Proof.
  intros Hne Hm. unfold logsumexp, logsumexp_at.
  rewrite (sum_exp_shifted_nonfinite ws Hne Hm). cbn [dlog].
  apply dadd_nan_r.
Qed.

Lemma denom_upto_nan ws m i :
  shifted_weight ws m i = NaN ->
  forall n, (i < n)%nat -> denom_upto ws m n = NaN.
Proof.
  intros Hi. induction n as [|n IH]; intros Hn; [lia|].
  rewrite denom_upto_S. destruct (decide (i = n)) as [->|Hne].
  - by rewrite Hi, dadd_nan_r.
  - by rewrite IH by lia.
Qed.

Lemma mat_div_nan (a : Mat) : Forall (eq NaN) (mat_div a NaN).
Proof.
  unfold mat_div. apply Forall_fmap, Forall_true. intros x. by destruct x.
Qed.

Lemma log_domain_average_nonfinite {Mod : Type} `{!cf_filter Mod}
    (h : functional) (mods : list Mod) (samps : list sssv) (ws : list dbl) :
  ws <> [] -> ~ finite (max_logw ws) ->
  Forall (eq NaN) (log_domain_average h mods samps ws).
Proof.
  intros Hne Hm. unfold log_domain_average.
  destruct (proj1 (list_elem_of_lookup _ _) (max_logw_elem ws Hne)) as (i & Ei).
  rewrite (denom_upto_nan ws (max_logw ws) i).
  - apply mat_div_nan.
  - unfold shifted_weight. rewrite Ei.
    change (dexp (dsub (max_logw ws) (max_logw ws)) = NaN).
    by rewrite (dsub_self_nonfinite _ Hm).
  - by apply lookup_lt_Some in Ei.
Qed.

Section Degenerate.
Context {hmm kalman resampT U : Type}.
Context `{!cf_filter hmm} `{!cf_filter kalman}.
Context `{!Resampler resampT hmm} `{!Resampler resampT kalman}.
Context `{!rbpf_virtuals U} `{!Hmm.hooks hmm} `{!Kalman.hooks kalman}.
Variable nparts : nat.
Variables (data : osv) (fs : list functional).

(** X10.  Neither [filter] guards the largest log-weight.  When the largest
    of the log-weights that a call holds before it resamples is an infinity
    or NaN (so, when every particle has log-weight minus infinity), the call
    still returns, and every coefficient of every expectation it caches is
    NaN; in [rbpf_hmm], [getLogCondLike] returns NaN as well. *)
Theorem nonfinite_maximum_gives_nan
    (sh : engine hmm resampT U) (sk : engine kalman resampT U) :
  callable nparts fs sh -> callable nparts fs sk ->
  m_rs sh <> 0 -> m_rs sk <> 0 ->
  (exists s_pre tr_pre s' tr,
     Hmm.assimilate nparts data fs sh = Ok (s_pre, tr_pre) /\
     Hmm.filter nparts data fs sh = Ok (s', tr) /\
     (~ finite (max_logw (m_logUnNormWeights s_pre)) ->
      getLogCondLike s' = NaN /\
      forall k, (k < length fs)%nat ->
        exists e, getExpectations s' !! k = Some e /\ Forall (eq NaN) e)) /\
  (exists s_pre tr_pre s' tr,
     Kalman.assimilate nparts data fs sk = Ok (s_pre, tr_pre) /\
     Kalman.filter nparts data fs sk = Ok (s', tr) /\
     (~ finite (max_logw (m_logUnNormWeights s_pre)) ->
      forall k, (k < length fs)%nat ->
        exists e, getExpectations s' !! k = Some e /\ Forall (eq NaN) e)).
Proof.
  intros Hh Hk Rh Rk.
  assert (Hne : forall (Mod : Type) (s : engine Mod resampT U),
            sized nparts s -> (0 < nparts)%nat -> m_logUnNormWeights s <> []).
  { intros Mod s (_ & _ & H3) Hn E. rewrite E in H3. simpl in H3. lia. }
  split.
  - destruct (filter_from_ok nparts _ (hmm_assimilates nparts) data fs sh Hh Rh)
      as (s_pre & tr_pre & s' & tr & Ea & Ef & _ & _ & _ & _ & _ & _ & _ & He & Hsz).
    destruct (hmm_getter_after_call nparts data fs sh Hh Rh)
      as (s_pre' & tr_pre' & s'' & tr'' & Ea' & Ef' & Hg).
    change (filter_from (Hmm.assimilate nparts) data fs sh)
      with (Hmm.filter nparts data fs sh) in Ef.
    rewrite Ea in Ea'. injection Ea' as <- <-.
    rewrite Ef in Ef'. injection Ef' as <- <-.
    exists s_pre, tr_pre, s', tr. split; [done|]. split; [done|].
    intros Hm. destruct Hh as (_ & Hn & _).
    pose proof (Hne _ s_pre Hsz Hn) as Hws. split.
    + rewrite Hg, (logsumexp_nonfinite _ Hws Hm). done.
    + intros k Hk'. destruct (lookup_lt_is_Some_2 fs k Hk') as (h & Eh).
      eexists. split; [exact (He k h Eh)|].
      by apply log_domain_average_nonfinite.
  - destruct (filter_from_ok nparts _ (kalman_assimilates nparts) data fs sk Hk Rk)
      as (s_pre & tr_pre & s' & tr & Ea & Ef & _ & _ & _ & _ & _ & _ & _ & He & Hsz).
    exists s_pre, tr_pre, s', tr. split; [done|]. split; [done|].
    intros Hm. destruct Hk as (_ & Hn & _).
    pose proof (Hne _ s_pre Hsz Hn) as Hws.
    intros k Hk'. destruct (lookup_lt_is_Some_2 fs k Hk') as (h & Eh).
    eexists. split; [exact (He k h Eh)|].
    by apply log_domain_average_nonfinite.
Qed.

End Degenerate.

(** ** A functional that is constant *)

Lemma zero_is_scaled (v : Mat) :
  Forall finite v -> Zero (length v) = dmul (Fin 0) <$> v.
Proof.
  unfold Zero. induction 1 as [|x v Hx Hv IH]; [done|].
  destruct x as [| | |r]; try done. cbn. rewrite <- IH.
  f_equal. f_equal. lra.
Qed.

Lemma scaled_sum (d q : R) (v : Mat) :
  Forall finite v ->
  zip_with dadd (dmul (Fin d) <$> v) (dmul (Fin q) <$> v) =
  dmul (Fin (d + q)) <$> v.
Proof.
  induction 1 as [|x v Hx Hv IH]; [done|].
  destruct x as [| | |r]; try done. cbn. rewrite <- IH.
  f_equal. f_equal. lra.
Qed.

Lemma scaled_quotient (d : R) (v : Mat) :
  (0 < d)%R -> Forall finite v -> mat_div (dmul (Fin d) <$> v) (Fin d) = v.
Proof.
  intros Hd. unfold mat_div. induction 1 as [|x v Hx Hv IH]; [done|].
  destruct x as [| | |r]; try done. cbn. rewrite IH. f_equal.
  destruct (Req_dec_T d 0) as [E|_]; [lra|]. f_equal. field. lra.
Qed.

Section ConstantFunctional.
Context {Mod : Type} `{!cf_filter Mod}.
Variables (v : Mat) (mods : list Mod) (samps : list sssv) (ws : list dbl).
Hypothesis v_finite : Forall finite v.
Hypothesis ws_finite : Forall finite ws.

Lemma numer_upto_constant m n :
  finite m -> (n <= length ws)%nat ->
  exists d,
    denom_upto ws m n = Fin d /\
    numer_upto (fun _ _ => v) mods samps ws m n = dmul (Fin d) <$> v.
Proof.
  intros Hm. induction n as [|n IH]; intros Hn.
  - exists 0%R. split; [done|]. unfold numer_upto, h_at. cbn [seq fold_left].
    by apply zero_is_scaled.
  - destruct IH as (d & Ed & En); [lia|].
    destruct (shifted_weight_pos ws m ws_finite Hm n) as (q & Eq & _); [lia|].
    exists (d + q)%R. rewrite denom_upto_S, numer_upto_S, Ed, En, Eq.
    split; [done|]. unfold mat_scale, h_at. by apply scaled_sum.
Qed.

(** The weighted average of a constant is the constant: the shifted weights
    are divided by their own sum. *)
Lemma weighted_average_constant :
  ws <> [] -> weighted_average (fun _ _ => v) mods samps ws = v.
Proof.
  intros Hne. unfold weighted_average.
  pose proof (max_logw_finite ws ws_finite Hne) as Hm.
  destruct (numer_upto_constant (max_logw ws) (length ws) Hm) as (d & Ed & En);
    [lia|].
  destruct (denom_upto_pos ws (max_logw ws) ws_finite Hm (length ws))
    as (r & Er & _ & Hr); [lia|].
  rewrite Ed in Er. injection Er as <-.
  rewrite Ed, En. apply scaled_quotient; [|done].
  apply Hr. destruct ws; [done|simpl; lia].
Qed.

End ConstantFunctional.

Section Normalised.
Context {hmm kalman resampT U : Type}.
Context `{!cf_filter hmm} `{!cf_filter kalman}.
Context `{!Resampler resampT hmm} `{!Resampler resampT kalman}.
Context `{!rbpf_virtuals U} `{!Hmm.hooks hmm} `{!Kalman.hooks kalman}.
Variable nparts : nat.
Variables (data : osv) (fs : list functional).

(** X11.  The cached expectations are self-normalised.  For a functional
    that returns the same matrix [v] of finite, non-negative coefficients at
    every particle, a call whose log-weights before resampling are finite
    caches [v] itself, whatever the weights are. *)
Theorem constant_functional_is_reproduced (k : nat) (v : Mat)
    (sh : engine hmm resampT U) (sk : engine kalman resampT U) :
  callable nparts fs sh -> callable nparts fs sk ->
  m_rs sh <> 0 -> m_rs sk <> 0 ->
  fs !! k = Some (fun _ _ => v) ->
  Forall finite v -> Forall nonneg v ->
  (exists s_pre tr_pre s' tr,
     Hmm.assimilate nparts data fs sh = Ok (s_pre, tr_pre) /\
     Hmm.filter nparts data fs sh = Ok (s', tr) /\
     (Forall finite (m_logUnNormWeights s_pre) ->
      getExpectations s' !! k = Some v)) /\
  (exists s_pre tr_pre s' tr,
     Kalman.assimilate nparts data fs sk = Ok (s_pre, tr_pre) /\
     Kalman.filter nparts data fs sk = Ok (s', tr) /\
     (Forall finite (m_logUnNormWeights s_pre) ->
      getExpectations s' !! k = Some v)).
Proof.
  intros Hh Hk Rh Rk Ek Hv Hnn.
  assert (Hne : forall (Mod : Type) (s : engine Mod resampT U),
            sized nparts s -> (0 < nparts)%nat -> m_logUnNormWeights s <> []).
  { intros Mod s (_ & _ & H3) Hn E. rewrite E in H3. simpl in H3. lia. }
  assert (Hu : uniform (fun _ _ => v)) by (by intros p x p' x').
  split.
  - destruct (filter_from_ok nparts _ (hmm_assimilates nparts) data fs sh Hh Rh)
      as (s_pre & tr_pre & s' & tr & Ea & Ef & _ & _ & _ & _ & _ & _ & _ & He & Hsz).
    exists s_pre, tr_pre, s', tr. split; [done|]. split; [done|].
    intros Hws. destruct Hh as (_ & Hn & _).
    unfold getExpectations. rewrite (He k _ Ek). f_equal.
    rewrite log_domain_average_nonneg by done.
    apply weighted_average_constant; [done|done|]. by apply Hne.
  - destruct (filter_from_ok nparts _ (kalman_assimilates nparts) data fs sk Hk Rk)
      as (s_pre & tr_pre & s' & tr & Ea & Ef & _ & _ & _ & _ & _ & _ & _ & He & Hsz).
    exists s_pre, tr_pre, s', tr. split; [done|]. split; [done|].
    intros Hws. destruct Hk as (_ & Hn & _).
    unfold getExpectations. rewrite (He k _ Ek). f_equal.
    rewrite log_domain_average_nonneg by done.
    apply weighted_average_constant; [done|done|]. by apply Hne.
Qed.

End Normalised.

(** ** The two maxima of the first step *)

Lemma running_max_not_nan ws : forall m0, m0 <> NaN -> running_max ws m0 <> NaN.
Proof.
  unfold running_max. induction ws as [|w ws IH]; intros m0 Hm0; [done|].
  cbn [fold_left]. apply IH. destruct (dgt w m0) eqn:E; [|done].
  intros ->. by destruct m0.
Qed.

Lemma max_logw_nan_head t : max_logw (NaN :: t) = NaN.
Proof. cbn [max_logw]. induction t as [|y t IH]; [done|apply IH]. Qed.

Lemma running_max_head x t :
  x <> NaN -> running_max (x :: t) minus_infinity = max_logw (x :: t).
Proof.
  intros Hx. unfold running_max, max_logw. cbn [fold_left].
  rewrite minus_infinity_eq. by destruct x.
Qed.

Section FirstMaximum.
Context {Mod resampT U : Type}.
Context `{!cf_filter Mod} `{!Resampler resampT Mod} `{!rbpf_virtuals U}.
Variable nparts : nat.

(** X12.  The first branch of [filter] takes the maximum of the new
    log-weights twice: the particle loop keeps a running maximum [m1]
    ([if (w > m1) m1 = w], from minus infinity) for the log-likelihood, and
    the expectations use [*std::max_element].  The running maximum is never
    NaN, and the two are the same number exactly when the log-weight of
    particle 0 is not NaN. *)
Theorem first_loop_maximum (init : sssv -> osv -> Mod) (data : osv)
    (s : engine Mod resampT U) :
  sized nparts s -> (0 < nparts)%nat ->
  exists s' m,
    for_loop (first_body init data) nparts 0%nat (s, minus_infinity) =
      Ok (s', m) /\
    m <> NaN /\
    (max_element (m_logUnNormWeights s') = Ok m <->
     m_logUnNormWeights s' !! 0%nat <> Some NaN).
Proof.
  intros Hs Hn.
  destruct (first_loop_ok nparts init data s minus_infinity Hs)
    as (s' & m & E & (_ & _ & H3) & _ & _ & Hm).
  exists s', m. split; [exact E|].
  assert (Hnan : m <> NaN).
  { rewrite Hm. apply running_max_not_nan. by rewrite minus_infinity_eq. }
  split; [exact Hnan|].
  destruct (m_logUnNormWeights s') as [|x t] eqn:Ews; [simpl in H3; lia|].
  rewrite max_element_ok by done. cbn [lookup list_lookup]. split.
  - intros [= Emax] [= ->]. apply Hnan. rewrite <- Emax.
    apply (max_logw_nan_head t).
  - intros Hx. f_equal. rewrite Hm. symmetry. apply running_max_head.
    intros ->. by apply Hx.
Qed.

End FirstMaximum.

(** ** The call after the clock has wrapped *)

Section Restart.
Context {hmm kalman resampT U : Type}.
Context `{!cf_filter hmm} `{!cf_filter kalman}.
Context `{!Resampler resampT hmm} `{!Resampler resampT kalman}.
Context `{!rbpf_virtuals U} `{!Hmm.hooks hmm} `{!Kalman.hooks kalman}.
Variable nparts : nat.

Lemma restart_from
    {Mod : Type} `{!cf_filter Mod} `{!Resampler resampT Mod}
    (assimilate : osv -> list functional -> engine Mod resampT U ->
                  res (engine Mod resampT U * list event))
    (Ha : assimilates nparts assimilate)
    data fs data2 fs2 (s : engine Mod resampT U) :
  callable nparts fs s -> m_rs s <> 0 -> m_now s = 2 ^ 32 - 1 ->
  Forall uniform fs2 -> Z.of_nat (length fs2) <= 2 ^ 32 ->
  exists s1 tr1 s2 tr2,
    filter_from assimilate data fs s = Ok (s1, tr1) /\
    filter_from assimilate data2 fs2 s1 = Ok (s2, tr2) /\
    m_now s1 = 0 /\ m_now s2 = 1 /\
    length (getExpectations s2) = length fs2.
Proof.
  intros Hc Hrs Hnow Hu2 Hl2. pose proof Hc as (_ & Hn & _).
  destruct (filter_from_ok nparts _ Ha data fs s Hc Hrs)
    as (_ & _ & s1 & tr1 & _ & Ef & _ & N1 & R1 & S1 & _).
  rewrite Hnow in N1. change (wrap32 (2 ^ 32 - 1 + 1)) with 0 in N1.
  assert (Hc1 : callable nparts fs2 s1).
  { split; [done|]. split; [done|]. split; [done|]. split; [done|].
    intros Hne. by elim Hne. }
  destruct (filter_from_ok nparts _ Ha data2 fs2 s1 Hc1)
    as (_ & _ & s2 & tr2 & _ & Ef2 & _ & N2 & _ & _ & _ & _ & L2 & _);
    [congruence|].
  exists s1, tr1, s2, tr2. split; [done|]. split; [done|]. split; [done|].
  rewrite N1 in N2, L2. split; [exact N2|exact L2].
Qed.

(** X13.  The call made when the clock stands at 2^32 - 1 leaves it at
    zero, and the call after that is a first call again: it takes the
    first-step branch, so it returns for any number of functionals, also
    more than there are cached expectations, resizes the cached vector to
    that number and leaves the clock at one. *)
Theorem clock_wrap_restarts (data : osv) (fs : list functional)
    (data2 : osv) (fs2 : list functional)
    (sh : engine hmm resampT U) (sk : engine kalman resampT U) :
  callable nparts fs sh -> callable nparts fs sk ->
  m_rs sh <> 0 -> m_rs sk <> 0 ->
  m_now sh = 2 ^ 32 - 1 -> m_now sk = 2 ^ 32 - 1 ->
  Forall uniform fs2 -> Z.of_nat (length fs2) <= 2 ^ 32 ->
  (exists s1 tr1 s2 tr2,
     Hmm.filter nparts data fs sh = Ok (s1, tr1) /\
     Hmm.filter nparts data2 fs2 s1 = Ok (s2, tr2) /\
     m_now s1 = 0 /\ m_now s2 = 1 /\
     length (getExpectations s2) = length fs2) /\
  (exists s1 tr1 s2 tr2,
     Kalman.filter nparts data fs sk = Ok (s1, tr1) /\
     Kalman.filter nparts data2 fs2 s1 = Ok (s2, tr2) /\
     m_now s1 = 0 /\ m_now s2 = 1 /\
     length (getExpectations s2) = length fs2).
Proof.
  intros Hh Hk Rh Rk Nh Nk Hu2 Hl2. split.
  - exact (restart_from _ (hmm_assimilates nparts) data fs data2 fs2 sh
             Hh Rh Nh Hu2 Hl2).
  - exact (restart_from _ (kalman_assimilates nparts) data fs data2 fs2 sk
             Hk Rk Nk Hu2 Hl2).
Qed.

End Restart.

(** ** The particle loops in closed form

    The samplers [q1Samp] and [qSamp] are members of the derived object and
    may change it (a random number generator, usually): the loops call them
    once per particle, in the order of the particles, each call on the
    object as the call before left it. *)

Section FirstLoopInOrder.
Context {Mod resampT U : Type}.
Context `{!cf_filter Mod} `{!Resampler resampT Mod} `{!rbpf_virtuals U}.
Variable nparts : nat.

Lemma first_loop_in_order (init : sssv -> osv -> Mod) data
    (s : engine Mod resampT U) m0 :
  sized nparts s ->
  exists s' m,
    for_loop (first_body init data) nparts 0%nat (s, m0) = Ok (s', m) /\
    m_derived s' =
      Nat.iter nparts (fun u => (q1Samp data u).2) (m_derived s) /\
    forall i, (i < nparts)%nat ->
      let u := Nat.iter i (fun u => (q1Samp data u).2) (m_derived s) in
      let x := (q1Samp data u).1 in
      m_p_samps s' !! i = Some x /\
      m_p_innerMods s' !! i = Some (init x data) /\
      m_logUnNormWeights s' !! i = Some (first_weight data (init x data) x).
Proof.
  intros Hs.
  destruct (for_loop_inv (first_body init data)
    (fun j st =>
       sized nparts st.1 /\
       m_derived st.1 =
         Nat.iter j (fun u => (q1Samp data u).2) (m_derived s) /\
       forall i, (i < j)%nat ->
         let u := Nat.iter i (fun u => (q1Samp data u).2) (m_derived s) in
         let x := (q1Samp data u).1 in
         m_p_samps st.1 !! i = Some x /\
         m_p_innerMods st.1 !! i = Some (init x data) /\
         m_logUnNormWeights st.1 !! i =
           Some (first_weight data (init x data) x))
    nparts 0%nat (s, m0)) as ([s' m] & E & _ & Hd & Hw).
  - split; [done|]. split; [done|]. intros i Hi. lia.
  - intros j [t m] Hj (Hsz & Hd & Hw). cbn [fst snd] in Hsz, Hd, Hw.
    destruct Hsz as (H1 & H2 & H3).
    unfold first_body. cbn [fst snd].
    rewrite (store_lt (m_p_samps t)) by lia. cbn [rbind].
    rewrite (store_lt (m_p_innerMods t)) by lia. cbn [rbind].
    rewrite (load_Some _ j (init (q1Samp data (m_derived t)).1 data))
      by (apply list_lookup_insert_eq; lia). cbn [rbind].
    rewrite (load_Some _ j (q1Samp data (m_derived t)).1)
      by (apply list_lookup_insert_eq; lia). cbn [rbind].
    rewrite (store_lt (m_logUnNormWeights t)) by lia. cbn [rbind].
    erewrite load_Some by (apply list_lookup_insert_eq; lia). cbn [rbind].
    eexists. split; [done|].
    cbn [fst snd set_ensemble m_p_innerMods m_p_samps m_logUnNormWeights
         m_derived].
    split; [unfold sized; simpl; by rewrite !length_insert|].
    split; [cbn [Nat.iter nat_rect]; by rewrite Hd|].
    intros i Hi. destruct (decide (i = j)) as [->|Hne].
    + cbv zeta. rewrite !list_lookup_insert_eq by lia. by rewrite <- Hd.
    + rewrite !list_lookup_insert_ne by done. apply Hw. lia.
  - exists s', m. by rewrite E.
Qed.

(** The loop over [fs] writes cached expectations and nothing else. *)
Lemma expectations_phase_Ok_ensemble fs (s s' : engine Mod resampT U) :
  expectations_phase nparts fs s = Ok s' ->
  m_p_innerMods s' = m_p_innerMods s /\ m_p_samps s' = m_p_samps s /\
  m_logUnNormWeights s' = m_logUnNormWeights s /\ m_derived s' = m_derived s.
Proof.
  unfold expectations_phase. intros E. bind_inv E. inversion E; subst.
  match goal with
  | H : for_each _ _ _ = Ok ?r |- _ =>
      apply (for_each_pres _
               (fun st => m_p_innerMods st.1 = m_p_innerMods s /\
                          m_p_samps st.1 = m_p_samps s /\
                          m_logUnNormWeights st.1 = m_logUnNormWeights s /\
                          m_derived st.1 = m_derived s)) in H; [done| |done]
  end.
  intros h [x ix] [y iy] Hx Hy. unfold expect_one in Hy. simpl in Hy.
  bind_inv Hy. inversion Hy; subst. done.
Qed.

End FirstLoopInOrder.

Section HmmLoopInOrder.
Context {hmm resampT U : Type}.
Context `{!cf_filter hmm} `{!Resampler resampT hmm}.
Context `{!rbpf_virtuals U} `{!Hmm.hooks hmm}.
Variable nparts : nat.

Lemma hmm_next_loop_in_order data m2 (s : engine hmm resampT U) acc :
  sized nparts s ->
  exists s' acc',
    for_loop (Hmm.next_body data m2) nparts 0%nat (s, acc) = Ok (s', acc') /\
    m_derived s' =
      fold_left (fun u x => (qSamp x data u).2) (m_p_samps s) (m_derived s) /\
    forall i, (i < nparts)%nat -> exists x_old md_old,
      m_p_samps s !! i = Some x_old /\ m_p_innerMods s !! i = Some md_old /\
      let u := fold_left (fun u x => (qSamp x data u).2)
                 (take i (m_p_samps s)) (m_derived s) in
      let x := (qSamp x_old data u).1 in
      m_p_samps s' !! i = Some x /\
      m_p_innerMods s' !! i = Some (Hmm.updateFSHMM md_old data x).
Proof.
  intros Hs. pose proof Hs as (S1 & S2 & S3).
  destruct (for_loop_inv (Hmm.next_body data m2)
    (fun j st =>
       sized nparts st.1 /\
       m_derived st.1 =
         fold_left (fun u x => (qSamp x data u).2) (take j (m_p_samps s))
           (m_derived s) /\
       (forall i, (i < j)%nat -> exists x_old md_old,
          m_p_samps s !! i = Some x_old /\ m_p_innerMods s !! i = Some md_old /\
          let u := fold_left (fun u x => (qSamp x data u).2)
                     (take i (m_p_samps s)) (m_derived s) in
          let x := (qSamp x_old data u).1 in
          m_p_samps st.1 !! i = Some x /\
          m_p_innerMods st.1 !! i = Some (Hmm.updateFSHMM md_old data x)) /\
       (forall i, (j <= i)%nat ->
          m_p_samps st.1 !! i = m_p_samps s !! i /\
          m_p_innerMods st.1 !! i = m_p_innerMods s !! i))
    nparts 0%nat (s, acc)) as ([s' acc'] & E & _ & Hd & Hlt & _).
  - split; [done|]. split; [done|]. split; [intros i Hi; lia|done].
  - intros j [t [[sd m1] upd]] Hj (Hsz & Hd & Hlt & Hge).
    cbn [fst snd] in Hsz, Hd, Hlt, Hge. destruct Hsz as (T1 & T2 & T3).
    destruct (lookup_lt_is_Some_2 (m_p_samps s) j) as [x_old Ex]; [lia|].
    destruct (lookup_lt_is_Some_2 (m_p_innerMods s) j) as [md_old Emd]; [lia|].
    destruct (lookup_lt_is_Some_2 (m_logUnNormWeights t) j) as [w Ew]; [lia|].
    destruct (Hge j) as (Gx & Gm); [lia|]. rewrite Ex in Gx. rewrite Emd in Gm.
    unfold Hmm.next_body. cbn [fst snd].
    rewrite (load_Some _ _ _ Gx). cbn [rbind].
    rewrite (load_Some _ _ _ Gm). cbn [rbind].
    rewrite store_lt by lia. cbn [rbind].
    rewrite (load_Some _ _ _ Ew). cbn [rbind].
    erewrite load_Some by (apply list_lookup_insert_eq; lia). cbn [rbind].
    rewrite store_lt by lia. cbn [rbind].
    eexists. split; [done|].
    cbn [fst snd set_ensemble m_p_innerMods m_p_samps m_logUnNormWeights
         m_derived].
    split; [unfold sized; simpl; by rewrite !length_insert|].
    split.
    { rewrite (take_S_r _ _ _ Ex), fold_left_app. cbn [fold_left].
      by rewrite Hd. }
    split.
    + intros i Hi. destruct (decide (i = j)) as [->|Hne].
      * exists x_old, md_old. split; [done|]. split; [done|]. cbv zeta.
        rewrite !list_lookup_insert_eq by lia. by rewrite <- Hd.
      * rewrite !list_lookup_insert_ne by done. apply Hlt. lia.
    + intros i Hi. rewrite !list_lookup_insert_ne by lia. apply Hge. lia.
  - exists s', acc'. cbn [fst snd] in Hd, Hlt.
    rewrite take_ge in Hd by lia. by rewrite E.
Qed.

End HmmLoopInOrder.

Section KalmanLoopInOrder.
Context {kalman resampT U : Type}.
Context `{!cf_filter kalman} `{!Resampler resampT kalman}.
Context `{!rbpf_virtuals U} `{!Kalman.hooks kalman}.
Variable nparts : nat.

Lemma kalman_next_loop_in_order data m2 (s : engine kalman resampT U) acc :
  sized nparts s ->
  exists s' acc',
    for_loop (Kalman.next_body data m2) nparts 0%nat (s, acc) = Ok (s', acc') /\
    m_derived s' =
      fold_left (fun u x => (qSamp x data u).2) (m_p_samps s) (m_derived s) /\
    forall i, (i < nparts)%nat -> exists x_old md_old w,
      m_p_samps s !! i = Some x_old /\ m_p_innerMods s !! i = Some md_old /\
      m_logUnNormWeights s !! i = Some w /\
      let u := fold_left (fun u x => (qSamp x data u).2)
                 (take i (m_p_samps s)) (m_derived s) in
      let x := (qSamp x_old data u).1 in
      let md := Kalman.updateKalman md_old data x in
      m_p_samps s' !! i = Some x /\
      m_p_innerMods s' !! i = Some md /\
      m_logUnNormWeights s' !! i = Some (product_weight data w md x x_old).
Proof.
  intros Hs. pose proof Hs as (S1 & S2 & S3).
  destruct (for_loop_inv (Kalman.next_body data m2)
    (fun j st =>
       sized nparts st.1 /\
       m_derived st.1 =
         fold_left (fun u x => (qSamp x data u).2) (take j (m_p_samps s))
           (m_derived s) /\
       (forall i, (i < j)%nat -> exists x_old md_old w,
          m_p_samps s !! i = Some x_old /\ m_p_innerMods s !! i = Some md_old /\
          m_logUnNormWeights s !! i = Some w /\
          let u := fold_left (fun u x => (qSamp x data u).2)
                     (take i (m_p_samps s)) (m_derived s) in
          let x := (qSamp x_old data u).1 in
          let md := Kalman.updateKalman md_old data x in
          m_p_samps st.1 !! i = Some x /\
          m_p_innerMods st.1 !! i = Some md /\
          m_logUnNormWeights st.1 !! i =
            Some (product_weight data w md x x_old)) /\
       (forall i, (j <= i)%nat ->
          m_p_samps st.1 !! i = m_p_samps s !! i /\
          m_p_innerMods st.1 !! i = m_p_innerMods s !! i /\
          m_logUnNormWeights st.1 !! i = m_logUnNormWeights s !! i))
    nparts 0%nat (s, acc)) as ([s' acc'] & E & _ & Hd & Hlt & _).
  - split; [done|]. split; [done|]. split; [intros i Hi; lia|done].
  - intros j [t [sd m1]] Hj (Hsz & Hd & Hlt & Hge).
    cbn [fst snd] in Hsz, Hd, Hlt, Hge. destruct Hsz as (T1 & T2 & T3).
    destruct (lookup_lt_is_Some_2 (m_p_samps s) j) as [x_old Ex]; [lia|].
    destruct (lookup_lt_is_Some_2 (m_p_innerMods s) j) as [md_old Emd]; [lia|].
    destruct (lookup_lt_is_Some_2 (m_logUnNormWeights s) j) as [w Ew]; [lia|].
    destruct (Hge j) as (Gx & Gm & Gw); [lia|].
    rewrite Ex in Gx. rewrite Emd in Gm. rewrite Ew in Gw.
    unfold Kalman.next_body. cbn [fst snd].
    rewrite (load_Some _ _ _ Gx). cbn [rbind].
    rewrite (load_Some _ _ _ Gm). cbn [rbind].
    rewrite store_lt by lia. cbn [rbind].
    rewrite (load_Some _ _ _ Gw). cbn [rbind].
    erewrite load_Some by (apply list_lookup_insert_eq; lia). cbn [rbind].
    rewrite store_lt by lia. cbn [rbind].
    erewrite load_Some by (apply list_lookup_insert_eq; lia). cbn [rbind].
    rewrite store_lt by lia. cbn [rbind].
    eexists. split; [done|].
    cbn [fst snd set_ensemble m_p_innerMods m_p_samps m_logUnNormWeights
         m_derived].
    split; [unfold sized; simpl; by rewrite !length_insert|].
    split.
    { rewrite (take_S_r _ _ _ Ex), fold_left_app. cbn [fold_left].
      by rewrite Hd. }
    split.
    + intros i Hi. destruct (decide (i = j)) as [->|Hne].
      * exists x_old, md_old, w. split; [done|]. split; [done|].
        split; [done|]. cbv zeta.
        rewrite !list_lookup_insert_eq by lia. by rewrite <- Hd.
      * rewrite !list_lookup_insert_ne by done. apply Hlt. lia.
    + intros i Hi. rewrite !list_lookup_insert_ne by lia. apply Hge. lia.
  - exists s', acc'. cbn [fst snd] in Hd, Hlt.
    rewrite take_ge in Hd by lia. by rewrite E.
Qed.

End KalmanLoopInOrder.

Section InOrder.
Context {hmm kalman resampT U : Type}.
Context `{!cf_filter hmm} `{!cf_filter kalman}.
Context `{!Resampler resampT hmm} `{!Resampler resampT kalman}.
Context `{!rbpf_virtuals U} `{!Hmm.hooks hmm} `{!Kalman.hooks kalman}.
Variable nparts : nat.
Variables (data : osv) (fs : list functional).

Ltac ensemble_of H :=
  bind_inv H;
  match goal with
  | E : expectations_phase _ _ _ = Ok _ |- _ =>
      apply expectations_phase_Ok_ensemble in E;
      cbn [set_expectations set_lastLogCondLike m_p_innerMods m_p_samps
           m_logUnNormWeights m_derived] in E;
      let A1 := fresh "A" in let A2 := fresh "A" in
      let A3 := fresh "A" in let A4 := fresh "A" in
      destruct E as (A1 & A2 & A3 & A4);
      injection H as <- _; rewrite ?A1, ?A2, ?A3, ?A4
  end.

(** X14.  The first call in closed form.  Particle [i] receives the sample
    that [q1Samp(data)] returns on the derived object after [i] earlier
    draws, the inner filter built from that sample ([initHMMProbVec] and
    [initHMMTransMat], or [initKalmanMean] and [initKalmanVar]) and updated
    once with [data], and the first-step log-weight of the two; the derived
    object is left as [nparts] draws leave it.  These are the arrays that
    the call holds before it resamples. *)
Theorem first_call_draws_in_order
    (sh : engine hmm resampT U) (sk : engine kalman resampT U) :
  callable nparts fs sh -> callable nparts fs sk ->
  m_now sh = 0 -> m_now sk = 0 ->
  (exists s_pre tr,
     Hmm.assimilate nparts data fs sh = Ok (s_pre, tr) /\
     m_derived s_pre =
       Nat.iter nparts (fun u => (q1Samp data u).2) (m_derived sh) /\
     forall i, (i < nparts)%nat ->
       let u := Nat.iter i (fun u => (q1Samp data u).2) (m_derived sh) in
       let x := (q1Samp data u).1 in
       let md := Hmm.updateHMM
                   (Hmm.mk_hmm (Hmm.initHMMProbVec x) (Hmm.initHMMTransMat x))
                   data x in
       m_p_samps s_pre !! i = Some x /\
       m_p_innerMods s_pre !! i = Some md /\
       m_logUnNormWeights s_pre !! i = Some (first_weight data md x)) /\
  (exists s_pre tr,
     Kalman.assimilate nparts data fs sk = Ok (s_pre, tr) /\
     m_derived s_pre =
       Nat.iter nparts (fun u => (q1Samp data u).2) (m_derived sk) /\
     forall i, (i < nparts)%nat ->
       let u := Nat.iter i (fun u => (q1Samp data u).2) (m_derived sk) in
       let x := (q1Samp data u).1 in
       let md := Kalman.updateKalman
                   (Kalman.mk_kalman (Kalman.initKalmanMean x)
                      (Kalman.initKalmanVar x))
                   data x in
       m_p_samps s_pre !! i = Some x /\
       m_p_innerMods s_pre !! i = Some md /\
       m_logUnNormWeights s_pre !! i = Some (first_weight data md x)).
Proof.
  intros Hh Hk Nh Nk. split.
  - destruct (hmm_assimilates nparts data fs sh Hh) as (s_pre & tr & Ea & _).
    destruct Hh as (Hs & _).
    destruct (first_loop_in_order nparts Hmm.init_inner data sh
                minus_infinity Hs) as (s1 & m & E & Hd & Hw).
    exists s_pre, tr. split; [exact Ea|].
    unfold Hmm.assimilate in Ea. rewrite Nh in Ea.
    change (0 =? 0) with true in Ea. cbv iota in Ea.
    rewrite E in Ea. cbn [rbind fst snd] in Ea.
    ensemble_of Ea. split; [exact Hd|exact Hw].
  - destruct (kalman_assimilates nparts data fs sk Hk) as (s_pre & tr & Ea & _).
    destruct Hk as (Hs & _).
    destruct (first_loop_in_order nparts Kalman.init_inner data sk
                minus_infinity Hs) as (s1 & m & E & Hd & Hw).
    exists s_pre, tr. split; [exact Ea|].
    unfold Kalman.assimilate in Ea. rewrite Nk in Ea.
    change (0 =? 0) with true in Ea. cbv iota in Ea.
    rewrite E in Ea. cbn [rbind fst snd] in Ea.
    ensemble_of Ea. split; [exact Hd|exact Hw].
Qed.

Lemma hmm_later_closed (sh : engine hmm resampT U) :
  callable nparts fs sh -> m_now sh <> 0 ->
  exists s_pre tr,
    Hmm.assimilate nparts data fs sh = Ok (s_pre, tr) /\
    m_derived s_pre =
      fold_left (fun u x => (qSamp x data u).2) (m_p_samps sh)
        (m_derived sh) /\
    m_logUnNormWeights s_pre = m_logUnNormWeights sh /\
    forall i, (i < nparts)%nat -> exists x_old md_old,
      m_p_samps sh !! i = Some x_old /\ m_p_innerMods sh !! i = Some md_old /\
      let u := fold_left (fun u x => (qSamp x data u).2)
                 (take i (m_p_samps sh)) (m_derived sh) in
      let x := (qSamp x_old data u).1 in
      m_p_samps s_pre !! i = Some x /\
      m_p_innerMods s_pre !! i = Some (Hmm.updateFSHMM md_old data x).
Proof.
  intros Hh Nh.
  destruct (hmm_assimilates nparts data fs sh Hh) as (s_pre & tr & Ea & _).
  pose proof Hh as (Hs & Hn & Hu & Hfs & Hl).
  assert (Hne : m_logUnNormWeights sh <> []).
  { destruct Hs as (_ & _ & H3). intros E. rewrite E in H3. simpl in H3. lia. }
  destruct (hmm_assimilate_next nparts data fs sh Nh Hs Hn Hu Hfs (Hl Nh))
    as (s_pre' & Ea' & _ & _ & _ & _ & _ & Hws & _).
  rewrite Ea in Ea'. injection Ea' as <- _.
  destruct (hmm_next_loop_in_order nparts data
              (max_logw (m_logUnNormWeights sh)) sh
              (Fin 0, minus_infinity, Fin 0) Hs) as (s1 & acc & E & Hd & Hw).
  exists s_pre, tr. split; [exact Ea|].
  split; [|split; [exact Hws|]];
    unfold Hmm.assimilate in Ea;
    rewrite (proj2 (Z.eqb_neq _ _) Nh), max_element_ok in Ea by done;
    cbn [rbind] in Ea; rewrite E in Ea; cbn [rbind fst snd] in Ea;
    ensemble_of Ea; [exact Hd|exact Hw].
Qed.

Lemma kalman_later_closed (sk : engine kalman resampT U) :
  callable nparts fs sk -> m_now sk <> 0 ->
  exists s_pre tr,
    Kalman.assimilate nparts data fs sk = Ok (s_pre, tr) /\
    m_derived s_pre =
      fold_left (fun u x => (qSamp x data u).2) (m_p_samps sk)
        (m_derived sk) /\
    forall i, (i < nparts)%nat -> exists x_old md_old w,
      m_p_samps sk !! i = Some x_old /\ m_p_innerMods sk !! i = Some md_old /\
      m_logUnNormWeights sk !! i = Some w /\
      let u := fold_left (fun u x => (qSamp x data u).2)
                 (take i (m_p_samps sk)) (m_derived sk) in
      let x := (qSamp x_old data u).1 in
      let md := Kalman.updateKalman md_old data x in
      m_p_samps s_pre !! i = Some x /\
      m_p_innerMods s_pre !! i = Some md /\
      m_logUnNormWeights s_pre !! i =
        Some (product_weight data w md x x_old).
Proof.
  intros Hk Nk.
  destruct (kalman_assimilates nparts data fs sk Hk) as (s_pre & tr & Ea & _).
  pose proof Hk as (Hs & Hn & _).
  assert (Hne : m_logUnNormWeights sk <> []).
  { destruct Hs as (_ & _ & H3). intros E. rewrite E in H3. simpl in H3. lia. }
  destruct (kalman_next_loop_in_order nparts data
              (max_logw (m_logUnNormWeights sk)) sk
              (Fin 0, minus_infinity) Hs) as (s1 & acc & E & Hd & Hw).
  exists s_pre, tr. split; [exact Ea|].
  unfold Kalman.assimilate in Ea.
  rewrite (proj2 (Z.eqb_neq _ _) Nk), max_element_ok in Ea by done.
  cbn [rbind] in Ea. rewrite E in Ea. cbn [rbind fst snd] in Ea.
  ensemble_of Ea. split; [exact Hd|exact Hw].
Qed.

(** X15.  A later call in closed form.  Particle [i] receives the sample
    that [qSamp(old sample, data)] returns on the derived object as the
    draws for the particles before it left it, and its inner filter is
    updated once with [data] and the new sample ([updateFSHMM] in
    [rbpf_hmm], [updateKalman] in [rbpf_kalman]).  [rbpf_hmm] leaves the
    log-weights as it found them; [rbpf_kalman] adds to each log-weight the
    product of the updated inner filter's log conditional likelihood with
    [logFEv(new, old)], minus [logQEv(new, old, data)]. *)
Theorem later_call_draws_in_order
    (sh : engine hmm resampT U) (sk : engine kalman resampT U) :
  callable nparts fs sh -> callable nparts fs sk ->
  m_now sh <> 0 -> m_now sk <> 0 ->
  (exists s_pre tr,
     Hmm.assimilate nparts data fs sh = Ok (s_pre, tr) /\
     m_derived s_pre =
       fold_left (fun u x => (qSamp x data u).2) (m_p_samps sh)
         (m_derived sh) /\
     m_logUnNormWeights s_pre = m_logUnNormWeights sh /\
     forall i, (i < nparts)%nat -> exists x_old md_old,
       m_p_samps sh !! i = Some x_old /\ m_p_innerMods sh !! i = Some md_old /\
       let u := fold_left (fun u x => (qSamp x data u).2)
                  (take i (m_p_samps sh)) (m_derived sh) in
       let x := (qSamp x_old data u).1 in
       m_p_samps s_pre !! i = Some x /\
       m_p_innerMods s_pre !! i = Some (Hmm.updateFSHMM md_old data x)) /\
  (exists s_pre tr,
     Kalman.assimilate nparts data fs sk = Ok (s_pre, tr) /\
     m_derived s_pre =
       fold_left (fun u x => (qSamp x data u).2) (m_p_samps sk)
         (m_derived sk) /\
     forall i, (i < nparts)%nat -> exists x_old md_old w,
       m_p_samps sk !! i = Some x_old /\ m_p_innerMods sk !! i = Some md_old /\
       m_logUnNormWeights sk !! i = Some w /\
       let u := fold_left (fun u x => (qSamp x data u).2)
                  (take i (m_p_samps sk)) (m_derived sk) in
       let x := (qSamp x_old data u).1 in
       let md := Kalman.updateKalman md_old data x in
       m_p_samps s_pre !! i = Some x /\
       m_p_innerMods s_pre !! i = Some md /\
       m_logUnNormWeights s_pre !! i =
         Some (product_weight data w md x x_old)).
Proof.
  intros Hh Hk Nh Nk. split.
  - by apply hmm_later_closed.
  - by apply kalman_later_closed.
Qed.

End InOrder.

(** ** The resampler and what a caller observes *)

Section ResamplerFree.
Context {hmm kalman resampT U : Type}.
Context `{!cf_filter hmm} `{!cf_filter kalman}.
Context `{!rbpf_virtuals U} `{!Hmm.hooks hmm} `{!Kalman.hooks kalman}.

Lemma observe_finish {Mod : Type} (R1 R2 : Resampler resampT Mod)
    (s : engine Mod resampT U) done :
  observe (finish (Resampler0 := R1) s done) =
  observe (finish (Resampler0 := R2) s done).
Proof.
  unfold observe, finish, resample_gate. destruct (m_rs s =? 0); [done|].
  by destruct (wrap32 (m_now s + 1) mod m_rs s =? 0).
Qed.

(** X16.  Within one call the resampler comes last but for the clock: the
    log-likelihood and the expectations are stored before [resampLogWts] is
    called.  So what a caller observes of the call (the two getters, the
    order of the stages, or the fault) is the same whatever the resampler
    does with the particle arrays. *)
Theorem getters_ignore_the_resampler
    (Rh1 Rh2 : Resampler resampT hmm) (Rk1 Rk2 : Resampler resampT kalman)
    (nparts : nat) (data : osv) (fs : list functional)
    (sh : engine hmm resampT U) (sk : engine kalman resampT U) :
  observe (Hmm.filter (Resampler0 := Rh1) nparts data fs sh) =
    observe (Hmm.filter (Resampler0 := Rh2) nparts data fs sh) /\
  observe (Kalman.filter (Resampler0 := Rk1) nparts data fs sk) =
    observe (Kalman.filter (Resampler0 := Rk2) nparts data fs sk).
Proof.
  split.
  - unfold Hmm.filter.
    destruct (Hmm.assimilate nparts data fs sh) as [[s1 tr1]|f];
      cbn [rbind fst snd]; [apply observe_finish|done].
  - unfold Kalman.filter.
    destruct (Kalman.assimilate nparts data fs sk) as [[s1 tr1]|f];
      cbn [rbind fst snd]; [apply observe_finish|done].
Qed.

End ResamplerFree.

(** ** The size of the first log-likelihood *)

Lemma exp_le_one x : (x <= 0)%R -> (exp x <= 1)%R.
Proof.
  intros H. destruct (Rle_lt_or_eq_dec _ _ H) as [Hlt| ->].
  - pose proof (exp_increasing x 0 Hlt) as Hi. rewrite exp_0 in Hi. lra.
  - rewrite exp_0. lra.
Qed.

Lemma ln_mono x y : (0 < x)%R -> (x <= y)%R -> (ln x <= ln y)%R.
Proof.
  intros Hx H. destruct (Rle_lt_or_eq_dec _ _ H) as [Hlt| ->]; [|lra].
  pose proof (ln_increasing x y Hx Hlt). lra.
Qed.

Lemma fold_max_upper t : Forall finite t -> forall a,
  exists b,
    fold_left (fun largest y => if dlt largest y then y else largest) t (Fin a)
      = Fin b /\
    (a <= b)%R /\
    Forall (fun y => exists c, y = Fin c /\ (c <= b)%R) t.
Proof.
  induction 1 as [|y t Hy Ht IH]; intros a.
  - exists a. split; [done|]. split; [lra|constructor].
  - destruct y as [| | |c]; try done. cbn [fold_left dlt].
    destruct (Rlt_dec a c) as [Hlt|Hge].
    + destruct (IH c) as (b & E & Hb & Hall). exists b.
      split; [done|]. split; [lra|].
      constructor; [exists c; split; [done|lra]|done].
    + destruct (IH a) as (b & E & Hb & Hall). exists b.
      split; [done|]. split; [done|].
      constructor; [exists c; split; [done|lra]|done].
Qed.

(** On finite log-weights [*std::max_element] is an upper bound. *)
Lemma max_logw_upper ws :
  Forall finite ws -> ws <> [] ->
  exists b,
    max_logw ws = Fin b /\
    Forall (fun y => exists c, y = Fin c /\ (c <= b)%R) ws.
Proof.
  destruct ws as [|x t]; [done|]. intros Hf _.
  inversion Hf as [|? ? Hx Ht]; subst.
  destruct x as [| | |a]; try done.
  destruct (fold_max_upper t Ht a) as (b & E & Hb & Hall).
  exists b. split; [exact E|].
  constructor; [exists a; split; [done|lra]|done].
Qed.

Lemma fold_sum_exp_upper ws b :
  Forall (fun y => exists c, y = Fin c /\ (c <= b)%R) ws ->
  forall r0, exists r,
    fold_left (fun acc w => dadd acc (dexp (dsub w (Fin b)))) ws (Fin r0)
      = Fin r /\
    (r0 <= r <= r0 + INR (length ws))%R.
Proof.
  induction 1 as [|y t (c & -> & Hc) Ht IH]; intros r0.
  - exists r0. split; [done|]. simpl. lra.
  - cbn [fold_left dsub dexp dadd].
    destruct (IH (r0 + exp (c - b))%R) as (r & E & Hr).
    exists r. split; [done|].
    pose proof (exp_pos (c - b)). pose proof (exp_le_one (c - b)).
    cbn [length]. rewrite S_INR. lra.
Qed.

(** Shifted by the largest log-weight, the sum of the exponentials of [N]
    finite log-weights lies between 1 and [N]: the argument of [std::log]
    is at least 1. *)
Lemma sum_exp_shifted_bounds ws :
  Forall finite ws -> ws <> [] ->
  exists b r,
    max_logw ws = Fin b /\ sum_exp_shifted ws (Fin b) = Fin r /\
    (1 <= r <= INR (length ws))%R.
Proof.
  intros Hf Hne.
  destruct (max_logw_upper ws Hf Hne) as (b & Eb & Hall).
  destruct (fold_sum_exp_upper ws b Hall 0) as (r & E & Hr).
  exists b, r. split; [done|]. split; [exact E|]. split; [|lra].
  pose proof (max_logw_elem ws Hne) as Hin. rewrite Eb in Hin.
  apply list_elem_of_split in Hin as (l1 & l2 & ->).
  apply Forall_app in Hall as (H1 & H2).
  inversion H2 as [|? ? _ H2']; subst.
  rewrite fold_left_app in E. cbn [fold_left] in E.
  destruct (fold_sum_exp_upper l1 b H1 0) as (r1 & E1 & Hr1).
  rewrite E1 in E. cbn [dsub dexp dadd] in E.
  destruct (fold_sum_exp_upper l2 b H2' (r1 + exp (b - b))%R)
    as (r2 & E2 & Hr2).
  rewrite E2 in E. injection E as <-.
  replace (b - b)%R with 0%R in Hr2 by lra. rewrite exp_0 in Hr2. lra.
Qed.

Section FirstLikelihood.
Context {hmm resampT U : Type}.
Context `{!cf_filter hmm} `{!Resampler resampT hmm}.
Context `{!rbpf_virtuals U} `{!Hmm.hooks hmm}.
Variable nparts : nat.

(** X17.  The log-likelihood of the first step is the logarithm of the
    mean of the [N] weights, computed around the largest log-weight [M].
    With finite log-weights the sum of the shifted exponentials lies between
    1 and [N], so [getLogCondLike] returns a finite number between
    [M - log N] and [M] after the first call of [rbpf_hmm::filter]. *)
Theorem first_likelihood_is_bounded (data : osv) (fs : list functional)
    (sh : engine hmm resampT U) :
  callable nparts fs sh -> m_rs sh <> 0 -> m_now sh = 0 ->
  exists s_pre tr_pre s' tr,
    Hmm.assimilate nparts data fs sh = Ok (s_pre, tr_pre) /\
    Hmm.filter nparts data fs sh = Ok (s', tr) /\
    (Forall finite (m_logUnNormWeights s_pre) ->
     exists a M,
       getLogCondLike s' = Fin a /\
       max_logw (m_logUnNormWeights s_pre) = Fin M /\
       (M - ln (INR nparts) <= a <= M)%R).
Proof.
  intros Hc Rh Nh. pose proof Hc as (Hs & Hn & Hu & Hfs & _).
  destruct (hmm_getter_after_call nparts data fs sh Hc Rh)
    as (s_pre & tr_pre & s' & tr & Ea & Ef & Hg).
  destruct (hmm_assimilate_first nparts data fs sh Nh Hs Hn Hu Hfs)
    as (s1 & E1 & (_ & _ & H3) & _).
  rewrite Ea in E1. injection E1 as <- _.
  exists s_pre, tr_pre, s', tr. split; [done|]. split; [done|].
  intros Hf.
  destruct (sum_exp_shifted_bounds (m_logUnNormWeights s_pre) Hf)
    as (M & r & EM & Er & Hr).
  { intros E. rewrite E in H3. simpl in H3. lia. }
  rewrite H3 in Hr.
  exists (M + ln r - ln (INR nparts))%R, M.
  split; [|split; [done|]].
  - rewrite Hg, Nh. change (0 =? 0) with true. cbv iota.
    unfold logsumexp, logsumexp_at, of_size. rewrite EM, Er.
    cbn [dlog]. rewrite !Rsgn_pos by (try apply lt_0_INR; lra || lia).
    done.
  - pose proof (ln_mono 1 r) as L1. rewrite ln_1 in L1.
    pose proof (ln_mono r (INR nparts)) as L2. lra.
Qed.

End FirstLikelihood.

(** ** The right-hand sides of lines 536 and 596 *)

Section KalmanValue.
Context {kalman resampT U : Type}.
Context `{!cf_filter kalman} `{!Resampler resampT kalman}.
Context `{!rbpf_virtuals U} `{!Kalman.hooks kalman}.
Variable nparts : nat.

(** X18.  What [rbpf_kalman::filter] computes for the log-likelihood is the
    same quantity as in [rbpf_hmm]: the value assigned in line 536 is the
    log-sum-exp of the new log-weights minus [log N], and the value assigned
    in line 596 is the log-sum-exp of the updated log-weights minus the
    log-sum-exp of the log-weights that the call found.  Only the names on
    the left-hand sides keep it from [getLogCondLike]. *)
Theorem kalman_computes_the_increment (data : osv) (fs : list functional)
    (sk : engine kalman resampT U) :
  callable nparts fs sk ->
  exists s_pre,
    Kalman.assimilate nparts data fs sk =
      Ok (s_pre,
          [Propagated;
           (if m_now sk =? 0 then
              Assigned "m_logLastCondLike"
                (dsub (logsumexp (m_logUnNormWeights s_pre))
                      (dlog (of_size nparts)))
            else
              Assigned "m_lastCondLike"
                (dsub (logsumexp (m_logUnNormWeights s_pre))
                      (logsumexp (m_logUnNormWeights sk))));
           Averaged]) /\
    getLogCondLike s_pre = getLogCondLike sk.
Proof.
  intros (Hs & Hn & Hu & Hfs & Hl).
  destruct (m_now sk =? 0) eqn:E0.
  - apply Z.eqb_eq in E0.
    destruct (kalman_assimilate_first nparts data fs sk E0 Hs Hn Hu Hfs)
      as (s_pre & Ea & _ & _ & _ & Hg & _).
    exists s_pre. split; [|exact Hg].
    rewrite Ea, logsumexp_at_running_max. done.
  - apply Z.eqb_neq in E0.
    destruct (kalman_assimilate_next nparts data fs sk E0 Hs Hn Hu Hfs (Hl E0))
      as (s_pre & Ea & _ & _ & _ & Hg & _).
    exists s_pre. split; [|exact Hg].
    rewrite Ea, increment_value. done.
Qed.

End KalmanValue.

(** ** The shift of a log-sum-exp is the maximum *)









Section ClaimOnShifts.
Context {hmm kalman resampT U : Type}.
Context `{!cf_filter hmm} `{!cf_filter kalman}.
Context `{!Resampler resampT hmm} `{!Resampler resampT kalman}.
Context `{!rbpf_virtuals U} `{!Hmm.hooks hmm} `{!Kalman.hooks kalman}.



End ClaimOnShifts.

(** ** The schedule and the order of a step *)

Section Schedule.
Context {Mod resampT U : Type}.
Context `{!cf_filter Mod} `{!Resampler resampT Mod} `{!rbpf_virtuals U}.
Variable nparts : nat.
Variable assimilate :
  osv -> list functional -> engine Mod resampT U ->
  res (engine Mod resampT U * list event).
Hypothesis assimilate_ok : assimilates nparts assimilate.
Hypothesis assimilate_split : forall data fs s,
  sized nparts s -> (0 < nparts)%nat ->
  exists s1 tr,
    sized nparts s1 /\ m_now s1 = m_now s /\ m_rs s1 = m_rs s /\
    m_resampler s1 = m_resampler s /\
    m_expectations s1 =
      (if m_now s =? 0 then resize [] (length fs) (m_expectations s)
       else m_expectations s) /\
    assimilate data fs s =
      (s2 <- expectations_phase nparts fs s1 ;; Ok (s2, tr)).





End Schedule.

Section ClaimOnSchedule.
Context {hmm kalman resampT U : Type}.
Context `{!cf_filter hmm} `{!cf_filter kalman}.
Context `{!Resampler resampT hmm} `{!Resampler resampT kalman}.
Context `{!rbpf_virtuals U} `{!Hmm.hooks hmm} `{!Kalman.hooks kalman}.


End ClaimOnSchedule.

(** ** The further properties on the concrete model *)

Lemma demo_callable (s : demo_engine) (fs : list functional) :
  sized 1 s -> Forall uniform fs -> Z.of_nat (length fs) <= 2 ^ 32 ->
  (length fs <= length (m_expectations s))%nat \/ m_now s = 0 ->
  callable 1 fs s.
Proof.
  intros Hs Hu Hl Hc. split; [done|]. split; [lia|]. split; [done|].
  split; [done|]. intros Hne. destruct Hc as [Hc|Hc]; [done|by elim Hne].
Qed.

Lemma uniform_one : Forall uniform [h_one].
Proof. repeat constructor; apply uniform_h_one. Qed.

Lemma uniform_two : Forall uniform [h_one; h_one].
Proof. repeat constructor; apply uniform_h_one. Qed.

Lemma callable_first :
  callable 1 [h_one] hmm0 /\ callable 1 [h_one] kalman0.
Proof.
  split; (apply demo_callable;
          [done|apply uniform_one|simpl; lia|by right]).
Qed.

Lemma callable_later :
  callable 1 [h_one] hmm1e /\ callable 1 [h_one] kalman1e.
Proof.
  split; (apply demo_callable;
          [done|apply uniform_one|simpl; lia|left; simpl; lia]).
Qed.

Lemma callable_later_nil : callable 1 [] hmm1e /\ callable 1 [] kalman1e.
Proof.
  split; (apply demo_callable; [done|done|simpl; lia|left; simpl; lia]).
Qed.

Lemma callable_last :
  callable 1 [h_one] hmm_last /\ callable 1 [h_one] kalman_last.
Proof.
  split; (apply demo_callable;
          [done|apply uniform_one|simpl; lia|left; simpl; lia]).
Qed.

(** The first call of the two one-particle engines. *)
Lemma call_keeps_the_shape_witness :
  (exists (s' : demo_engine) tr,
     Hmm.filter 1 y1 [h_one] hmm0 = Ok (s', tr) /\
     sized 1 s' /\ m_rs s' = m_rs hmm0 /\
     m_now s' = wrap32 (m_now hmm0 + 1) /\
     length (getExpectations s') =
       (if m_now hmm0 =? 0 then length [h_one]
        else length (getExpectations hmm0))) /\
  (exists (s' : demo_engine) tr,
     Kalman.filter 1 y1 [h_one] kalman0 = Ok (s', tr) /\
     sized 1 s' /\ m_rs s' = m_rs kalman0 /\
     m_now s' = wrap32 (m_now kalman0 + 1) /\
     length (getExpectations s') =
       (if m_now kalman0 =? 0 then length [h_one]
        else length (getExpectations kalman0))).
Proof.
  apply (call_keeps_the_shape 1 y1 [h_one] hmm0 kalman0).
  - apply callable_first.
  - apply callable_first.
  - apply period_five_nonzero.
  - apply period_five_nonzero.
Defined.

(** The call of the two one-particle engines of period 5 at the last value
    of the clock. *)
Lemma clock_wraps_and_resamples_witness :
  (exists (s' : demo_engine) tr,
     Hmm.filter 1 y2 [h_one] hmm_last = Ok (s', tr) /\
     phase_of <$> tr = stages true /\ m_now s' = 0) /\
  (exists (s' : demo_engine) tr,
     Kalman.filter 1 y2 [h_one] kalman_last = Ok (s', tr) /\
     phase_of <$> tr = stages true /\ m_now s' = 0).
Proof.
  apply (clock_wraps_and_resamples 1 y2 [h_one] hmm_last kalman_last).
  - apply callable_last.
  - apply callable_last.
  - simpl. lia.
  - simpl. lia.
  - reflexivity.
  - reflexivity.
Defined.

(** The second call of the one-particle HMM engine, on the observation
    [y2] and on [y1]. *)
Lemma hmm_later_call_is_blind_witness :
  exists (s_pre : demo_engine) tr_pre (s' : demo_engine) tr
         (s2 : demo_engine) tr2,
    Hmm.assimilate 1 y2 [h_one] hmm1e = Ok (s_pre, tr_pre) /\
    Hmm.filter 1 y2 [h_one] hmm1e = Ok (s', tr) /\
    Hmm.filter 1 y1 [h_one] hmm1e = Ok (s2, tr2) /\
    m_logUnNormWeights s_pre = m_logUnNormWeights hmm1e /\
    getLogCondLike s' =
      (let ws := m_logUnNormWeights hmm1e in
       dsub (dsub (logsumexp ws) (max_logw ws))
            (dlog (sum_exp_shifted ws (max_logw ws)))) /\
    getLogCondLike s2 = getLogCondLike s'.
Proof.
  apply (hmm_later_call_is_blind 1 y2 [h_one] y1 hmm1e).
  - apply callable_later.
  - simpl. lia.
  - simpl. lia.
Defined.

(** The first call of the one-particle HMM engine. *)
Lemma hmm_getter_value_witness :
  exists (s_pre : demo_engine) tr_pre (s' : demo_engine) tr,
    Hmm.assimilate 1 y1 [h_one] hmm0 = Ok (s_pre, tr_pre) /\
    Hmm.filter 1 y1 [h_one] hmm0 = Ok (s', tr) /\
    getLogCondLike s' =
      dsub (logsumexp (m_logUnNormWeights s_pre))
           (if m_now hmm0 =? 0 then dlog (of_size 1)
            else logsumexp (m_logUnNormWeights hmm0)) /\
    (m_now hmm0 = 0 -> Forall finite (m_logUnNormWeights s_pre) ->
     finite (getLogCondLike s')).
Proof.
  apply (hmm_getter_value 1 y1 [h_one] hmm0).
  - apply callable_first.
  - apply period_five_nonzero.
Defined.

(** Three calls of the one-particle Kalman engine with period 2. *)
Lemma kalman_getter_never_moves_witness :
  exists (s' : demo_engine) trs,
    run (Kalman.filter 1) three_calls (Kalman.rbpf_kalman 1 [] (Fin 0) 2)
      = Ok (s', trs) /\
    getLogCondLike s' = Fin 0.
Proof.
  apply (kalman_getter_never_moves 1 [] (Fin 0) 2 1 three_calls).
  - lia.
  - lia.
  - simpl. lia.
  - apply three_calls_uniform.
Defined.

(** A second call without functionals keeps the cached expectation of the
    first call. *)
Lemma later_call_keeps_the_tail_witness :
  (exists (s' : demo_engine) tr,
     Hmm.filter 1 y2 [] hmm1e = Ok (s', tr) /\
     length (getExpectations s') = length (getExpectations hmm1e) /\
     forall i, (length ([] : list functional) <= i)%nat ->
       getExpectations s' !! i = getExpectations hmm1e !! i) /\
  (exists (s' : demo_engine) tr,
     Kalman.filter 1 y2 [] kalman1e = Ok (s', tr) /\
     length (getExpectations s') = length (getExpectations kalman1e) /\
     forall i, (length ([] : list functional) <= i)%nat ->
       getExpectations s' !! i = getExpectations kalman1e !! i).
Proof.
  apply (later_call_keeps_the_tail 1 y2 [] hmm1e kalman1e).
  - apply callable_later_nil.
  - apply callable_later_nil.
  - simpl. lia.
  - simpl. lia.
  - simpl. lia.
  - simpl. lia.
Defined.

(** A second call with one functional after a first call without any. *)
Lemma later_call_overruns_witness :
  Hmm.filter 1 y2 [h_one] hmm1 = Ub OutOfBounds /\
  Kalman.filter 1 y2 [h_one] kalman1 = Ub OutOfBounds.
Proof.
  apply (later_call_overruns 1 y2 [h_one] hmm1 kalman1).
  - done.
  - done.
  - lia.
  - apply uniform_one.
  - simpl. lia.
  - simpl. lia.
  - simpl. lia.
  - simpl. lia.
  - simpl. lia.
Defined.

(** The first call of the two one-particle engines of period 5 does not
    resample. *)
Lemma ensemble_at_the_end_witness :
  (exists (s_pre : demo_engine) tr_pre (s' : demo_engine) tr,
     Hmm.assimilate 1 y1 [h_one] hmm0 = Ok (s_pre, tr_pre) /\
     Hmm.filter 1 y1 [h_one] hmm0 = Ok (s', tr) /\
     m_resampler s' = m_resampler hmm0 /\
     m_p_innerMods s' = m_p_innerMods s_pre /\
     m_p_samps s' = m_p_samps s_pre /\
     m_logUnNormWeights s' = m_logUnNormWeights s_pre) /\
  (exists (s_pre : demo_engine) tr_pre (s' : demo_engine) tr,
     Kalman.assimilate 1 y1 [h_one] kalman0 = Ok (s_pre, tr_pre) /\
     Kalman.filter 1 y1 [h_one] kalman0 = Ok (s', tr) /\
     m_resampler s' = m_resampler kalman0 /\
     m_p_innerMods s' = m_p_innerMods s_pre /\
     m_p_samps s' = m_p_samps s_pre /\
     m_logUnNormWeights s' = m_logUnNormWeights s_pre).
Proof.
  apply (ensemble_at_the_end 1 y1 [h_one] hmm0 kalman0).
  - apply callable_first.
  - apply callable_first.
  - apply period_five_nonzero.
  - apply period_five_nonzero.
Defined.

(** The first call on an observation whose inner log conditional
    likelihood is minus infinity: the only log-weight is minus infinity. *)
Lemma impossible_first_call :
  (exists (s_pre : demo_engine) tr,
     Hmm.assimilate 1 y_impossible [h_one] hmm0 = Ok (s_pre, tr) /\
     m_logUnNormWeights s_pre = [NInf]) /\
  (exists (s_pre : demo_engine) tr,
     Kalman.assimilate 1 y_impossible [h_one] kalman0 = Ok (s_pre, tr) /\
     m_logUnNormWeights s_pre = [NInf]).
Proof.
  split; (do 2 eexists; split; [engine_eval; reflexivity|]); done.
Qed.

(** On that observation the HMM engine reports NaN as log-likelihood, and
    both engines cache NaN as the expectation of the constant 1. *)
Lemma nonfinite_maximum_gives_nan_witness :
  (exists (s' : demo_engine) tr,
     Hmm.filter 1 y_impossible [h_one] hmm0 = Ok (s', tr) /\
     getLogCondLike s' = NaN /\
     exists e, getExpectations s' !! 0%nat = Some e /\ Forall (eq NaN) e) /\
  (exists (s' : demo_engine) tr,
     Kalman.filter 1 y_impossible [h_one] kalman0 = Ok (s', tr) /\
     exists e, getExpectations s' !! 0%nat = Some e /\ Forall (eq NaN) e).
Proof.
  destruct (nonfinite_maximum_gives_nan 1 y_impossible [h_one] hmm0 kalman0)
    as ((hp & htp & hs & ht & Ha & Hf & Hh) & (kp & ktp & ks & kt & Ka & Kf & Kh)).
  - apply callable_first.
  - apply callable_first.
  - apply period_five_nonzero.
  - apply period_five_nonzero.
  - destruct impossible_first_call
      as ((hp' & htp' & Ha' & Hw) & (kp' & ktp' & Ka' & Kw)).
    rewrite Ha in Ha'. injection Ha' as <- _.
    rewrite Ka in Ka'. injection Ka' as <- _.
    split.
    + exists hs, ht. split; [exact Hf|].
      destruct Hh as (Hg & He); [rewrite Hw; simpl; tauto|].
      split; [exact Hg|]. apply He. simpl. lia.
    + exists ks, kt. split; [exact Kf|].
      apply Kh; [rewrite Kw; simpl; tauto|simpl; lia].
Defined.

(** The first call of the two one-particle engines with the constant
    functional 1. *)
Lemma constant_functional_is_reproduced_witness :
  (exists (s_pre : demo_engine) tr_pre (s' : demo_engine) tr,
     Hmm.assimilate 1 y1 [h_one] hmm0 = Ok (s_pre, tr_pre) /\
     Hmm.filter 1 y1 [h_one] hmm0 = Ok (s', tr) /\
     (Forall finite (m_logUnNormWeights s_pre) ->
      getExpectations s' !! 0%nat = Some [Fin 1])) /\
  (exists (s_pre : demo_engine) tr_pre (s' : demo_engine) tr,
     Kalman.assimilate 1 y1 [h_one] kalman0 = Ok (s_pre, tr_pre) /\
     Kalman.filter 1 y1 [h_one] kalman0 = Ok (s', tr) /\
     (Forall finite (m_logUnNormWeights s_pre) ->
      getExpectations s' !! 0%nat = Some [Fin 1])).
Proof.
  apply (constant_functional_is_reproduced 1 y1 [h_one] 0 [Fin 1]
           hmm0 kalman0).
  - apply callable_first.
  - apply callable_first.
  - apply period_five_nonzero.
  - apply period_five_nonzero.
  - reflexivity.
  - repeat constructor.
  - repeat constructor. simpl. lra.
Defined.

(** The first-step loop of the one-particle HMM engine. *)
Lemma first_loop_maximum_witness :
  exists (s' : demo_engine) m,
    for_loop (first_body Hmm.init_inner y1) 1 0%nat (hmm0, minus_infinity) =
      Ok (s', m) /\
    m <> NaN /\
    (max_element (m_logUnNormWeights s') = Ok m <->
     m_logUnNormWeights s' !! 0%nat <> Some NaN).
Proof.
  apply (first_loop_maximum 1 Hmm.init_inner y1 hmm0).
  - done.
  - lia.
Defined.

(** The call at the last value of the clock, followed by a call with two
    functionals where one expectation was cached. *)
Lemma clock_wrap_restarts_witness :
  (exists (s1 : demo_engine) tr1 (s2 : demo_engine) tr2,
     Hmm.filter 1 y2 [h_one] hmm_last = Ok (s1, tr1) /\
     Hmm.filter 1 y1 [h_one; h_one] s1 = Ok (s2, tr2) /\
     m_now s1 = 0 /\ m_now s2 = 1 /\
     length (getExpectations s2) = length [h_one; h_one]) /\
  (exists (s1 : demo_engine) tr1 (s2 : demo_engine) tr2,
     Kalman.filter 1 y2 [h_one] kalman_last = Ok (s1, tr1) /\
     Kalman.filter 1 y1 [h_one; h_one] s1 = Ok (s2, tr2) /\
     m_now s1 = 0 /\ m_now s2 = 1 /\
     length (getExpectations s2) = length [h_one; h_one]).
Proof.
  apply (clock_wrap_restarts 1 y2 [h_one] y1 [h_one; h_one]
           hmm_last kalman_last).
  - apply callable_last.
  - apply callable_last.
  - simpl. lia.
  - simpl. lia.
  - reflexivity.
  - reflexivity.
  - apply uniform_two.
  - simpl. lia.
Defined.

(** The first call of the two one-particle engines: the sample is the
    observation, the inner filter remembers its first coefficient. *)
Lemma first_call_draws_in_order_witness :
  (exists (s_pre : demo_engine) tr,
     Hmm.assimilate 1 y1 [h_one] hmm0 = Ok (s_pre, tr) /\
     m_derived s_pre = tt /\
     forall i, (i < 1)%nat ->
       m_p_samps s_pre !! i = Some y1 /\
       m_p_innerMods s_pre !! i = Some (Fin 1) /\
       m_logUnNormWeights s_pre !! i =
         Some (first_weight y1 (Fin 1 : dbl) y1)) /\
  (exists (s_pre : demo_engine) tr,
     Kalman.assimilate 1 y1 [h_one] kalman0 = Ok (s_pre, tr) /\
     m_derived s_pre = tt /\
     forall i, (i < 1)%nat ->
       m_p_samps s_pre !! i = Some y1 /\
       m_p_innerMods s_pre !! i = Some (Fin 1) /\
       m_logUnNormWeights s_pre !! i =
         Some (first_weight y1 (Fin 1 : dbl) y1)).
Proof.
  exact (first_call_draws_in_order 1 y1 [h_one] hmm0 kalman0
           (proj1 callable_first) (proj2 callable_first) eq_refl eq_refl).
Defined.

(** The second call of the two one-particle engines. *)
Lemma later_call_draws_in_order_witness :
  (exists (s_pre : demo_engine) tr,
     Hmm.assimilate 1 y2 [h_one] hmm1e = Ok (s_pre, tr) /\
     m_derived s_pre = tt /\
     m_logUnNormWeights s_pre = [Fin 1] /\
     forall i, (i < 1)%nat -> exists x_old md_old,
       m_p_samps hmm1e !! i = Some x_old /\
       m_p_innerMods hmm1e !! i = Some md_old /\
       m_p_samps s_pre !! i = Some y2 /\
       m_p_innerMods s_pre !! i = Some (Fin 2)) /\
  (exists (s_pre : demo_engine) tr,
     Kalman.assimilate 1 y2 [h_one] kalman1e = Ok (s_pre, tr) /\
     m_derived s_pre = tt /\
     forall i, (i < 1)%nat -> exists x_old md_old w,
       m_p_samps kalman1e !! i = Some x_old /\
       m_p_innerMods kalman1e !! i = Some md_old /\
       m_logUnNormWeights kalman1e !! i = Some w /\
       m_p_samps s_pre !! i = Some y2 /\
       m_p_innerMods s_pre !! i = Some (Fin 2) /\
       m_logUnNormWeights s_pre !! i =
         Some (product_weight y2 w (Fin 2 : dbl) y2 x_old)).
Proof.
  assert (Hh : m_now hmm1e <> 0) by (simpl; lia).
  assert (Hk : m_now kalman1e <> 0) by (simpl; lia).
  exact (later_call_draws_in_order 1 y2 [h_one] hmm1e kalman1e
           (proj1 callable_later) (proj2 callable_later) Hh Hk).
Defined.

(** The first call of the one-particle HMM engine. *)
Lemma first_likelihood_is_bounded_witness :
  exists (s_pre : demo_engine) tr_pre (s' : demo_engine) tr,
    Hmm.assimilate 1 y1 [h_one] hmm0 = Ok (s_pre, tr_pre) /\
    Hmm.filter 1 y1 [h_one] hmm0 = Ok (s', tr) /\
    (Forall finite (m_logUnNormWeights s_pre) ->
     exists a M,
       getLogCondLike s' = Fin a /\
       max_logw (m_logUnNormWeights s_pre) = Fin M /\
       (M - ln (INR 1) <= a <= M)%R).
Proof.
  apply (first_likelihood_is_bounded 1 y1 [h_one] hmm0).
  - apply callable_first.
  - apply period_five_nonzero.
  - reflexivity.
Defined.

(** The second call of the one-particle Kalman engine. *)
Lemma kalman_computes_the_increment_witness :
  exists (s_pre : demo_engine),
    Kalman.assimilate 1 y2 [h_one] kalman1e =
      Ok (s_pre,
          [Propagated;
           Assigned "m_lastCondLike"
             (dsub (logsumexp (m_logUnNormWeights s_pre))
                   (logsumexp (m_logUnNormWeights kalman1e)));
           Averaged]) /\
    getLogCondLike s_pre = getLogCondLike kalman1e.
Proof.
  apply (kalman_computes_the_increment 1 y2 [h_one] kalman1e).
  apply callable_later.
Defined.

(** ** The claims on shifts and on the schedule, on two particles *)



